(** * ETL pipelines (churn, urban air quality, logistics): transform and load

    A shallow embedding of the decision logic of the three ETL projects:
    the batcher and the retrying loaders ([ETL_PIPELINE/scripts/load.py],
    [ETL_URBAN/scripts/load.py]), the cleaning, feature derivation and
    classification steps ([ETL_LOGISTIC/scripts/transform.py],
    [ETL_URBAN/scripts/transform.py], [ETL_URBAN/scripts/etl_analysis.py]),
    and the contract encoding with its validator
    ([ETL_PIPELINE/scripts/transform.py], [ETL_PIPELINE/scripts/validate.py]).

    Conventions.
    - A pandas DataFrame is a list of rows (records), in row order.
    - A float cell is a [num]: a rational, an infinity or NaN.  Rounding and
      the sign of zero are not modelled; a null numeric cell is NaN, as in
      pandas.
    - A Python value that is a string or [None] is an [option string].
    - The remote table store is outside the repository: a run sees it as an
      oracle giving the outcome of every call. *)

From Stdlib Require Import ZArith QArith Qround Qabs Lia Lqa Sorted.
From stdpp Require Import base list strings gmap.

Local Open Scope nat_scope.

(** ** Python floats, as far as the scripts use them *)

Module PyNum.

Inductive num : Type :=
| Fin (q : Q)
| PInf
| NInf
| NaN.

Definition of_Z (z : Z) : num := Fin (inject_Z z).

(** [pd.isna] on a float cell. *)
Definition isna (x : num) : bool :=
  match x with NaN => true | _ => false end.

Definition Qlt_bool (a b : Q) : bool := negb (Qle_bool b a).

(** [x <= y]: false as soon as one side is NaN. *)
Definition le (x y : num) : bool :=
  match x, y with
  | NaN, _ | _, NaN => false
  | NInf, _ => true
  | _, PInf => true
  | Fin a, Fin b => Qle_bool a b
  | _, _ => false
  end.

(** [x > y]: false as soon as one side is NaN. *)
Definition gt (x y : num) : bool :=
  match x, y with
  | NaN, _ | _, NaN => false
  | PInf, PInf => false
  | PInf, _ => true
  | NInf, _ => false
  | Fin _, NInf => true
  | Fin _, PInf => false
  | Fin a, Fin b => Qlt_bool b a
  end.

Definition ge (x y : num) : bool := le y x.
Definition lt (x y : num) : bool := gt y x.

Definition neg (x : num) : num :=
  match x with
  | Fin a => Fin (- a)
  | PInf => NInf
  | NInf => PInf
  | NaN => NaN
  end.

Definition add (x y : num) : num :=
  match x, y with
  | NaN, _ | _, NaN => NaN
  | PInf, NInf | NInf, PInf => NaN
  | PInf, _ | _, PInf => PInf
  | NInf, _ | _, NInf => NInf
  | Fin a, Fin b => Fin (a + b)
  end.

Definition sub (x y : num) : num := add x (neg y).

(** Sign of a rational: [Lt], [Eq] or [Gt] against zero. *)
Definition sgn (a : Q) : comparison := (0 ?= a)%Q.

Definition inf_of (pos : bool) : num := if pos then PInf else NInf.

Definition mul_inf (pos : bool) (a : Q) : num :=
  match sgn a with
  | Eq => NaN
  | Lt => inf_of pos
  | Gt => inf_of (negb pos)
  end.

Definition mul (x y : num) : num :=
  match x, y with
  | NaN, _ | _, NaN => NaN
  | Fin a, Fin b => Fin (a * b)
  | PInf, Fin a | Fin a, PInf => mul_inf true a
  | NInf, Fin a | Fin a, NInf => mul_inf false a
  | PInf, PInf | NInf, NInf => PInf
  | PInf, NInf | NInf, PInf => NInf
  end.

(** numpy true division: a zero divisor gives an infinity or NaN, never an
    exception. *)
Definition div (x y : num) : num :=
  match x, y with
  | NaN, _ | _, NaN => NaN
  | Fin a, Fin b =>
      match sgn b with
      | Eq => match sgn a with Eq => NaN | Lt => PInf | Gt => NInf end
      | _ => Fin (a / b)
      end
  | Fin _, (PInf | NInf) => Fin 0
  | (PInf | NInf), (PInf | NInf) => NaN
  | PInf, Fin b => match sgn b with Gt => NInf | _ => PInf end
  | NInf, Fin b => match sgn b with Gt => PInf | _ => NInf end
  end.

Definition is_finite (x : num) : bool :=
  match x with Fin _ => true | _ => false end.

End PyNum.

Import PyNum.

(** ** Batcher *)

Module Batcher.

(** Number of items of [range(start, stop, step)] for a positive step. *)
Definition range_len (start stop step : nat) : nat :=
  (stop - start + step - 1) / step.

(** [range(start, stop, step)], step positive. *)
Definition py_range (start stop step : nat) : list nat :=
  (fun k => start + k * step) <$> seq 0 (range_len start stop step).

(** The slice [l[i:j]]. *)
Definition slice {A} (l : list A) (i j : nat) : list A :=
  take (j - i) (drop i l).

(** [chunk_data(data, size)] of ETL_PIPELINE, with the generator run to its
    end.  [range] raises [ValueError] on a zero step: [None]. *)
Definition chunk_data {A} (data : list A) (size : nat) : option (list (list A)) :=
  match size with
  | 0 => None
  | _ => Some ((fun i => slice data i (i + size)) <$> py_range 0 (length data) size)
  end.

Definition BATCH_SIZE : nat := 200.

(** [math.ceil(total_rows / BATCH_SIZE)]. *)
Definition ceil_div (n d : nat) : nat := (n + d - 1) / d.

(** The batch loop of ETL_URBAN's load script: the list of [batch_data]
    values, one per iteration of [for i in range(batches)]. *)
Definition urban_batches {A} (records : list A) : list (list A) :=
  let total_rows := length records in
  let batches := ceil_div total_rows BATCH_SIZE in
  (fun i => let start := i * BATCH_SIZE in
            let end_ := start + BATCH_SIZE in
            slice records start end_) <$> seq 0 batches.

(** Both loops cut the same way: the [k]-th batch is the slice of [size]
    items that starts at [k * size]. *)
Definition nth_slice {A} (size : nat) (data : list A) (k : nat) : list A :=
  take size (drop (k * size) data).

Definition slices {A} (size : nat) (data : list A) (n : nat) : list (list A) :=
  nth_slice size data <$> seq 0 n.

(** What the batcher owes its caller, for a positive [size]. *)
Record partition_of {A} (size : nat) (data : list A) (bs : list (list A)) : Prop := {
  part_concat : concat bs = data;
  part_slices : ∀ k b, bs !! k = Some b → b = take size (drop (k * size) data);
  part_full : ∀ k b, bs !! k = Some b → S k < length bs → length b = size;
  part_bounds : ∀ b, b ∈ bs → 1 ≤ length b ≤ size
}.

End Batcher.

(** ** Loaders *)

Module Loader.

Import Batcher.

(** One call of [supabase.table(..).insert(batch).execute()], seen from the
    script: the rows are stored and echoed in [response.data]; or the call
    returns with empty [response.data] and stores nothing; or it raises. *)
Inductive Outcome : Type :=
| Inserted
| NoData
| Raised.

(** The remote store during one run: whether the delete call raises, and the
    outcome of the insert call made for batch [i] after [attempt] failed
    attempts. *)
Record Remote : Type := {
  delete_raises : bool;
  insert_outcome : nat → nat → Outcome
}.

(** What a run does that can be seen from outside: calls and printed lines. *)
Inductive Event : Type :=
| EvDelete
| EvCleared
| EvInsert (i attempt : nat)
| EvUploaded (i n : nat)
| EvRetryFailed (i attempt : nat)
| EvSleep (secs : nat)
| EvInserting (i batches n : nat)
| EvInsertFailed (attempts limit : nat)
| EvGivingUp
| EvComplete (n : nat)
| EvSummary (ok failed : nat).

(** *** ETL_PIPELINE/scripts/load.py *)

(** A row of [telco_churn]: the column the delete filters on, and the others. *)
Record record : Type := {
  contract_type_code : option Z;
  columns : list (string * string)
}.

Record PState : Type := {
  p_table : list record;
  p_success_count : nat;
  p_log : list Event
}.

Definition p_emit (e : Event) (st : PState) : PState :=
  {| p_table := p_table st; p_success_count := p_success_count st;
     p_log := p_log st ++ [e] |}.

(** [.delete().neq("contract_type_code", -1)]: a row goes when its code is a
    value other than -1; a row with a NULL code does not satisfy the filter. *)
Definition deleted_by_neq (r : record) : bool :=
  match contract_type_code r with
  | Some c => negb (c =? -1)%Z
  | None => false
  end.

Definition delete_neq (t : list record) : list record :=
  List.filter (fun r => negb (deleted_by_neq r)) t.

(** The body of [for attempt in range(3)] for batch [i], over the attempts
    still to come. *)
Fixpoint insert_attempts (rm : Remote) (i : nat) (batch : list record)
    (attempts : list nat) (st : PState) : PState :=
  match attempts with
  | [] => st
  | attempt :: rest =>
      let st := p_emit (EvInsert i attempt) st in
      match insert_outcome rm i attempt with
      | Inserted =>
          (* response.data is non-empty: credit the batch and break *)
          p_emit (EvUploaded i (length batch))
            {| p_table := p_table st ++ batch;
               p_success_count := p_success_count st + length batch;
               p_log := p_log st |}
      | NoData | Raised =>
          (* "Empty response" is raised and caught like any exception *)
          insert_attempts rm i batch rest
            (p_emit (EvSleep 2) (p_emit (EvRetryFailed i (attempt + 1)) st))
      end
  end.

(** [for i, batch in enumerate(chunk_data(records), start=1)]. *)
Fixpoint load_batches (rm : Remote) (i : nat) (batches : list (list record))
    (st : PState) : PState :=
  match batches with
  | [] => st
  | batch :: rest =>
      load_batches rm (S i) rest (insert_attempts rm i batch (py_range 0 3 1) st)
  end.

Inductive Result : Type :=
| Aborted (st : PState)
| Completed (st : PState).

(** [load_data], from the records of the staged file and the table as it is
    before the run.  The delete is not inside a [try]: if it raises, the
    function is left before any insert. *)
Definition load_data (rm : Remote) (records table0 : list record) : Result :=
  let st := p_emit EvDelete {| p_table := table0; p_success_count := 0; p_log := [] |} in
  if delete_raises rm then Aborted st
  else
    let st := p_emit EvCleared
                {| p_table := delete_neq (p_table st);
                   p_success_count := p_success_count st; p_log := p_log st |} in
    let batches := default [] (chunk_data records 200) in
    let st := load_batches rm 1 batches st in
    Completed (p_emit (EvComplete (p_success_count st)) st).

(** The line the run ends with: the number of rows credited. *)
Definition load_report (r : Result) : option nat :=
  match r with
  | Completed st => Some (p_success_count st)
  | Aborted _ => None
  end.

(** The batches of a run that fail at each of their three attempts. *)
Definition always_fails (rm : Remote) (i : nat) : Prop :=
  ∀ attempt, insert_outcome rm i attempt ≠ Inserted.

(** The insert calls made for batch [i], as attempt numbers in call order. *)
Definition calls_for (i : nat) (log : list Event) : list nat :=
  omap (fun e => match e with
                 | EvInsert j a => if decide (j = i) then Some a else None
                 | _ => None
                 end) log.

(** *** ETL_URBAN/scripts/load.py *)

Definition RETRY_LIMIT : nat := 2.

Record UState (A : Type) : Type := {
  u_table : list A;
  u_success_count : nat;
  u_fail_count : nat;
  u_log : list Event
}.
Arguments u_table {A}.
Arguments u_success_count {A}.
Arguments u_fail_count {A}.
Arguments u_log {A}.

Definition u_emit {A} (e : Event) (st : UState A) : UState A :=
  {| u_table := u_table st; u_success_count := u_success_count st;
     u_fail_count := u_fail_count st; u_log := u_log st ++ [e] |}.

Definition u_store {A} (batch : list A) (st : UState A) : UState A :=
  {| u_table := u_table st ++ batch; u_success_count := u_success_count st;
     u_fail_count := u_fail_count st; u_log := u_log st |}.

(** The [while attempts <= RETRY_LIMIT] loop of [insert_batch], entered with
    [attempts] failures behind it.  Leaving the loop by its condition returns
    [None], which the caller tests like [False].  The number [i] of the batch
    is there to ask the store for its answer; [fuel] bounds the iterations,
    and [S RETRY_LIMIT] is always enough ([insert_batch_returns] below). *)
Fixpoint insert_batch_loop {A} (fuel : nat) (rm : Remote) (i : nat)
    (batch : list A) (attempts : nat) (st : UState A) : option (bool * UState A) :=
  match fuel with
  | 0 => None
  | S fuel =>
      if attempts <=? RETRY_LIMIT then
        let st := u_emit (EvInsert i attempts) st in
        match insert_outcome rm i attempts with
        | Inserted => Some (true, u_store batch st)
        | NoData => Some (true, st)
        | Raised =>
            let attempts := attempts + 1 in
            let st := u_emit (EvInsertFailed attempts RETRY_LIMIT) st in
            if RETRY_LIMIT <? attempts then Some (false, u_emit EvGivingUp st)
            else insert_batch_loop fuel rm i batch attempts st
        end
      else Some (false, st)
  end.

Definition insert_batch {A} (rm : Remote) (i : nat) (batch : list A)
    (st : UState A) : option (bool * UState A) :=
  insert_batch_loop (S RETRY_LIMIT) rm i batch 0 st.

(** One iteration of [for i in range(batches)]. *)
Definition urban_step {A} (rm : Remote) (batches i : nat) (batch_data : list A)
    (st : UState A) : option (UState A) :=
  let st := u_emit (EvInserting (i + 1) batches (length batch_data)) st in
  '(ok, st) ← insert_batch rm i batch_data st;
  Some (if ok : bool
        then {| u_table := u_table st;
                u_success_count := u_success_count st + length batch_data;
                u_fail_count := u_fail_count st; u_log := u_log st |}
        else {| u_table := u_table st;
                u_success_count := u_success_count st;
                u_fail_count := u_fail_count st + length batch_data;
                u_log := u_log st |}).

Fixpoint urban_loop {A} (rm : Remote) (batches i : nat) (bs : list (list A))
    (st : UState A) : option (UState A) :=
  match bs with
  | [] => Some st
  | batch_data :: rest =>
      st ← urban_step rm batches i batch_data st;
      urban_loop rm batches (S i) rest st
  end.

(** The load script of ETL_URBAN, from the records of the staged file. *)
Definition urban_load {A} (rm : Remote) (records table0 : list A) : option (UState A) :=
  let bs := urban_batches records in
  st ← urban_loop rm (length bs) 0 bs
         {| u_table := table0; u_success_count := 0; u_fail_count := 0; u_log := [] |};
  Some (u_emit (EvSummary (u_success_count st) (u_fail_count st)) st).

(** *** Accounting used in the statements *)

(** An attempt is lost for the churn loader unless rows came back, and for
    the urban loader only when the call raised. *)
Definition p_failed (o : Outcome) : bool :=
  match o with Inserted => false | _ => true end.

Definition u_failed (o : Outcome) : bool :=
  match o with Raised => true | _ => false end.

Definition always_raises (rm : Remote) (i : nat) : Prop :=
  ∀ attempt, insert_outcome rm i attempt = Raised.

(** The attempts really made for batch [i] out of those planned: up to and
    including the first that is not lost. *)
Fixpoint attempts_made (failed : Outcome → bool) (rm : Remote) (i : nat)
    (attempts : list nat) : list nat :=
  match attempts with
  | [] => []
  | a :: rest =>
      a :: (if failed (insert_outcome rm i a)
            then attempts_made failed rm i rest else [])
  end.

(** Batch [i] is credited when one of its three attempts is not lost. *)
Definition credited (failed : Outcome → bool) (rm : Remote) (i : nat) : bool :=
  existsb (fun a => negb (failed (insert_outcome rm i a))) [0; 1; 2].

(** The rows of the credited batches, for batches numbered from [i]. *)
Fixpoint credited_rows {A} (failed : Outcome → bool) (rm : Remote) (i : nat)
    (batches : list (list A)) : list A :=
  match batches with
  | [] => []
  | b :: rest =>
      (if credited failed rm i then b else []) ++ credited_rows failed rm (S i) rest
  end.

(** The rows of the batches that are not credited. *)
Fixpoint uncredited_rows {A} (failed : Outcome → bool) (rm : Remote) (i : nat)
    (batches : list (list A)) : list A :=
  match batches with
  | [] => []
  | b :: rest =>
      (if credited failed rm i then [] else b) ++ uncredited_rows failed rm (S i) rest
  end.

(** What the urban script prints at its end: rows inserted, rows failed. *)
Definition urban_report {A} (r : option (UState A)) : option (nat * nat) :=
  st ← r; Some (u_success_count st, u_fail_count st).

(** *** Sample runs *)

Definition sample_record : record :=
  {| contract_type_code := Some 1%Z; columns := [("contract", "one year")] |}.

Definition stale_record : record :=
  {| contract_type_code := Some (-1)%Z; columns := [("contract", "legacy")] |}.

(** A store that accepts every batch but batch [j], for which it raises. *)
Definition fails_only (j : nat) : Remote :=
  {| delete_raises := false;
     insert_outcome := fun i _ => if decide (i = j) then Raised else Inserted |}.

(** Four hundred staged rows: two batches of two hundred. *)
Definition two_batches : list record := replicate 400 sample_record.

(** A store that accepts everything. *)
Definition accepts_all : Remote :=
  {| delete_raises := false; insert_outcome := fun _ _ => Inserted |}.

End Loader.

(** ** ETL_LOGISTIC/scripts/transform.py *)

Module Logistic.

(** A category cell: a label, or [None]. *)
Definition category : Type := option string.

(** A row of the deliveries file as read; a time cell is text or null. *)
Record raw_delivery : Type := {
  raw_shipment_id : string;
  raw_source_city : string;
  raw_destination_city : string;
  raw_dispatch_time : option string;
  raw_expected_delivery_time : option string;
  raw_actual_delivery_time : option string;
  raw_package_weight : num
}.

(** The same row once the three time columns went through
    [pd.to_datetime(.., errors='coerce')]: nanoseconds since the epoch, or
    [None] for NaT. *)
Record delivery : Type := {
  shipment_id : string;
  source_city : string;
  destination_city : string;
  dispatch_time : option Z;
  expected_delivery_time : option Z;
  actual_delivery_time : option Z;
  package_weight : num
}.

(** [to_datetime] is pandas' parser of one cell: it is a parameter. *)
Definition coerce_time (to_datetime : string → option Z) (cell : option string) : option Z :=
  cell ≫= to_datetime.

Definition parse_delivery (to_datetime : string → option Z) (r : raw_delivery) : delivery :=
  {| shipment_id := raw_shipment_id r;
     source_city := raw_source_city r;
     destination_city := raw_destination_city r;
     dispatch_time := coerce_time to_datetime (raw_dispatch_time r);
     expected_delivery_time := coerce_time to_datetime (raw_expected_delivery_time r);
     actual_delivery_time := coerce_time to_datetime (raw_actual_delivery_time r);
     package_weight := raw_package_weight r |}.

Definition notna {A} (cell : option A) : bool :=
  match cell with Some _ => true | None => false end.

(** [dropna(subset=[dispatch_time, expected_delivery_time, actual_delivery_time])]. *)
Definition times_present (d : delivery) : bool :=
  notna (dispatch_time d) && notna (expected_delivery_time d)
  && notna (actual_delivery_time d).

(** [actual_delivery_time >= expected_delivery_time]; false against NaT. *)
Definition actual_ge_expected (d : delivery) : bool :=
  match actual_delivery_time d, expected_delivery_time d with
  | Some a, Some e => (e <=? a)%Z
  | _, _ => false
  end.

(** [Series.max()]: the largest cell that is not NaN, NaN when there is none. *)
Definition col_max (col : list num) : num :=
  match List.filter (fun x => negb (isna x)) col with
  | [] => NaN
  | x :: rest => fold_left (fun m y => if gt y m then y else m) rest x
  end.

Definition with_weight (d : delivery) (w : num) : delivery :=
  {| shipment_id := shipment_id d;
     source_city := source_city d;
     destination_city := destination_city d;
     dispatch_time := dispatch_time d;
     expected_delivery_time := expected_delivery_time d;
     actual_delivery_time := actual_delivery_time d;
     package_weight := w |}.

(** "Convert weight to kg if needed". *)
Definition normalize_weight (df : list delivery) : list delivery :=
  if gt (col_max (package_weight <$> df)) (of_Z 1000)
  then (fun d => with_weight d (div (package_weight d) (of_Z 1000))) <$> df
  else df.

(** Lines 37-47: coercion of the time columns, the two removals, the weight
    conversion. *)
Definition clean_deliveries (to_datetime : string → option Z)
    (raw : list raw_delivery) : list delivery :=
  let df := parse_delivery to_datetime <$> raw in
  let df := List.filter times_present df in
  let df := List.filter actual_ge_expected df in
  normalize_weight df.

(** [Timedelta.total_seconds()] of a difference in nanoseconds. *)
Definition total_seconds (ns : Z) : num := Fin (inject_Z ns / inject_Z 1000000000).

(** [(actual - expected).dt.total_seconds() / 60]. *)
Definition delay_minutes_of (d : delivery) : num :=
  match actual_delivery_time d, expected_delivery_time d with
  | Some a, Some e => div (total_seconds (a - e)) (of_Z 60)
  | _, _ => NaN
  end.

Definition classify_delay (x : num) : category :=
  if le x (of_Z 0) then Some "On-Time"
  else if le x (of_Z 60) then Some "Slight Delay"
  else if le x (of_Z 180) then Some "Major Delay"
  else Some "Critical Delay".

Definition agent_score (x : num) : Z :=
  if le x (of_Z 0) then 5
  else if le x (of_Z 30) then 4
  else if le x (of_Z 60) then 3
  else if le x (of_Z 180) then 2
  else 1.

(** A delivery with the columns derived from its delay. *)
Record scored_delivery : Type := {
  base : delivery;
  delay_minutes : num;
  delay_class : category;
  agent_score_col : Z
}.

Definition score_delivery (d : delivery) : scored_delivery :=
  let delay := delay_minutes_of d in
  {| base := d; delay_minutes := delay;
     delay_class := classify_delay delay;
     agent_score_col := agent_score delay |}.

(** The traffic file as read, column by column; a column may be absent. *)
Record traffic_frame : Type := {
  t_len : nat;
  t_city_name : option (list string);
  t_source_city : option (list string);
  t_destination_city : option (list string);
  t_congestion_score : option (list num);
  t_avg_route_speed : option (list num);
  t_weather_warnings : option (list (option string))
}.

Record traffic_row : Type := {
  tr_source_city : string;
  tr_destination_city : string;
  tr_congestion_score : num;
  tr_avg_route_speed : num;
  tr_weather_warnings : option string
}.

(** [traffic_df.get("city_name", "MockCity")], assigned to a column. *)
Definition city_name_or_mock (t : traffic_frame) : list string :=
  default (replicate (t_len t) "MockCity") (t_city_name t).

Fixpoint zip_rows (src dst : list string) (cong speed : list num)
    (ww : list (option string)) : list traffic_row :=
  match src, dst, cong, speed, ww with
  | s :: src, d :: dst, c :: cong, v :: speed, w :: ww =>
      {| tr_source_city := s; tr_destination_city := d;
         tr_congestion_score := c; tr_avg_route_speed := v;
         tr_weather_warnings := w |} :: zip_rows src dst cong speed ww
  | _, _, _, _, _ => []
  end.

(** "Ensure traffic_df has required columns": an absent column is created
    with a constant; a present column is left as it is. *)
Definition ensure_columns (t : traffic_frame) : list traffic_row :=
  zip_rows
    (default (city_name_or_mock t) (t_source_city t))
    (default (city_name_or_mock t) (t_destination_city t))
    (default (replicate (t_len t) (of_Z 5)) (t_congestion_score t))
    (default (replicate (t_len t) (of_Z 40)) (t_avg_route_speed t))
    (default (replicate (t_len t) None) (t_weather_warnings t)).

Record merged_row : Type := {
  left_row : scored_delivery;
  congestion_score : num;
  avg_route_speed : num;
  weather_warnings : option string
}.

Definition same_route (d : scored_delivery) (t : traffic_row) : bool :=
  bool_decide (source_city (base d) = tr_source_city t)
  && bool_decide (destination_city (base d) = tr_destination_city t).

(** [deliveries_df.merge(traffic_df[..], on=[source_city, destination_city],
    how="left")]: a delivery is paired with every traffic row of its route;
    with none, it is kept once and the traffic columns are null. *)
Definition merge_left (deliveries : list scored_delivery)
    (traffic : list traffic_row) : list merged_row :=
  deliveries ≫= (fun d =>
    match List.filter (same_route d) traffic with
    | [] => [ {| left_row := d; congestion_score := NaN;
                 avg_route_speed := NaN; weather_warnings := None |} ]
    | matches =>
        (fun t => {| left_row := d;
                     congestion_score := tr_congestion_score t;
                     avg_route_speed := tr_avg_route_speed t;
                     weather_warnings := tr_weather_warnings t |}) <$> matches
    end).

(** [congestion_score * (1 / avg_route_speed) * 10]. *)
Definition traffic_impact_score (m : merged_row) : num :=
  mul (mul (congestion_score m) (div (of_Z 1) (avg_route_speed m))) (of_Z 10).

Definition risk_level (x : num) : category :=
  if gt x (of_Z 15) then Some "High Risk"
  else if gt x (of_Z 7) then Some "Moderate Risk"
  else Some "Low Risk".

(** [(package_weight / (delay_minutes + 1)) * agent_score]. *)
Definition delivery_efficiency_index (m : merged_row) : num :=
  mul (div (package_weight (base (left_row m)))
           (add (delay_minutes (left_row m)) (of_Z 1)))
      (of_Z (agent_score_col (left_row m))).

(** The script from the two files to the rows it writes. *)
Definition transform (to_datetime : string → option Z) (raw : list raw_delivery)
    (traffic : traffic_frame) : list merged_row :=
  merge_left (score_delivery <$> clean_deliveries to_datetime raw)
             (ensure_columns traffic).

(** The two removals of the cleaning step, as one test. *)
Definition keeps (d : delivery) : bool := times_present d && actual_ge_expected d.

(** *** Sample files *)

Definition sample_to_datetime (s : string) : option Z :=
  if decide (s = "2025-12-11T07:30:00") then Some 1765438200000000000%Z
  else if decide (s = "2025-12-11T08:00:00") then Some 1765440000000000000%Z
  else if decide (s = "2025-12-11T09:30:00") then Some 1765445400000000000%Z
  else None.

(** Delivered at the expected time. *)
Definition on_time_raw : raw_delivery :=
  {| raw_shipment_id := "S1";
     raw_source_city := "Pune"; raw_destination_city := "Mumbai";
     raw_dispatch_time := Some "2025-12-11T07:30:00";
     raw_expected_delivery_time := Some "2025-12-11T08:00:00";
     raw_actual_delivery_time := Some "2025-12-11T08:00:00";
     raw_package_weight := of_Z 1200 |}.

(** Delivered ninety minutes late. *)
Definition late_raw : raw_delivery :=
  {| raw_shipment_id := "S2";
     raw_source_city := "Delhi"; raw_destination_city := "Agra";
     raw_dispatch_time := Some "2025-12-11T07:30:00";
     raw_expected_delivery_time := Some "2025-12-11T08:00:00";
     raw_actual_delivery_time := Some "2025-12-11T09:30:00";
     raw_package_weight := of_Z 800 |}.

(** Delivered before the expected time. *)
Definition early_raw : raw_delivery :=
  {| raw_shipment_id := "S3";
     raw_source_city := "Delhi"; raw_destination_city := "Agra";
     raw_dispatch_time := Some "2025-12-11T07:30:00";
     raw_expected_delivery_time := Some "2025-12-11T08:00:00";
     raw_actual_delivery_time := Some "2025-12-11T07:30:00";
     raw_package_weight := of_Z 500 |}.

(** A delivery time that does not parse. *)
Definition unparsed_raw : raw_delivery :=
  {| raw_shipment_id := "S4";
     raw_source_city := "Delhi"; raw_destination_city := "Agra";
     raw_dispatch_time := Some "2025-12-11T07:30:00";
     raw_expected_delivery_time := Some "2025-12-11T08:00:00";
     raw_actual_delivery_time := Some "soon";
     raw_package_weight := of_Z 500 |}.

Definition sample_raw : list raw_delivery :=
  [on_time_raw; early_raw; late_raw; unparsed_raw].

(** One route, Delhi to Agra, with a speed of zero; no weather column. *)
Definition sample_traffic : traffic_frame :=
  {| t_len := 1;
     t_city_name := None;
     t_source_city := Some ["Delhi"];
     t_destination_city := Some ["Agra"];
     t_congestion_score := Some [of_Z 4];
     t_avg_route_speed := Some [of_Z 0];
     t_weather_warnings := None |}.

(** Light parcels: nothing above a thousand. *)
Definition light_df : list delivery :=
  List.filter keeps (parse_delivery sample_to_datetime <$> [late_raw; early_raw]).

Definition heavy_df : list delivery :=
  List.filter keeps (parse_delivery sample_to_datetime <$> sample_raw).

End Logistic.

(** ** ETL_URBAN: transform.py and etl_analysis.py *)

Module Urban.

Definition category : Type := option string.

Definition compute_aqi (pm25 : num) : category :=
  if isna pm25 then None
  else if le pm25 (of_Z 50) then Some "Good"
  else if le pm25 (of_Z 100) then Some "Moderate"
  else if le pm25 (of_Z 200) then Some "Unhealthy"
  else if le pm25 (of_Z 300) then Some "Very Unhealthy"
  else Some "Hazardous".

Record air_row : Type := {
  pm10 : num;
  pm2_5 : num;
  carbon_monoxide : num;
  nitrogen_dioxide : num;
  sulphur_dioxide : num;
  ozone : num;
  uv_index : num
}.

Definition compute_severity (row : air_row) : num :=
  add (add (add (add (add (mul (pm2_5 row) (of_Z 5))
                          (mul (pm10 row) (of_Z 3)))
                     (mul (nitrogen_dioxide row) (of_Z 4)))
                (mul (sulphur_dioxide row) (of_Z 4)))
           (mul (carbon_monoxide row) (of_Z 2)))
      (mul (ozone row) (of_Z 3)).

Definition compute_risk (sev : num) : category :=
  if gt sev (of_Z 400) then Some "High Risk"
  else if gt sev (of_Z 200) then Some "Moderate Risk"
  else Some "Low Risk".

(** [Series.dropna()]. *)
Definition dropna (col : list num) : list num :=
  List.filter (fun x => negb (isna x)) col.

Fixpoint insert_sorted (x : num) (l : list num) : list num :=
  match l with
  | [] => [x]
  | y :: l' => if le x y then x :: l else y :: insert_sorted x l'
  end.

Definition sort_values (l : list num) : list num := foldr insert_sorted [] l.

(** [Series.quantile(q)] of pandas, linear interpolation, on a column without
    NaN: position [(n - 1) * q] in the sorted values, between its two
    neighbours [a + (b - a) * t]; NaN on an empty column. *)
Definition quantile (col : list num) (q : Q) : num :=
  let sorted := sort_values col in
  match sorted with
  | [] => NaN
  | _ =>
      let n := length sorted in
      let h := (inject_Z (Z.of_nat (n - 1)) * q)%Q in
      let lo := Z.to_nat (Qfloor h) in
      let t := (h - inject_Z (Qfloor h))%Q in
      let a := nth lo sorted NaN in
      let b := nth (Nat.min (lo + 1) (n - 1)) sorted NaN in
      add a (mul (sub b a) (Fin t))
  end.

(** [dynamic_risk], with the two module-level thresholds as arguments. *)
Definition dynamic_risk (low_thresh med_thresh : num) (sev_val : num) : category :=
  if isna sev_val then None
  else if le sev_val low_thresh then Some "Low Risk"
  else if le sev_val med_thresh then Some "Moderate Risk"
  else Some "High Risk".

Definition low_thresh_of (severity_score : list num) : num :=
  quantile (dropna severity_score) (33 # 100).

Definition med_thresh_of (severity_score : list num) : num :=
  quantile (dropna severity_score) (66 # 100).

(** The [risk_flag] column of the analysis, from the [severity_score] column
    of the same frame. *)
Definition risk_flag_column (severity_score : list num) : list category :=
  dynamic_risk (low_thresh_of severity_score) (med_thresh_of severity_score)
    <$> severity_score.

(** *** Sample columns *)

Definition five_scores : list num := [of_Z 10; of_Z 20; of_Z 30; of_Z 40; of_Z 50].

(** Three equal scores, one null cell, one large score. *)
Definition tied_scores : list num := [of_Z 10; of_Z 10; NaN; of_Z 10; of_Z 50].

End Urban.

(** ** ETL_PIPELINE: transform.py and validate.py *)

Module Churn.

Definition contract_map : gmap string Z :=
  {[ "month-to-month" := 0%Z; "one year" := 1%Z; "two year" := 2%Z ]}.

(** [str.lower()], on the ASCII letters. *)
Definition lower_ascii (c : Ascii.ascii) : Ascii.ascii :=
  let n := Ascii.nat_of_ascii c in
  if (65 <=? n) && (n <=? 90) then Ascii.ascii_of_nat (n + 32) else c.

Fixpoint str_lower (s : string) : string :=
  match s with
  | EmptyString => EmptyString
  | String c rest => String (lower_ascii c) (str_lower rest)
  end.

(** [ffill] on one column: a null cell takes the last value above it. *)
Fixpoint ffill_from {A} (last : option A) (col : list (option A)) : list (option A) :=
  match col with
  | [] => []
  | cell :: rest =>
      let v := match cell with Some _ => cell | None => last end in
      v :: ffill_from v rest
  end.

Definition ffill {A} (col : list (option A)) : list (option A) := ffill_from None col.

(** [df["Contract"].map(contract_map)]: null for a null cell and for a value
    that is not a key. *)
Definition map_contract (cell : option string) : option Z :=
  cell ≫= (fun c => contract_map !! c).

(** [.fillna(0).astype(int)]. *)
Definition fillna0 (cell : option Z) : Z := default 0%Z cell.

(** The [contract_type_code] column written by [transform_data], from the
    [Contract] column as read. *)
Definition contract_type_codes (Contract : list (option string)) : list Z :=
  let col := ffill Contract in
  let col := fmap str_lower <$> col in
  fillna0 <$> (map_contract <$> col).

(** The validator reads the column back; a cell may be NULL. *)
Definition valid_codes : gset (option Z) := {[ Some 0%Z; Some 1%Z; Some 2%Z ]}.

Definition invalid_codes (db_codes : list (option Z)) : gset (option Z) :=
  list_to_set db_codes ∖ valid_codes.

(** [len(invalid_codes) == 0]. *)
Definition contract_codes_valid (db_codes : list (option Z)) : bool :=
  bool_decide (size (invalid_codes db_codes) = 0).

(** *** A sample column *)

Definition sample_contracts : list (option string) :=
  [Some "Month-to-month"; None; Some "Two year"; Some "weekly"; Some "One year"].

End Churn.

(** ** ETL_URBAN/scripts/extract.py *)

Module UrbanExtract.

Record City : Type := {
  name : string;
  lat : Q;
  lon : Q
}.

(** What an extraction does that can be seen from outside: the requests sent
    (city by position in the list, attempt number), the sleeps. *)
Inductive Event : Type :=
| Request (city : nat) (attempt : Z)
| Backoff (secs : Z)
| GaveUp (city : nat)
| Pause.

(** The [while attempt < MAX_RETRIES] loop of [_fetch_city], entered with
    [attempt] attempts behind it.  [answer k] is what the [k]-th attempt ends
    with: the path of the saved file, or [None] when anything in the [try]
    raised.  [MAX_RETRIES] is read from the environment: any integer. *)
Fixpoint fetch_city_loop (fuel : nat) (answer : Z → option string)
    (MAX_RETRIES : Z) (city : nat) (attempt : Z) (log : list Event)
    : option (option string * list Event) :=
  match fuel with
  | 0 => None
  | S fuel =>
      if (attempt <? MAX_RETRIES)%Z then
        let attempt := (attempt + 1)%Z in
        let log := log ++ [Request city attempt] in
        match answer attempt with
        | Some saved_path => Some (Some saved_path, log)
        | None =>
            let wait := (2 ^ (attempt - 1))%Z in
            fetch_city_loop fuel answer MAX_RETRIES city attempt (log ++ [Backoff wait])
        end
      else Some (None, log ++ [GaveUp city])
  end.

Definition fetch_city (answer : Z → option string) (MAX_RETRIES : Z) (city : nat)
    (log : list Event) : option (option string * list Event) :=
  fetch_city_loop (S (Z.to_nat MAX_RETRIES)) answer MAX_RETRIES city 0 log.

(** [if path:] on a path or [None]. *)
Definition truthy (path : option string) : bool :=
  match path with
  | Some p => negb (bool_decide (p = ""))
  | None => false
  end.

(** [fetch_all_cities], over the cities still to fetch; [net i] answers for
    the city at position [i]. *)
Fixpoint fetch_all_loop (net : nat → Z → option string) (MAX_RETRIES : Z)
    (i : nat) (cities : list City) (saved_files : list string)
    (log : list Event) : option (list string * list Event) :=
  match cities with
  | [] => Some (saved_files, log)
  | _ :: rest =>
      '(path, log) ← fetch_city (net i) MAX_RETRIES i log;
      let saved_files :=
        match path with
        | Some p => if truthy path then saved_files ++ [p] else saved_files
        | None => saved_files
        end in
      fetch_all_loop net MAX_RETRIES (S i) rest saved_files (log ++ [Pause])
  end.

Definition fetch_all_cities (net : nat → Z → option string) (MAX_RETRIES : Z)
    (cities : list City) : option (list string * list Event) :=
  fetch_all_loop net MAX_RETRIES 0 cities [] [].

(** *** Accounting used in the statements *)

(** The attempts of one city, from attempt [a + 1] on, [n] attempts being
    left: each failed attempt is followed by its sleep. *)
Fixpoint attempts_trace (answer : Z → option string) (city : nat) (a : Z)
    (n : nat) : list Event :=
  match n with
  | 0 => [GaveUp city]
  | S n =>
      Request city (a + 1)
      :: match answer (a + 1)%Z with
         | Some _ => []
         | None => Backoff (2 ^ a) :: attempts_trace answer city (a + 1) n
         end
  end.

(** The first answer that is a path, among the attempts [a + 1 .. a + n]. *)
Fixpoint first_success (answer : Z → option string) (a : Z) (n : nat) : option string :=
  match n with
  | 0 => None
  | S n =>
      match answer (a + 1)%Z with
      | Some p => Some p
      | None => first_success answer (a + 1) n
      end
  end.

Definition requests_of (city : nat) (log : list Event) : list Z :=
  omap (fun e => match e with
                 | Request c k => if decide (c = city) then Some k else None
                 | _ => None
                 end) log.

Definition backoffs (log : list Event) : list Z :=
  omap (fun e => match e with Backoff s => Some s | _ => None end) log.

Definition sum_Z (l : list Z) : Z := foldr Z.add 0%Z l.

(** The path [fetch_all_cities] keeps for a city: the first success, when it
    passes [if path:]. *)
Definition kept_path (answer : Z → option string) (MAX_RETRIES : Z) : option string :=
  let path := first_success answer 0 (Z.to_nat MAX_RETRIES) in
  if truthy path then path else None.

(** *** A sample network: the second city never answers *)

Definition sample_cities : list City :=
  [ {| name := "Delhi"; lat := 287041 # 10000; lon := 771025 # 10000 |};
    {| name := "Mumbai"; lat := 190760 # 10000; lon := 728777 # 10000 |};
    {| name := "Kolkata"; lat := 225726 # 10000; lon := 883639 # 10000 |} ].

Definition sample_net (city : nat) (attempt : Z) : option string :=
  match city with
  | 0 => Some "delhi_raw.json"
  | 1 => None
  | _ => if (attempt <? 3)%Z then None else Some "kolkata_raw.json"
  end.

End UrbanExtract.

(** ** ETL_URBAN/scripts/transform.py: files to staged rows *)

Module UrbanTransform.

Import Urban.

(** The result of a call that may raise. *)
Inductive outcome (A : Type) : Type :=
| Returned (a : A)
| Raised.
Arguments Returned {A}.
Arguments Raised {A}.

(** [CITY_MAP], in the order of the dictionary. *)
Definition CITY_MAP : list ((Q * Q) * string) :=
  [ ((287041 # 10000, 771025 # 10000), "Delhi");
    ((190760 # 10000, 728777 # 10000), "Mumbai");
    ((129716 # 10000, 775946 # 10000), "Bengaluru");
    ((173850 # 10000, 784867 # 10000), "Hyderabad");
    ((225726 # 10000, 883639 # 10000), "Kolkata") ].

Definition abs (x : num) : num :=
  match x with
  | Fin q => Fin (Qabs q)
  | PInf | NInf => PInf
  | NaN => NaN
  end.

(** [abs(c - x) < 0.2]. *)
Definition near (c : Q) (x : num) : bool := lt (abs (sub (Fin c) x)) (Fin (2 # 10)).

(** The loop of [detect_city] over the entries still to test.  [lat] and [lon]
    are what [data.get] returned: a number, or [None], on which the
    subtraction raises [TypeError]; [and] does not evaluate its right side
    when the left one is false. *)
Fixpoint detect_city_in (entries : list ((Q * Q) * string)) (lat lon : option num)
    : outcome string :=
  match entries with
  | [] => Returned "Unknown"
  | ((clat, clon), cname) :: rest =>
      match lat with
      | None => Raised
      | Some la =>
          if near clat la then
            match lon with
            | None => Raised
            | Some lo =>
                if near clon lo then Returned cname
                else detect_city_in rest lat lon
            end
          else detect_city_in rest lat lon
      end
  end.

Definition detect_city (lat lon : option num) : outcome string :=
  detect_city_in CITY_MAP lat lon.

(** [trim(arr)], for [len(times) = n]: [arr] is the array under a pollutant
    key, or [None] when the key is absent. *)
Definition trim {A} (n : nat) (arr : option (list (option A))) : list (option A) :=
  match arr with
  | None => replicate n None
  | Some arr => take n (arr ++ replicate n None)
  end.

(** A raw file, as far as [parse_raw_json] reads it.  An absent ["hourly"] or
    ["time"] key reads as the empty list of times. *)
Record raw_file : Type := {
  latitude : option num;
  longitude : option num;
  hourly_time : list string;
  hourly_pm10 : option (list (option Q));
  hourly_pm2_5 : option (list (option Q));
  hourly_carbon_monoxide : option (list (option Q));
  hourly_nitrogen_dioxide : option (list (option Q));
  hourly_sulphur_dioxide : option (list (option Q));
  hourly_ozone : option (list (option Q));
  hourly_uv_index : option (list (option Q))
}.

(** A row of the frame built from one file: the cells are numbers or null. *)
Record parsed_row : Type := {
  p_time : string;
  p_pm10 : option Q;
  p_pm2_5 : option Q;
  p_carbon_monoxide : option Q;
  p_nitrogen_dioxide : option Q;
  p_sulphur_dioxide : option Q;
  p_ozone : option Q;
  p_uv_index : option Q;
  p_city : string
}.

Definition cell_at (col : list (option Q)) (k : nat) : option Q :=
  default None (col !! k).

(** [parse_raw_json]: the city is detected first; without times the frame is
    empty; otherwise one row per time, every column trimmed to that length. *)
Definition parse_raw_json (f : raw_file) : outcome (list parsed_row) :=
  match detect_city (latitude f) (longitude f) with
  | Raised => Raised
  | Returned city =>
      let times := hourly_time f in
      let n := length times in
      Returned
        (imap (fun k t =>
                 {| p_time := t;
                    p_pm10 := cell_at (trim n (hourly_pm10 f)) k;
                    p_pm2_5 := cell_at (trim n (hourly_pm2_5 f)) k;
                    p_carbon_monoxide := cell_at (trim n (hourly_carbon_monoxide f)) k;
                    p_nitrogen_dioxide := cell_at (trim n (hourly_nitrogen_dioxide f)) k;
                    p_sulphur_dioxide := cell_at (trim n (hourly_sulphur_dioxide f)) k;
                    p_ozone := cell_at (trim n (hourly_ozone f)) k;
                    p_uv_index := cell_at (trim n (hourly_uv_index f)) k;
                    p_city := city |}) times)
  end.

(** The loop of [run_transform] over the files: the frames that are not empty,
    in order; a file on which the parse raises ends the run. *)
Fixpoint collect_frames (files : list raw_file) : outcome (list (list parsed_row)) :=
  match files with
  | [] => Returned []
  | f :: rest =>
      match parse_raw_json f with
      | Raised => Raised
      | Returned df =>
          match collect_frames rest with
          | Raised => Raised
          | Returned rows =>
              Returned match df with [] => rows | _ => df :: rows end
          end
      end
  end.

(** [pd.to_numeric(.., errors="coerce")] on a cell that is a number or null. *)
Definition to_numeric (cell : option Q) : num :=
  match cell with Some q => Fin q | None => NaN end.

Definition numeric_row (r : parsed_row) : air_row :=
  {| pm10 := to_numeric (p_pm10 r);
     pm2_5 := to_numeric (p_pm2_5 r);
     carbon_monoxide := to_numeric (p_carbon_monoxide r);
     nitrogen_dioxide := to_numeric (p_nitrogen_dioxide r);
     sulphur_dioxide := to_numeric (p_sulphur_dioxide r);
     ozone := to_numeric (p_ozone r);
     uv_index := to_numeric (p_uv_index r) |}.

(** [dropna(subset=poll_cols, how="all")] keeps a row unless its seven
    pollutant cells are all null. *)
Definition all_null (r : air_row) : bool :=
  isna (pm10 r) && isna (pm2_5 r) && isna (carbon_monoxide r)
  && isna (nitrogen_dioxide r) && isna (sulphur_dioxide r) && isna (ozone r)
  && isna (uv_index r).

(** [dt.hour] of a time in nanoseconds since the epoch; NaN for NaT. *)
Definition hour_of (t : option Z) : num :=
  match t with
  | Some ns => of_Z ((ns / 3600000000000) mod 24)
  | None => NaN
  end.

Record staged_row : Type := {
  s_time : option Z;
  s_cells : air_row;
  s_city : string;
  aqi_category : category;
  severity_score : num;
  risk_flag : category;
  hour : num
}.

Definition stage_row (to_datetime : string → option Z) (r : parsed_row) : staged_row :=
  let cells := numeric_row r in
  let t := to_datetime (p_time r) in
  let sev := compute_severity cells in
  {| s_time := t; s_cells := cells; s_city := p_city r;
     aqi_category := compute_aqi (pm2_5 cells);
     severity_score := sev;
     risk_flag := compute_risk sev;
     hour := hour_of t |}.

(** [run_transform]: [Returned None] when no frame was collected and nothing
    is written, [Returned (Some rows)] with the rows written otherwise. *)
Definition run_transform (to_datetime : string → option Z) (files : list raw_file)
    : outcome (option (list staged_row)) :=
  match collect_frames files with
  | Raised => Raised
  | Returned [] => Returned None
  | Returned rows =>
      let df := concat rows in
      let df := List.filter (fun r => negb (all_null (numeric_row r))) df in
      Returned (Some (stage_row to_datetime <$> df))
  end.

(** *** Used in the statements *)

(** The item [k] of the array under a key, null when the key is absent, when
    the array is shorter, and when the item is null. *)
Definition array_cell (arr : option (list (option Q))) (k : nat) : option Q :=
  match arr with
  | Some a => default None (a !! k)
  | None => None
  end.

(** The number of times over all the files. *)
Definition total_times (files : list raw_file) : nat :=
  sum_list (length ∘ hourly_time <$> files).

(** The pollutant cells a file holds for its time number [k], read from the
    arrays of the file by position. *)
Definition file_cells (f : raw_file) (k : nat) : air_row :=
  {| pm10 := to_numeric (array_cell (hourly_pm10 f) k);
     pm2_5 := to_numeric (array_cell (hourly_pm2_5 f) k);
     carbon_monoxide := to_numeric (array_cell (hourly_carbon_monoxide f) k);
     nitrogen_dioxide := to_numeric (array_cell (hourly_nitrogen_dioxide f) k);
     sulphur_dioxide := to_numeric (array_cell (hourly_sulphur_dioxide f) k);
     ozone := to_numeric (array_cell (hourly_ozone f) k);
     uv_index := to_numeric (array_cell (hourly_uv_index f) k) |}.

(** The staged row of the time [t], number [k], of the file [f] of [city]. *)
Definition row_of (to_datetime : string → option Z) (f : raw_file) (city : string)
    (k : nat) (t : string) : staged_row :=
  let cells := file_cells f k in
  {| s_time := to_datetime t; s_cells := cells; s_city := city;
     aqi_category := compute_aqi (pm2_5 cells);
     severity_score := compute_severity cells;
     risk_flag := compute_risk (compute_severity cells);
     hour := hour_of (to_datetime t) |}.

(** The staged rows of one file: those of its times, in order, that have a
    pollutant value. *)
Definition rows_of_file (to_datetime : string → option Z) (f : raw_file)
    : list staged_row :=
  match detect_city (latitude f) (longitude f) with
  | Returned city =>
      List.filter (fun s => negb (all_null (s_cells s)))
        (imap (row_of to_datetime f city) (hourly_time f))
  | Raised => []
  end.

(** *** Sample files *)

(** Near Delhi, three hours, a short pm2_5 array and no ozone key. *)
Definition delhi_file : raw_file :=
  {| latitude := Some (Fin (287 # 10)); longitude := Some (Fin (771 # 10));
     hourly_time := ["2025-12-11T00:00"; "2025-12-11T01:00"; "2025-12-11T02:00"];
     hourly_pm10 := Some [Some (80 # 1); Some (90 # 1); None];
     hourly_pm2_5 := Some [Some (40 # 1)];
     hourly_carbon_monoxide := Some [Some (300 # 1); None; None];
     hourly_nitrogen_dioxide := Some [Some (10 # 1); None; None];
     hourly_sulphur_dioxide := Some [Some (5 # 1); None; None];
     hourly_ozone := None;
     hourly_uv_index := Some [None; None; None; Some (1 # 1)] |}.

(** Far from every city of the map, and no longitude. *)
Definition sea_file : raw_file :=
  {| latitude := Some (Fin 0); longitude := None;
     hourly_time := []; hourly_pm10 := None; hourly_pm2_5 := None;
     hourly_carbon_monoxide := None; hourly_nitrogen_dioxide := None;
     hourly_sulphur_dioxide := None; hourly_ozone := None;
     hourly_uv_index := None |}.

Definition no_time (s : string) : option Z := None.

End UrbanTransform.

(** ** ETL_LOGISTIC/scripts/load.py *)

Module LogisticLoad.

(** A cell of a staged file as read back: a float (null is NaN) or text. *)
Inductive cell : Type :=
| CNum (x : num)
| CStr (s : string).

(** A row, as [row.to_dict()] gives it: column names and cells. *)
Abbreviation row := (list (string * cell)).

(** [df.fillna(0)]. *)
Definition fillna_zero (c : cell) : cell :=
  match c with
  | CNum NaN => CNum (of_Z 0)
  | _ => c
  end.

(** [df.replace([inf, -inf], 0)]. *)
Definition replace_inf (c : cell) : cell :=
  match c with
  | CNum PInf | CNum NInf => CNum (of_Z 0)
  | _ => c
  end.

(** A change applied to every cell of a frame. *)
Definition map_cells (f : cell → cell) (df : list row) : list row :=
  (fun r : row => (fun nc : string * cell => (nc.1, f nc.2)) <$> r) <$> df.

Definition clean_df (df : list row) : list row :=
  let df := map_cells fillna_zero df in
  map_cells replace_inf df.

Inductive Event : Type :=
| Insert (table : string) (k : nat)
| Loaded (table : string)
| NotFound (table : string).

Record LState : Type := {
  deliveries : list row;
  traffic_routes : list row;
  l_log : list Event
}.

Definition store (table : string) (r : row) (st : LState) : LState :=
  if decide (table = "deliveries")
  then {| deliveries := deliveries st ++ [r];
          traffic_routes := traffic_routes st; l_log := l_log st |}
  else {| deliveries := deliveries st;
          traffic_routes := traffic_routes st ++ [r]; l_log := l_log st |}.

Definition emit (e : Event) (st : LState) : LState :=
  {| deliveries := deliveries st; traffic_routes := traffic_routes st;
     l_log := l_log st ++ [e] |}.

(** A run of the script ends, or stops on the exception of an insert. *)
Inductive run : Type :=
| Finished (st : LState)
| Crashed (st : LState).

(** [for _, row in df.iterrows(): supabase.table(..).insert(..).execute()]:
    one call per row, outside any [try].  [raises table k] tells whether the
    call for row [k] of that table raises. *)
Fixpoint insert_rows (raises : string → nat → bool) (table : string) (k : nat)
    (rows : list row) (st : LState) : run :=
  match rows with
  | [] => Finished st
  | r :: rest =>
      let st := emit (Insert table k) st in
      if raises table k then Crashed st
      else insert_rows raises table (S k) rest (store table r st)
  end.

(** One [if os.path.exists(..): .. else: ..] block; [csv] is the staged file
    when it exists. *)
Definition load_table (raises : string → nat → bool) (table : string)
    (csv : option (list row)) (st : LState) : run :=
  match csv with
  | Some df =>
      match insert_rows raises table 0 (clean_df df) st with
      | Finished st => Finished (emit (Loaded table) st)
      | Crashed st => Crashed st
      end
  | None => Finished (emit (NotFound table) st)
  end.

(** The script: the deliveries, then the traffic routes. *)
Definition load_script (raises : string → nat → bool)
    (deliveries_csv traffic_csv : option (list row)) (st : LState) : run :=
  match load_table raises "deliveries" deliveries_csv st with
  | Finished st => load_table raises "traffic_routes" traffic_csv st
  | Crashed st => Crashed st
  end.

(** *** Used in the statements *)




(** The state after [sent] calls for [table], numbered from [k0], of which
    the rows [rows] were stored. *)
Definition after_inserts (table : string) (k0 : nat) (rows : list row) (sent : nat)
    (st : LState) : LState :=
  {| deliveries :=
       deliveries st ++ (if decide (table = "deliveries") then rows else []);
     traffic_routes :=
       traffic_routes st ++ (if decide (table = "deliveries") then [] else rows);
     l_log := l_log st ++ (Insert table <$> seq k0 sent) |}.

Definition inserts_into (table : string) (log : list Event) : list nat :=
  omap (fun e => match e with
                 | Insert t k => if decide (t = table) then Some k else None
                 | _ => None
                 end) log.

(** *** A sample file *)

Definition sample_rows : list row :=
  [ [("shipment_id", CStr "S1"); ("traffic_impact_score", CNum NaN)];
    [("shipment_id", CStr "S2"); ("traffic_impact_score", CNum PInf)];
    [("shipment_id", CStr "S3"); ("traffic_impact_score", CNum (of_Z 2))] ].

Definition empty_store : LState :=
  {| deliveries := []; traffic_routes := []; l_log := [] |}.

(** A store that raises on the second deliveries row. *)
Definition second_row_raises (table : string) (k : nat) : bool :=
  bool_decide (table = "deliveries") && bool_decide (k = 1).

(** The traffic file as the extract step writes it: a city name, a
    congestion score, and neither route columns nor [avg_route_speed]. *)
Definition city_traffic : Logistic.traffic_frame :=
  {| Logistic.t_len := 2;
     Logistic.t_city_name := Some ["Delhi"; "Mumbai"];
     Logistic.t_source_city := None;
     Logistic.t_destination_city := None;
     Logistic.t_congestion_score := Some [of_Z 8; of_Z 6];
     Logistic.t_avg_route_speed := None;
     Logistic.t_weather_warnings := None |}.

End LogisticLoad.

(** ** ETL_PIPELINE/scripts/transform.py: the other derived columns *)

Module ChurnTransform.

Import Churn.

(** [pd.cut(x, bins=[lo, b1, b2, ..], labels=.., right=False)]: the label of
    the first interval [lo, b1), [b1, b2), ... that holds [x]; null when none
    does, and for a null [x]. *)
Fixpoint cut_from (x : num) (lo : Q) (bins : list Q) (labels : list string)
    : option string :=
  match bins, labels with
  | hi :: bins, label :: labels =>
      if le (Fin lo) x && lt x (Fin hi) then Some label
      else cut_from x hi bins labels
  | _, _ => None
  end.

Definition cut (x : num) (bins : list Q) (labels : list string) : option string :=
  match bins with
  | lo :: bins => cut_from x lo bins labels
  | [] => None
  end.

Definition tenure_group (tenure : num) : option string :=
  cut tenure [0; 12; 24; 48; 60; 120]%Q
    ["0–1 year"; "1–2 years"; "2–4 years"; "4–5 years"; "5+ years"].

Definition monthly_charge_segment (charges : num) : option string :=
  cut charges [0; 35; 70; 120]%Q ["low"; "medium"; "high"].

(** [1 if x == "yes" else 0], and the two flags that test for ["no"]. *)
Definition churn_flag (x : option string) : Z :=
  if bool_decide (x = Some "yes") then 1 else 0.

Definition has_internet_service (x : option string) : Z :=
  if bool_decide (x = Some "no") then 0 else 1.

Definition is_multi_line_user (x : option string) : Z :=
  if bool_decide (x = Some "no") then 0 else 1.

(** [Series.median()]: the middle of the sorted non-null cells, the mean of
    the two middle ones when their number is even, NaN when there is none. *)
Definition median (col : list num) : num :=
  let sorted := Urban.sort_values (Urban.dropna col) in
  let n := length sorted in
  match n with
  | 0 => NaN
  | _ =>
      if Nat.even n
      then div (add (nth (n / 2 - 1) sorted NaN) (nth (n / 2) sorted NaN)) (of_Z 2)
      else nth (n / 2) sorted NaN
  end.

(** [ffill] on a float column. *)
Fixpoint ffill_num_from (last : num) (col : list num) : list num :=
  match col with
  | [] => []
  | x :: rest =>
      let v := if isna x then last else x in
      v :: ffill_num_from v rest
  end.

(** The [TotalCharges] column after step 1: coerced to numbers ([to_numeric]
    is pandas' parser of one cell, a null cell staying null), nulls filled
    with the median, then the forward fill of the frame. *)
Definition total_charges (to_numeric : string → num) (col : list (option string))
    : list num :=
  let col := (fun c => match c with Some s => to_numeric s | None => NaN end) <$> col in
  let m := median col in
  let col := (fun x => if isna x then m else x) <$> col in
  ffill_num_from NaN col.

(** The column once coerced, before any fill. *)
Definition coerced (to_numeric : string → num) (col : list (option string)) : list num :=
  (fun c => match c with Some s => to_numeric s | None => NaN end) <$> col.

(** The validator's test that a column read back has no null. *)
Definition no_missing {A} (col : list (option A)) : bool :=
  bool_decide (length (List.filter (fun c => negb (Logistic.notna c)) col) = 0).

(** *** A sample column *)

(** A toy parser: digits of one or two figures, anything else is not a number. *)
Definition sample_to_numeric (s : string) : num :=
  if decide (s = "10") then of_Z 10
  else if decide (s = "20") then of_Z 20
  else if decide (s = "40") then of_Z 40
  else NaN.

Definition sample_charges : list (option string) :=
  [Some " "; Some "10"; None; Some "40"; Some "20"].

End ChurnTransform.

(** ** ETL_PIPELINE/scripts/validate.py: reading the table back *)

Module Validate.

(** What a store that keeps the rows in order, and puts no cap of its own on
    an answer, returns for [.range(from, to)]: the rows at the positions
    [from] to [to], both included. *)
Definition range_of {A} (tbl : list A) (from to : Z) : list A :=
  take (Z.to_nat (to - from + 1)) (drop (Z.to_nat from) tbl).

(** The [while True] loop of [fetch_all_rows]; [select from to] is the data of
    the response to [.range(from, to)].  The count of the requests sent is
    kept beside [all_data]. *)
Fixpoint fetch_loop {A} (fuel : nat) (select : Z → Z → list A) (batch_size : Z)
    (start : Z) (all_data : list A) (requests : nat) : option (list A * nat) :=
  match fuel with
  | 0 => None
  | S fuel =>
      let data := select start (start + batch_size - 1)%Z in
      match data with
      | [] => Some (all_data, S requests)
      | _ =>
          fetch_loop fuel select batch_size (start + batch_size)%Z
            (all_data ++ data) (S requests)
      end
  end.

Definition fetch_all_rows {A} (fuel : nat) (select : Z → Z → list A)
    (batch_size : Z) : option (list A * nat) :=
  fetch_loop fuel select batch_size 0 [] 0.

(** A store that cuts every answer to [cap] rows. *)
Definition capped {A} (cap : nat) (tbl : list A) (from to : Z) : list A :=
  take cap (range_of tbl from to).

End Validate.

(** ** The loaders, counted *)

Module LoaderCount.

Import Loader.

(** The number of insert calls of a run. *)
Definition insert_calls (log : list Event) : nat :=
  length (List.filter (fun e => match e with EvInsert _ _ => true | _ => false end) log).

(** A store whose delete raises. *)
Definition delete_fails : Remote :=
  {| delete_raises := true; insert_outcome := fun _ _ => Inserted |}.

End LoaderCount.

(** ** ETL_URBAN/scripts/run_pipeline.py: the load step of the runner *)

Module RunPipeline.

Import Batcher Loader.

Inductive REvent : Type :=
| RInsert (i attempt : nat)
| RWarning (i attempts : nat)
| RError (i : nat)
| RTotal (n : nat)
| RSummary (ok failed : nat).

Record RState (A : Type) : Type := {
  r_table : list A;
  r_success_count : nat;
  r_fail_count : nat;
  r_log : list REvent
}.
Arguments r_table {A}.
Arguments r_success_count {A}.
Arguments r_fail_count {A}.
Arguments r_log {A}.

Definition r_emit {A} (e : REvent) (st : RState A) : RState A :=
  {| r_table := r_table st; r_success_count := r_success_count st;
     r_fail_count := r_fail_count st; r_log := r_log st ++ [e] |}.

(** The [while attempts <= 2 and not inserted] loop of [run_load] for the
    batch of the iteration [i]. *)
Fixpoint attempts_loop {A} (fuel : nat) (rm : Remote) (i : nat)
    (batch_data : list A) (attempts : nat) (inserted : bool) (st : RState A)
    : option (bool * RState A) :=
  match fuel with
  | 0 => None
  | S fuel =>
      if (attempts <=? 2) && negb inserted then
        let st := r_emit (RInsert i attempts) st in
        match insert_outcome rm i attempts with
        | Raised =>
            let attempts := attempts + 1 in
            attempts_loop fuel rm i batch_data attempts inserted
              (r_emit (RWarning (i + 1) attempts) st)
        | outcome =>
            (* the call returned: [inserted = True], the batch is counted *)
            attempts_loop fuel rm i batch_data attempts true
              {| r_table :=
                   match outcome with
                   | Inserted => r_table st ++ batch_data
                   | _ => r_table st
                   end;
                 r_success_count := r_success_count st + length batch_data;
                 r_fail_count := r_fail_count st; r_log := r_log st |}
        end
      else Some (inserted, st)
  end.

(** One iteration of [for i in range(batches)]: four turns of the loop test
    are the most it takes. *)
Definition run_step {A} (rm : Remote) (i : nat) (batch_data : list A)
    (st : RState A) : option (RState A) :=
  '(inserted, st) ← attempts_loop 4 rm i batch_data 0 false st;
  Some (if inserted : bool then st
        else r_emit (RError (i + 1))
               {| r_table := r_table st;
                  r_success_count := r_success_count st;
                  r_fail_count := r_fail_count st + length batch_data;
                  r_log := r_log st |}).

Fixpoint run_loop {A} (rm : Remote) (i : nat) (bs : list (list A))
    (st : RState A) : option (RState A) :=
  match bs with
  | [] => Some st
  | batch_data :: rest =>
      st ← run_step rm i batch_data st;
      run_loop rm (S i) rest st
  end.

(** [run_load], from the records of the staged file. *)
Definition run_load {A} (rm : Remote) (records table0 : list A) : option (RState A) :=
  let total_rows := length records in
  st ← run_loop rm 0 (urban_batches records)
         {| r_table := table0; r_success_count := 0; r_fail_count := 0;
            r_log := [RTotal total_rows] |};
  Some (r_emit (RSummary (r_success_count st) (r_fail_count st)) st).

(** *** Used in the statements *)

Definition r_calls_for (i : nat) (log : list REvent) : list nat :=
  omap (fun e => match e with
                 | RInsert j a => if decide (j = i) then Some a else None
                 | _ => None
                 end) log.

(** The load script and the runner left the same table, the same counts and
    sent the same calls. *)
Definition same_outcome {A} (su : UState A) (sr : RState A) : Prop :=
  u_table su = r_table sr
  ∧ u_success_count su = r_success_count sr
  ∧ u_fail_count su = r_fail_count sr
  ∧ ∀ k, calls_for k (u_log su) = r_calls_for k (r_log sr).

(** A store that raises once for every batch, then accepts it. *)
Definition raises_once : Remote :=
  {| delete_raises := false;
     insert_outcome := fun _ attempt => match attempt with 0 => Raised | _ => Inserted end |}.

End RunPipeline.

(** ** ETL_URBAN/scripts/etl_analysis.py: the scores behind the cut points *)

Module UrbanAnalysis.

Import Urban.

(** *** Used in the statements *)

(** The number of cells of a column that pass a test. *)
Definition count (f : num → bool) (col : list num) : nat :=
  length (List.filter f col).

(** The number of scores, the cells that are not null, of a column. *)
Definition scores (col : list num) : nat := count (fun y => negb (isna y)) col.

(** [x] has rank [k], counted from 0, among the scores of the column: at most
    [k] scores are below [x], and more than [k] are at or below it.  A null
    cell counts on neither side, a comparison with NaN being false. *)
Definition of_rank (k : nat) (x : num) (col : list num) : Prop :=
  isna x = false
  ∧ count (fun y => lt y x) col ≤ k
  ∧ k < count (fun y => le y x) col.

(** The position [(n - 1) * q] of the quantile [q] among the [n] scores of a
    column: the rank at its whole part, the rank after it, and its fractional
    part. *)
Definition position (col : list num) (q : Q) : Q :=
  (inject_Z (Z.of_nat (scores col - 1)) * q)%Q.

Definition rank_below (col : list num) (q : Q) : nat :=
  Z.to_nat (Qfloor (position col q)).

Definition rank_above (col : list num) (q : Q) : nat :=
  Nat.min (rank_below col q + 1) (scores col - 1).

Definition fraction (col : list num) (q : Q) : Q :=
  (position col q - inject_Z (Qfloor (position col q)))%Q.

(** *** Sample column *)

(** The scores 10 to 50 out of order, with two null cells between them. *)
Definition shuffled_scores : list num :=
  [of_Z 50; NaN; of_Z 10; of_Z 40; NaN; of_Z 20; of_Z 30].

End UrbanAnalysis.

(** * Properties *)

(** ** Batcher: the batches partition the records *)

Module BatcherFacts.

Import Batcher.

Lemma ceil_div_covers (n size : nat) :
  0 < size → n ≤ ceil_div n size * size.
Proof.
  intros Hs. unfold ceil_div.
  pose proof (Nat.div_mod_eq (n + size - 1) size) as Hdm.
  pose proof (Nat.mod_upper_bound (n + size - 1) size) as Hub.
  nia.
Qed.

Lemma ceil_div_tight (n size : nat) :
  0 < size → 0 < n → (ceil_div n size - 1) * size < n.
Proof.
  intros Hs Hn. unfold ceil_div.
  pose proof (Nat.div_mod_eq (n + size - 1) size) as Hdm.
  pose proof (Nat.mod_upper_bound (n + size - 1) size) as Hub.
  nia.
Qed.

Lemma ceil_div_zero (size : nat) : 0 < size → ceil_div 0 size = 0.
Proof.
  intros Hs. unfold ceil_div. apply Nat.div_small. lia.
Qed.

Lemma slices_lookup {A} (size : nat) (data : list A) (n k : nat) (b : list A) :
  slices size data n !! k = Some b ↔ k < n ∧ b = nth_slice size data k.
Proof.
  unfold slices. rewrite list_lookup_fmap. split.
  - intros H. destruct (seq 0 n !! k) as [j|] eqn:Hj; simplify_eq/=.
    apply lookup_seq in Hj as [-> Hlt]. done.
  - intros [Hlt ->]. by rewrite (lookup_seq_lt 0 n k Hlt).
Qed.

Lemma length_slices {A} (size : nat) (data : list A) (n : nat) :
  length (slices size data n) = n.
Proof. unfold slices. by rewrite length_fmap, length_seq. Qed.

Lemma concat_slices {A} (size : nat) (data : list A) (n : nat) :
  concat (slices size data n) = take (n * size) data.
Proof.
  unfold slices. induction n as [|n IH].
  - by rewrite take_0.
  - rewrite seq_S, fmap_app, concat_app, IH. cbn [fmap list_fmap concat].
    rewrite app_nil_r. unfold nth_slice.
    rewrite take_take_drop. f_equal. lia.
Qed.

Lemma length_nth_slice {A} (size : nat) (data : list A) (k : nat) :
  length (nth_slice size data k) = Nat.min size (length data - k * size).
Proof. unfold nth_slice. by rewrite length_take, length_drop. Qed.

(** The slices up to the ceiling of [length data / size] partition [data]. *)
Lemma slices_partition {A} (size : nat) (data : list A) :
  0 < size →
  partition_of size data (slices size data (ceil_div (length data) size)).
Proof.
  intros Hs.
  pose proof (ceil_div_covers (length data) size Hs) as Hcov.
  split.
  - rewrite concat_slices. by apply take_ge.
  - intros k b Hk. by apply slices_lookup in Hk as [_ ->].
  - intros k b Hk Hlast. apply slices_lookup in Hk as [Hlt ->].
    rewrite length_slices in Hlast.
    rewrite length_nth_slice.
    destruct (decide (length data = 0)) as [H0|H0].
    { rewrite H0, ceil_div_zero in Hlast by done. lia. }
    pose proof (ceil_div_tight (length data) size Hs ltac:(lia)) as Ht.
    nia.
  - intros b Hb. apply list_elem_of_lookup in Hb as [k Hk].
    apply slices_lookup in Hk as [Hlt ->].
    rewrite length_nth_slice.
    destruct (decide (length data = 0)) as [H0|H0].
    { rewrite H0, ceil_div_zero in Hlt by done. lia. }
    pose proof (ceil_div_tight (length data) size Hs ltac:(lia)) as Ht.
    nia.
Qed.

Lemma py_range_from_zero (stop step : nat) :
  py_range 0 stop step = (fun k => k * step) <$> seq 0 (ceil_div stop step).
Proof.
  unfold py_range, range_len, ceil_div. rewrite Nat.sub_0_r. done.
Qed.

Lemma chunk_data_slices {A} (data : list A) (size : nat) :
  0 < size →
  chunk_data data size = Some (slices size data (ceil_div (length data) size)).
Proof.
  intros Hs. unfold chunk_data. destruct size as [|s]; [lia|].
  f_equal. rewrite py_range_from_zero. unfold slices.
  rewrite <- list_fmap_compose. apply list_fmap_ext.
  intros _ k _. cbn [compose]. unfold slice, nth_slice.
  f_equal. lia.
Qed.

Lemma urban_batches_slices {A} (records : list A) :
  urban_batches records
  = slices BATCH_SIZE records (ceil_div (length records) BATCH_SIZE).
Proof.
  unfold urban_batches, slices. apply list_fmap_ext.
  intros _ k _. cbv zeta. unfold slice, nth_slice. f_equal. lia.
Qed.

(** C2. For every record sequence and every positive [size], [chunk_data]
    returns batches that are the consecutive slices of [size] records, all of
    length [size] but possibly the last, each of length between 1 and [size],
    and whose concatenation is the sequence; the batch loop of the urban
    loader cuts the same way with [BATCH_SIZE]. *)
Theorem batches_partition_records {A} (data : list A) (size : nat) :
  0 < size →
  (∃ bs, chunk_data data size = Some bs ∧ partition_of size data bs)
  ∧ partition_of BATCH_SIZE data (urban_batches data).
Proof.
  intros Hs. split.
  - eexists. split; [by apply chunk_data_slices|by apply slices_partition].
  - rewrite urban_batches_slices. apply slices_partition. unfold BATCH_SIZE. lia.
Qed.

(** The theorem on five records cut by two. *)
Lemma batches_partition_records_witness :
  0 < 2
  ∧ ∃ bs, chunk_data [1; 2; 3; 4; 5] 2 = Some bs ∧ partition_of 2 [1; 2; 3; 4; 5] bs.
Proof.
  assert (H : 0 < 2) by lia.
  split; [exact H|].
  exact (proj1 (batches_partition_records [1; 2; 3; 4; 5] 2 H)).
Defined.

Example chunk_five_by_two :
  chunk_data [1; 2; 3; 4; 5] 2 = Some [[1; 2]; [3; 4]; [5]]
  ∧ chunk_data [1; 2; 3; 4] 2 = Some [[1; 2]; [3; 4]]
  ∧ chunk_data (@nil nat) 2 = Some []
  ∧ chunk_data [1; 2; 3] 0 = None.
Proof. repeat split. Qed.

Example urban_batches_of_450 :
  length <$> urban_batches (replicate 450 tt) = [200; 200; 50].
Proof. vm_compute. reflexivity. Qed.

End BatcherFacts.

(** ** Loaders: bounded retries, per-batch failure, full refresh *)

Module LoaderFacts.

Import Batcher Loader BatcherFacts.

Lemma three_attempts : py_range 0 3 1 = [0; 1; 2].
Proof. reflexivity. Qed.

Lemma calls_for_app (i : nat) (l1 l2 : list Event) :
  calls_for i (l1 ++ l2) = calls_for i l1 ++ calls_for i l2.
Proof. unfold calls_for. apply omap_app. Qed.

Lemma calls_for_insert (i j a : nat) :
  calls_for i [EvInsert j a] = if decide (j = i) then [a] else [].
Proof. unfold calls_for. cbn. by destruct (decide (j = i)). Qed.

#[local] Arguments calls_for : simpl never.
#[local] Arguments credited : simpl never.

Lemma attempts_made_all_lost failed rm i attempts :
  (∀ a, failed (insert_outcome rm i a) = true) →
  attempts_made failed rm i attempts = attempts.
Proof.
  intros Hall. induction attempts as [|a rest IH]; [done|].
  cbn. by rewrite Hall, IH.
Qed.

Lemma attempts_made_bound failed rm i attempts :
  length (attempts_made failed rm i attempts) ≤ length attempts.
Proof.
  induction attempts as [|a rest IH]; cbn; [lia|].
  destruct (failed _); cbn; lia.
Qed.

Lemma always_fails_lost rm i :
  always_fails rm i → ∀ a, p_failed (insert_outcome rm i a) = true.
Proof.
  intros Hf a. specialize (Hf a). by destruct (insert_outcome rm i a).
Qed.

Lemma always_raises_lost rm i :
  always_raises rm i → ∀ a, u_failed (insert_outcome rm i a) = true.
Proof. intros Hf a. by rewrite Hf. Qed.

Lemma credited_false failed rm i :
  (∀ a, failed (insert_outcome rm i a) = true) → credited failed rm i = false.
Proof. intros Hall. unfold credited. cbn. by rewrite !Hall. Qed.

(** *** The churn loader *)

(** The calls of one batch: those of the attempts made, for that batch only. *)
Lemma insert_attempts_calls rm i batch attempts st j :
  calls_for j (p_log (insert_attempts rm i batch attempts st))
  = calls_for j (p_log st)
    ++ (if decide (i = j) then attempts_made p_failed rm i attempts else []).
Proof.
  revert st. induction attempts as [|a rest IH]; intros st; cbn.
  - destruct (decide (i = j)); by rewrite app_nil_r.
  - destruct (insert_outcome rm i a) eqn:Ho; cbn.
    + rewrite !calls_for_app, calls_for_insert.
      destruct (decide (i = j)); cbn; by rewrite ?app_nil_r.
    + rewrite IH. cbn. rewrite !calls_for_app, calls_for_insert.
      destruct (decide (i = j)); cbn; by rewrite ?app_nil_r, <- ?app_assoc.
    + rewrite IH. cbn. rewrite !calls_for_app, calls_for_insert.
      destruct (decide (i = j)); cbn; by rewrite ?app_nil_r, <- ?app_assoc.
Qed.

(** The rows and the credit of one batch: all or nothing. *)
Lemma insert_attempts_rows rm i batch attempts st :
  let hit := existsb (fun a => negb (p_failed (insert_outcome rm i a))) attempts in
  let st' := insert_attempts rm i batch attempts st in
  p_table st' = p_table st ++ (if hit then batch else [])
  ∧ p_success_count st' = p_success_count st + length (if hit then batch else []).
Proof.
  revert st. induction attempts as [|a rest IH]; intros st; cbn.
  - rewrite app_nil_r. split; [done|lia].
  - destruct (insert_outcome rm i a) eqn:Ho; cbn; [done| |].
    + destruct (IH (p_emit (EvSleep 2)
                      (p_emit (EvRetryFailed i (a + 1)) (p_emit (EvInsert i a) st))))
        as [Ht Hc].
      cbn in Ht, Hc. by rewrite Ht, Hc.
    + destruct (IH (p_emit (EvSleep 2)
                      (p_emit (EvRetryFailed i (a + 1)) (p_emit (EvInsert i a) st))))
        as [Ht Hc].
      cbn in Ht, Hc. by rewrite Ht, Hc.
Qed.

Lemma load_batches_rows rm i batches st :
  let st' := load_batches rm i batches st in
  p_table st' = p_table st ++ credited_rows p_failed rm i batches
  ∧ p_success_count st'
    = p_success_count st + length (credited_rows p_failed rm i batches).
Proof.
  revert i st. induction batches as [|b rest IH]; intros i st;
    cbn [load_batches credited_rows length].
  - rewrite app_nil_r. split; [done|lia].
  - destruct (IH (S i) (insert_attempts rm i b (py_range 0 3 1) st)) as [Ht Hc].
    destruct (insert_attempts_rows rm i b (py_range 0 3 1) st) as [Ht1 Hc1].
    cbv zeta in Ht, Hc, Ht1, Hc1. rewrite three_attempts in *.
    fold (credited p_failed rm i) in Ht1, Hc1.
    rewrite Ht, Hc, Ht1, Hc1, length_app, <- app_assoc. split; [done|lia].
Qed.

Lemma load_batches_calls_before rm i batches st j :
  j < i →
  calls_for j (p_log (load_batches rm i batches st)) = calls_for j (p_log st).
Proof.
  revert i st. induction batches as [|b rest IH]; intros i st Hlt;
    cbn [load_batches]; [done|].
  rewrite IH by lia. rewrite insert_attempts_calls.
  destruct (decide (i = j)); [lia|]. by rewrite app_nil_r.
Qed.

Lemma load_batches_calls_at rm i batches st k b :
  batches !! k = Some b →
  calls_for (i + k) (p_log (load_batches rm i batches st))
  = calls_for (i + k) (p_log st) ++ attempts_made p_failed rm (i + k) [0; 1; 2].
Proof.
  revert i st k. induction batches as [|b0 rest IH]; intros i st k Hk; [done|].
  destruct k as [|k]; cbn [load_batches].
  - rewrite Nat.add_0_r. rewrite load_batches_calls_before by lia.
    rewrite insert_attempts_calls, three_attempts.
    by destruct (decide (i = i)).
  - cbn in Hk. replace (i + S k) with (S i + k) by lia.
    rewrite (IH (S i) _ k Hk). rewrite insert_attempts_calls.
    destruct (decide (i = S i + k)); [lia|]. by rewrite app_nil_r.
Qed.

(** *** The urban loader *)

Ltac calls_leaf i j :=
  rewrite ?calls_for_app; unfold calls_for; cbn;
  destruct (decide (i = j)); cbn; rewrite ?app_nil_r, <- ?app_assoc; done.

(** [insert_batch] always returns: three units of fuel are enough.  It
    answers whether the batch is credited, and calls the store for the
    attempts made and for this batch only. *)
Lemma insert_batch_returns {A} rm i (batch : list A) st :
  ∃ st', insert_batch rm i batch st = Some (credited u_failed rm i, st')
    ∧ (∀ j, calls_for j (u_log st')
            = calls_for j (u_log st)
              ++ (if decide (i = j) then attempts_made u_failed rm i [0; 1; 2] else []))
    ∧ u_success_count st' = u_success_count st
    ∧ u_fail_count st' = u_fail_count st
    ∧ (credited u_failed rm i = false → u_table st' = u_table st).
Proof.
  unfold insert_batch, credited. cbn.
  destruct (insert_outcome rm i 0); cbn;
    [eexists; split; [reflexivity|]; cbn; repeat split; try done;
     intros j; calls_leaf i j ..|].
  destruct (insert_outcome rm i 1); cbn;
    [eexists; split; [reflexivity|]; cbn; repeat split; try done;
     intros j; calls_leaf i j ..|].
  destruct (insert_outcome rm i 2); cbn;
    eexists; (split; [reflexivity|]); cbn; repeat split; try done;
    intros j; calls_leaf i j.
Qed.

Lemma urban_step_returns {A} rm n i (batch : list A) st :
  ∃ st', urban_step rm n i batch st = Some st'
    ∧ (∀ j, calls_for j (u_log st')
            = calls_for j (u_log st)
              ++ (if decide (i = j) then attempts_made u_failed rm i [0; 1; 2] else []))
    ∧ u_success_count st'
      = u_success_count st + length (if credited u_failed rm i then batch else [])
    ∧ u_fail_count st'
      = u_fail_count st + length (if credited u_failed rm i then [] else batch)
    ∧ (credited u_failed rm i = false → u_table st' = u_table st).
Proof.
  unfold urban_step.
  destruct (insert_batch_returns rm i batch
              (u_emit (EvInserting (i + 1) n (length batch)) st))
    as (st1 & -> & Hcalls & Hs & Hf & Ht).
  destruct (credited u_failed rm i); cbn; eexists; (split; [reflexivity|]); cbn;
    rewrite ?Hs, ?Hf; (repeat split; try done; try lia);
    try (intros j; rewrite Hcalls; cbn; rewrite calls_for_app;
         unfold calls_for at 2; cbn; by rewrite app_nil_r).
Qed.

Lemma urban_loop_returns {A} rm n i (bs : list (list A)) st :
  ∃ st', urban_loop rm n i bs st = Some st'
    ∧ u_success_count st'
      = u_success_count st + length (credited_rows u_failed rm i bs)
    ∧ u_fail_count st'
      = u_fail_count st + length (uncredited_rows u_failed rm i bs)
    ∧ (∀ j, j < i → calls_for j (u_log st') = calls_for j (u_log st))
    ∧ (∀ k b, bs !! k = Some b →
         calls_for (i + k) (u_log st')
         = calls_for (i + k) (u_log st) ++ attempts_made u_failed rm (i + k) [0; 1; 2]).
Proof.
  revert i st. induction bs as [|b rest IH]; intros i st;
    cbn [urban_loop credited_rows uncredited_rows].
  - eexists; split; [reflexivity|]. cbn. repeat split; try lia; done.
  - destruct (urban_step_returns rm n i b st) as (st1 & -> & Hc1 & Hs1 & Hf1 & _).
    cbn [mbind option_bind].
    destruct (IH (S i) st1) as (st2 & -> & Hs2 & Hf2 & Hlt2 & Hat2).
    eexists; split; [reflexivity|].
    rewrite Hs2, Hf2, Hs1, Hf1, !length_app. repeat split; try lia.
    + intros j Hj. rewrite Hlt2 by lia. rewrite Hc1.
      destruct (decide (i = j)); [lia|]. by rewrite app_nil_r.
    + intros [|k] b' Hk.
      * rewrite Nat.add_0_r, Hlt2 by lia. rewrite Hc1.
        by destruct (decide (i = i)).
      * cbn in Hk. replace (i + S k) with (S i + k) by lia.
        rewrite (Hat2 k b' Hk), Hc1.
        destruct (decide (i = S i + k)); [lia|]. by rewrite app_nil_r.
Qed.

(** Credited and uncredited rows split the batches. *)
Lemma credit_split {A} failed rm i (bs : list (list A)) :
  length (credited_rows failed rm i bs) + length (uncredited_rows failed rm i bs)
  = length (concat bs).
Proof.
  revert i. induction bs as [|b rest IH]; intros i; cbn; [done|].
  rewrite !length_app. specialize (IH (S i)).
  destruct (credited failed rm i); cbn; lia.
Qed.

Lemma credited_rows_from {A} failed rm i (bs : list (list A)) r :
  r ∈ credited_rows failed rm i bs → r ∈ concat bs.
Proof.
  revert i. induction bs as [|b rest IH]; intros i; cbn; [done|].
  rewrite !elem_of_app. intros [Hr|Hr].
  - left. by destruct (credited failed rm i); [|apply elem_of_nil in Hr].
  - right. by eapply IH.
Qed.

(** *** Full refresh *)




(** The table a completed run leaves: the rows the delete does not reach,
    then the rows of the credited batches, which are the rows counted. *)
Lemma load_data_table rm records table0 bs :
  delete_raises rm = false →
  chunk_data records 200 = Some bs →
  ∃ st, load_data rm records table0 = Completed st
    ∧ p_table st = delete_neq table0 ++ credited_rows p_failed rm 1 bs
    ∧ p_success_count st = length (credited_rows p_failed rm 1 bs).
Proof.
  intros Hd Hbs. unfold load_data. rewrite Hd, Hbs. cbn [default]. unfold id.
  eexists; split; [reflexivity|]. cbn [p_emit p_table p_success_count].
  match goal with |- context [load_batches rm 1 bs ?s] =>
    destruct (load_batches_rows rm 1 bs s) as [Ht Hc] end.
  cbv zeta in Ht, Hc. by rewrite Ht, Hc.
Qed.

Lemma load_data_calls rm records table0 bs k b :
  delete_raises rm = false →
  chunk_data records 200 = Some bs →
  bs !! k = Some b →
  ∃ st, load_data rm records table0 = Completed st
    ∧ calls_for (S k) (p_log st) = attempts_made p_failed rm (S k) [0; 1; 2].
Proof.
  intros Hd Hbs Hk. unfold load_data. rewrite Hd, Hbs. cbn [default]. unfold id.
  eexists; split; [reflexivity|]. cbn [p_emit p_log].
  rewrite calls_for_app. change (S k) with (1 + k).
  rewrite (load_batches_calls_at rm 1 bs _ k b Hk).
  unfold calls_for. cbn. by rewrite app_nil_r.
Qed.

Lemma first_attempt_made failed rm i : 0 ∈ attempts_made failed rm i [0; 1; 2].
Proof. cbn. apply elem_of_cons. by left. Qed.

(** The counts of a completed urban run. *)
Lemma urban_load_returns {A} rm (records table0 : list A) :
  ∃ st, urban_load rm records table0 = Some st
    ∧ u_success_count st = length (credited_rows u_failed rm 0 (urban_batches records))
    ∧ u_fail_count st = length (uncredited_rows u_failed rm 0 (urban_batches records))
    ∧ u_success_count st + u_fail_count st = length records
    ∧ (∀ k b, urban_batches records !! k = Some b →
         calls_for k (u_log st) = attempts_made u_failed rm k [0; 1; 2]).
Proof.
  unfold urban_load.
  match goal with |- context [urban_loop rm ?n 0 ?bs ?s] =>
    destruct (urban_loop_returns rm n 0 bs s) as (st & -> & Hs & Hf & _ & Hat) end.
  cbn [u_success_count u_fail_count] in Hs, Hf. rewrite Nat.add_0_l in Hs, Hf.
  eexists; split; [reflexivity|]. cbn [mbind option_bind u_emit
    u_success_count u_fail_count u_log].
  split; [done|]. split; [done|]. split.
  - rewrite Hs, Hf, credit_split.
    pose proof (slices_partition BATCH_SIZE records ltac:(unfold BATCH_SIZE; lia)) as Hp.
    rewrite <- urban_batches_slices in Hp. by rewrite (part_concat _ _ _ Hp).
  - intros k b Hk. rewrite calls_for_app. specialize (Hat k b Hk). cbn in Hat.
    rewrite Hat. unfold calls_for. cbn. by rewrite app_nil_r.
Qed.

(** C1, as the loaders have it.  A batch whose insert fails at every attempt
    is sent three times, neither more nor less (the bound is the constant of
    each script: [range(3)], and [RETRY_LIMIT + 1]); it leaves the table and
    the success count as they were, the urban loader adding its rows to
    [fail_count]; and the run goes on: whatever the store answers, a run whose
    delete did not raise completes and sends every batch at least once.
    Neither loader keeps a list of the batches that failed. *)
Theorem failing_batch_retried_then_skipped (rm : Remote) :
  (∀ i batch st, always_fails rm i →
     let st' := insert_attempts rm i batch (py_range 0 3 1) st in
     calls_for i (p_log st') = calls_for i (p_log st) ++ [0; 1; 2]
     ∧ p_success_count st' = p_success_count st
     ∧ p_table st' = p_table st)
  ∧ (∀ records table0 bs,
       delete_raises rm = false →
       chunk_data records 200 = Some bs →
       ∃ st, load_data rm records table0 = Completed st
         ∧ p_success_count st = length (credited_rows p_failed rm 1 bs)
         ∧ ∀ k b, bs !! k = Some b →
             0 ∈ calls_for (S k) (p_log st)
             ∧ (always_fails rm (S k) →
                calls_for (S k) (p_log st) = [0; 1; 2]
                ∧ credited p_failed rm (S k) = false))
  ∧ (∀ A i (batch : list A) st, always_raises rm i →
       ∃ st', insert_batch rm i batch st = Some (false, st')
         ∧ calls_for i (u_log st') = calls_for i (u_log st) ++ [0; 1; 2]
         ∧ u_table st' = u_table st)
  ∧ (∀ A n i (batch : list A) st, always_raises rm i →
       ∃ st', urban_step rm n i batch st = Some st'
         ∧ u_success_count st' = u_success_count st
         ∧ u_fail_count st' = u_fail_count st + length batch
         ∧ u_table st' = u_table st)
  ∧ (∀ A (records table0 : list A),
       ∃ st, urban_load rm records table0 = Some st
         ∧ u_success_count st
           = length (credited_rows u_failed rm 0 (urban_batches records))
         ∧ u_fail_count st
           = length (uncredited_rows u_failed rm 0 (urban_batches records))
         ∧ u_success_count st + u_fail_count st = length records
         ∧ ∀ k b, urban_batches records !! k = Some b →
             0 ∈ calls_for k (u_log st)
             ∧ (always_raises rm k →
                calls_for k (u_log st) = [0; 1; 2]
                ∧ credited u_failed rm k = false)).
Proof.
  split; [|split; [|split; [|split]]].
  - intros i batch st Hf. cbv zeta.
    pose proof (always_fails_lost rm i Hf) as Hlost.
    rewrite insert_attempts_calls. destruct (decide (i = i)); [|done].
    rewrite (attempts_made_all_lost _ _ _ _ Hlost), three_attempts.
    destruct (insert_attempts_rows rm i batch [0; 1; 2] st) as [Ht Hc].
    cbv zeta in Ht, Hc. fold (credited p_failed rm i) in Ht, Hc.
    rewrite (credited_false _ _ _ Hlost) in Ht, Hc. cbn [length] in Ht, Hc.
    rewrite app_nil_r in Ht. rewrite Nat.add_0_r in Hc. done.
  - intros records table0 bs Hd Hbs.
    destruct (load_data_table rm records table0 bs Hd Hbs) as (st & Hst & _ & Hc).
    exists st. split; [done|]. split; [done|].
    intros k b Hk.
    destruct (load_data_calls rm records table0 bs k b Hd Hbs Hk) as (st' & Hst' & Hcalls).
    rewrite Hst in Hst'. injection Hst' as <-. rewrite Hcalls.
    split; [apply first_attempt_made|].
    intros Hf. pose proof (always_fails_lost rm _ Hf) as Hlost.
    by rewrite (attempts_made_all_lost _ _ _ _ Hlost), (credited_false _ _ _ Hlost).
  - intros A i batch st Hr.
    pose proof (always_raises_lost rm i Hr) as Hlost.
    destruct (insert_batch_returns rm i batch st) as (st' & Hst' & Hcalls & _ & _ & Ht).
    rewrite (credited_false _ _ _ Hlost) in Hst', Ht.
    exists st'. split; [done|]. split; [|by apply Ht].
    rewrite Hcalls. destruct (decide (i = i)); [|done].
    by rewrite (attempts_made_all_lost _ _ _ _ Hlost).
  - intros A n i batch st Hr.
    pose proof (always_raises_lost rm i Hr) as Hlost.
    destruct (urban_step_returns rm n i batch st) as (st' & Hst' & _ & Hs & Hf & Ht).
    rewrite (credited_false _ _ _ Hlost) in Hs, Hf, Ht.
    exists st'. split; [done|]. cbn [length] in Hs. rewrite Nat.add_0_r in Hs.
    split; [done|]. split; [done|]. by apply Ht.
  - intros A records table0.
    destruct (urban_load_returns rm records table0) as (st & Hst & Hs & Hf & Hsum & Hat).
    exists st. repeat (split; [done|]).
    intros k b Hk. rewrite (Hat k b Hk).
    split; [apply first_attempt_made|].
    intros Hr. pose proof (always_raises_lost rm _ Hr) as Hlost.
    by rewrite (attempts_made_all_lost _ _ _ _ Hlost), (credited_false _ _ _ Hlost).
Qed.

(** The theorem at a store that raises for batch 1 only, on a batch of one row. *)
Lemma failing_batch_retried_then_skipped_witness :
  always_fails (fails_only 1) 1
  ∧ calls_for 1 (p_log (insert_attempts (fails_only 1) 1 [sample_record]
                          (py_range 0 3 1)
                          {| p_table := []; p_success_count := 0; p_log := [] |}))
    = [0; 1; 2].
Proof.
  assert (Hf : always_fails (fails_only 1) 1) by (intros a; cbn; discriminate).
  split; [exact Hf|].
  destruct (failing_batch_retried_then_skipped (fails_only 1)) as [H _].
  destruct (H 1 [sample_record]
              {| p_table := []; p_success_count := 0; p_log := [] |} Hf)
    as [Hcalls _].
  exact Hcalls.
Defined.

(** What each run reports at its end is a number of rows (and, for the urban
    loader, a second one): two runs on the same four hundred rows, one losing
    the first batch and one the second, report the same, so that no list of
    failed batches can be read from a report. *)
Lemma report_has_no_failed_list :
  ¬ (∃ failed_list : option nat → list nat,
       ∀ rm i, i ∈ failed_list (load_report (load_data rm two_batches []))
               ↔ i ∈ [1; 2] ∧ always_fails rm i)
  ∧ ¬ (∃ failed_list : option (nat * nat) → list nat,
         ∀ rm i, i ∈ failed_list (urban_report (urban_load rm two_batches []))
                 ↔ i ∈ [0; 1] ∧ always_raises rm i).
Proof.
  split.
  - intros [f Hf].
    assert (H1 : load_report (load_data (fails_only 1) two_batches []) = Some 200)
      by (vm_compute; reflexivity).
    assert (H2 : load_report (load_data (fails_only 2) two_batches []) = Some 200)
      by (vm_compute; reflexivity).
    pose proof (Hf (fails_only 1) 1) as Ha. rewrite H1 in Ha.
    pose proof (Hf (fails_only 2) 1) as Hb. rewrite H2 in Hb.
    assert (Hin : 1 ∈ f (Some 200)).
    { apply Ha. split; [apply elem_of_cons; by left|]. intros a. cbn. discriminate. }
    apply Hb in Hin as [_ Hall]. by apply (Hall 0).
  - intros [f Hf].
    assert (H1 : urban_report (urban_load (fails_only 0) two_batches [])
                 = Some (200, 200)) by (vm_compute; reflexivity).
    assert (H2 : urban_report (urban_load (fails_only 1) two_batches [])
                 = Some (200, 200)) by (vm_compute; reflexivity).
    pose proof (Hf (fails_only 0) 0) as Ha. rewrite H1 in Ha.
    pose proof (Hf (fails_only 1) 0) as Hb. rewrite H2 in Hb.
    assert (Hin : 0 ∈ f (Some (200, 200))).
    { apply Ha. split; [apply elem_of_cons; by left|]. intros a. by cbn. }
    apply Hb in Hin as [_ Hall]. specialize (Hall 0). by cbn in Hall.
Qed.

(** *** Full refresh *)




(** Nor does the clear make the count independent of the store: a second run
    whose inserts all raise clears the row of the first and adds none. *)
Example refresh_against_failing_store :
  ∃ st1 st2,
    load_data accepts_all [sample_record] [] = Completed st1
    ∧ load_data (fails_only 1) [sample_record] (p_table st1) = Completed st2
    ∧ length (p_table st1) = 1 ∧ length (p_table st2) = 0.
Proof. do 2 eexists. repeat split. Qed.

End LoaderFacts.

(** ** Order facts on float cells *)

Module PyNumFacts.

Local Open Scope Q_scope.

Lemma Qlt_bool_iff (a b : Q) : Qlt_bool a b = true ↔ a < b.
Proof.
  unfold Qlt_bool. rewrite negb_true_iff. split.
  - intros H. apply Qnot_le_lt. intros Hle. apply Qle_bool_iff in Hle. congruence.
  - intros H. destruct (Qle_bool b a) eqn:Hb; [|done].
    apply Qle_bool_iff in Hb. by apply Qlt_not_le in H.
Qed.

Lemma Qle_bool_false (a b : Q) : Qle_bool a b = false ↔ b < a.
Proof.
  rewrite <- Qlt_bool_iff. unfold Qlt_bool. by rewrite negb_true_iff.
Qed.

Lemma le_fin (a b : Q) : le (Fin a) (Fin b) = true ↔ a <= b.
Proof. apply Qle_bool_iff. Qed.

Lemma le_fin_false (a b : Q) : le (Fin a) (Fin b) = false ↔ b < a.
Proof. apply Qle_bool_false. Qed.

Lemma gt_fin (a b : Q) : gt (Fin a) (Fin b) = true ↔ b < a.
Proof. apply Qlt_bool_iff. Qed.

Lemma le_of_Z_true (q : Q) (z : Z) : q <= inject_Z z → le (Fin q) (of_Z z) = true.
Proof. apply le_fin. Qed.

Lemma le_of_Z_false (q : Q) (z : Z) : inject_Z z < q → le (Fin q) (of_Z z) = false.
Proof. apply le_fin_false. Qed.

(** Every comparison with NaN is false. *)
Lemma le_nan_l x : le NaN x = false.
Proof. by destruct x. Qed.

Lemma gt_nan_l x : gt NaN x = false.
Proof. by destruct x. Qed.

Lemma gt_trans x y z : gt x y = true → gt y z = true → gt x z = true.
Proof.
  destruct x as [a| | |], y as [b| | |], z as [c| | |]; cbn; try done.
  rewrite !Qlt_bool_iff. intros H1 H2. by apply Qlt_trans with b.
Qed.

Lemma not_gt_gt x y z :
  isna x = false → gt y x = false → gt y z = true → gt x z = true.
Proof.
  destruct x as [a| | |], y as [b| | |], z as [c| | |]; cbn; try done.
  intros _ H1 H2. apply Qlt_bool_iff in H2. apply Qlt_bool_iff.
  apply Qlt_le_trans with b; [done|].
  apply Qnot_lt_le. intros Hlt. apply Qlt_bool_iff in Hlt. congruence.
Qed.

Lemma sgn_pos (a : Q) : sgn a = Lt ↔ 0 < a.
Proof. unfold sgn. symmetry. apply Qlt_alt. Qed.

Lemma sgn_zero (a : Q) : sgn a = Eq ↔ a == 0.
Proof. unfold sgn. rewrite <- Qeq_alt. split; intros H; by symmetry. Qed.

End PyNumFacts.

(** ** Logistics transform *)

Module LogisticFacts.

Import Logistic PyNumFacts.

(** *** Delay classes *)

Lemma classify_delay_fin (q : Q) :
  ((q <= 0)%Q → classify_delay (Fin q) = Some "On-Time")
  ∧ ((0 < q)%Q ∧ (q <= 60)%Q → classify_delay (Fin q) = Some "Slight Delay")
  ∧ ((60 < q)%Q ∧ (q <= 180)%Q → classify_delay (Fin q) = Some "Major Delay")
  ∧ ((180 < q)%Q → classify_delay (Fin q) = Some "Critical Delay").
Proof.
  unfold classify_delay. repeat split.
  - intros H. by rewrite (le_of_Z_true q 0 H).
  - intros [H0 H1].
    by rewrite (le_of_Z_false q 0 H0), (le_of_Z_true q 60 H1).
  - intros [H0 H1].
    assert (0 < q)%Q as Hpos by (by apply Qlt_trans with (inject_Z 60)).
    by rewrite (le_of_Z_false q 0 Hpos), (le_of_Z_false q 60 H0),
         (le_of_Z_true q 180 H1).
  - intros H.
    assert (60 < q)%Q as H60 by (by apply Qlt_trans with (inject_Z 180)).
    assert (0 < q)%Q as Hpos by (by apply Qlt_trans with (inject_Z 60)).
    by rewrite (le_of_Z_false q 0 Hpos), (le_of_Z_false q 60 H60),
         (le_of_Z_false q 180 H).
Qed.

(** C3. The delay classes at the points of the spec: 0 is on time, 60 a
    slight delay, 60.01 a major delay, 500 a critical delay; a value on a cut
    point (0, 60 or 180, in any representation) falls in the class below the
    cut, the bounds being inclusive above. *)
Theorem classify_delay_boundaries :
  classify_delay (of_Z 0) = Some "On-Time"
  ∧ classify_delay (of_Z 60) = Some "Slight Delay"
  ∧ classify_delay (Fin (6001 # 100)) = Some "Major Delay"
  ∧ classify_delay (of_Z 500) = Some "Critical Delay"
  ∧ ∀ q : Q,
      ((q == 0)%Q → classify_delay (Fin q) = Some "On-Time")
      ∧ ((q == 60)%Q → classify_delay (Fin q) = Some "Slight Delay")
      ∧ ((q == 180)%Q → classify_delay (Fin q) = Some "Major Delay").
Proof.
  repeat (split; [reflexivity|]).
  intros q. destruct (classify_delay_fin q) as (H0 & H60 & H180 & _).
  repeat split; intros Hq.
  - apply H0. by rewrite Hq.
  - apply H60. by rewrite Hq.
  - apply H180. by rewrite Hq.
Qed.

(** The cut at sixty minutes, written as 120/2. *)
Lemma classify_delay_boundaries_witness :
  (120 # 2 == 60)%Q ∧ classify_delay (Fin (120 # 2)) = Some "Slight Delay".
Proof.
  assert (H : (120 # 2 == 60)%Q) by reflexivity.
  split; [exact H|].
  destruct classify_delay_boundaries as (_ & _ & _ & _ & Hcut).
  destruct (Hcut (120 # 2)) as (_ & H60 & _).
  exact (H60 H).
Defined.

(** *** Cleaning *)

Lemma filter_filter_andb {A} (f g : A → bool) (l : list A) :
  List.filter g (List.filter f l) = List.filter (fun x => f x && g x) l.
Proof.
  induction l as [|x l IH]; cbn; [done|].
  destruct (f x); cbn; [|done]. destruct (g x); by rewrite IH.
Qed.

Lemma elem_of_filter {A} (f : A → bool) (l : list A) (x : A) :
  x ∈ List.filter f l ↔ x ∈ l ∧ f x = true.
Proof. rewrite !list_elem_of_In. apply List.filter_In. Qed.

Lemma with_weight_same (d : delivery) : with_weight d (package_weight d) = d.
Proof. by destruct d. Qed.

(** The cleaned frame: the parsed rows that pass both tests, in order, with
    at most their weights rescaled. *)
Lemma clean_deliveries_shape td raw :
  ∃ f : num → num,
    clean_deliveries td raw
    = (fun d => with_weight d (f (package_weight d)))
        <$> List.filter keeps (parse_delivery td <$> raw).
Proof.
  unfold clean_deliveries, normalize_weight. rewrite filter_filter_andb.
  fold keeps. destruct (gt _ _).
  - by exists (fun w => div w (of_Z 1000)).
  - exists (fun w => w). induction (List.filter keeps _) as [|d l IH]; [done|].
    cbn. by rewrite with_weight_same, <- IH.
Qed.

Lemma delay_minutes_nonneg (d : delivery) (a e : Z) :
  actual_delivery_time d = Some a →
  expected_delivery_time d = Some e →
  (e ≤ a)%Z →
  ∃ q, delay_minutes_of d = Fin q ∧ (0 <= q)%Q.
Proof.
  intros Ha He Hle. unfold delay_minutes_of. rewrite Ha, He.
  unfold total_seconds, div, of_Z.
  replace (sgn (inject_Z 60)) with Lt by reflexivity.
  eexists. split; [reflexivity|].
  apply Qle_shift_div_l; [reflexivity|]. rewrite Qmult_0_l.
  apply Qle_shift_div_l; [reflexivity|]. rewrite Qmult_0_l.
  change 0%Q with (inject_Z 0). rewrite <- Zle_Qle. lia.
Qed.

Lemma keeps_times (d : delivery) :
  keeps d = true →
  is_Some (dispatch_time d)
  ∧ ∃ a e, actual_delivery_time d = Some a
           ∧ expected_delivery_time d = Some e ∧ (e ≤ a)%Z.
Proof.
  unfold keeps, times_present, actual_ge_expected.
  destruct (dispatch_time d), (expected_delivery_time d),
    (actual_delivery_time d); cbn; try done.
  intros H. split; [by eexists|]. do 2 eexists. repeat split. lia.
Qed.

(** A cleaned row comes from a raw row that passes both tests, and keeps its
    times. *)
Lemma clean_deliveries_elem td raw d :
  d ∈ clean_deliveries td raw →
  is_Some (dispatch_time d)
  ∧ (∃ a e, actual_delivery_time d = Some a
            ∧ expected_delivery_time d = Some e ∧ (e ≤ a)%Z)
  ∧ (∃ q, delay_minutes_of d = Fin q ∧ (0 <= q)%Q)
  ∧ ∃ r, r ∈ raw
         ∧ keeps (parse_delivery td r) = true
         ∧ shipment_id d = raw_shipment_id r
         ∧ dispatch_time d = coerce_time td (raw_dispatch_time r)
         ∧ expected_delivery_time d = coerce_time td (raw_expected_delivery_time r)
         ∧ actual_delivery_time d = coerce_time td (raw_actual_delivery_time r).
Proof.
  destruct (clean_deliveries_shape td raw) as [f Hf].
  intros Hd. rewrite Hf in Hd.
  apply list_elem_of_fmap in Hd as (d0 & -> & Hd0).
  apply elem_of_filter in Hd0 as [Hin Hk].
  apply list_elem_of_fmap in Hin as (r & -> & Hr).
  destruct (keeps_times _ Hk) as (Hdisp & a & e & Ha & He & Hle).
  split; [done|]. split; [by exists a, e|].
  split; [by apply (delay_minutes_nonneg _ a e)|].
  exists r. by repeat split.
Qed.

(** C7. The cleaned deliveries are the parsed rows with the three times
    present and the actual time not before the expected one, in their order,
    nothing else touched than the weight; so every cleaned record has its three
    times, actual at or after expected, and a delay in minutes that is a
    number and is not negative; a row failing the test is not in the result. *)
Theorem cleaned_deliveries_valid td raw :
  (∃ f : num → num,
     clean_deliveries td raw
     = (fun d => with_weight d (f (package_weight d)))
         <$> List.filter keeps (parse_delivery td <$> raw))
  ∧ length (clean_deliveries td raw)
    = length (List.filter keeps (parse_delivery td <$> raw))
  ∧ ∀ d, d ∈ clean_deliveries td raw →
      is_Some (dispatch_time d)
      ∧ (∃ a e, actual_delivery_time d = Some a
                ∧ expected_delivery_time d = Some e ∧ (e ≤ a)%Z)
      ∧ (∃ q, delay_minutes_of d = Fin q ∧ (0 <= q)%Q)
      ∧ ∃ r, r ∈ raw
             ∧ keeps (parse_delivery td r) = true
             ∧ shipment_id d = raw_shipment_id r
             ∧ dispatch_time d = coerce_time td (raw_dispatch_time r)
             ∧ expected_delivery_time d = coerce_time td (raw_expected_delivery_time r)
             ∧ actual_delivery_time d = coerce_time td (raw_actual_delivery_time r).
Proof.
  destruct (clean_deliveries_shape td raw) as [f Hf].
  split; [by exists f|]. split; [by rewrite Hf, length_fmap|].
  intros d Hd. by apply clean_deliveries_elem.
Qed.

(** The theorem on the four sample rows: the late delivery is kept. *)
Lemma cleaned_deliveries_valid_witness :
  ∃ d, d ∈ clean_deliveries sample_to_datetime sample_raw
       ∧ shipment_id d = "S2"
       ∧ ∃ q, delay_minutes_of d = Fin q ∧ (0 <= q)%Q.
Proof.
  destruct (cleaned_deliveries_valid sample_to_datetime sample_raw) as (_ & _ & H).
  assert (Hin : ∃ d, clean_deliveries sample_to_datetime sample_raw !! 1 = Some d
                     ∧ shipment_id d = "S2")
    by (vm_compute; eexists; split; reflexivity).
  destruct Hin as (d & Hd & Hid).
  assert (Hmem : d ∈ clean_deliveries sample_to_datetime sample_raw)
    by (apply list_elem_of_lookup; by exists 1).
  exists d. split; [exact Hmem|]. split; [exact Hid|].
  exact (proj1 (proj2 (proj2 (H d Hmem)))).
Defined.

(** The four sample rows: two are kept, and the kept ones are on time and
    ninety minutes late. *)
Example clean_sample :
  (shipment_id <$> clean_deliveries sample_to_datetime sample_raw) = ["S1"; "S2"]
  ∧ (delay_class ∘ score_delivery <$> clean_deliveries sample_to_datetime sample_raw)
    = [Some "On-Time"; Some "Major Delay"].
Proof. split; vm_compute; reflexivity. Qed.

(** *** Weights *)

Lemma fold_max_gt (rest : list num) (x c : num) :
  Forall (fun y => isna y = false) rest →
  isna x = false →
  gt (fold_left (fun m y => if gt y m then y else m) rest x) c = true
  ↔ gt x c = true ∨ ∃ y, y ∈ rest ∧ gt y c = true.
Proof.
  intros Hrest. revert x. induction Hrest as [|y rest Hy _ IH]; intros x Hx; cbn.
  - split; [by left|]. intros [H|(y & Hy & _)]; [done|]. by apply elem_of_nil in Hy.
  - destruct (gt y x) eqn:Hyx.
    + rewrite (IH y Hy). split.
      * intros [H|(z & Hz & Hgt)]; right.
        -- exists y. split; [apply elem_of_cons; by left|done].
        -- exists z. split; [apply elem_of_cons; by right|done].
      * intros [H|(z & Hz & Hgt)].
        -- left. by apply gt_trans with x.
        -- apply elem_of_cons in Hz as [->|Hz]; [by left|]. right. by exists z.
    + rewrite (IH x Hx). split.
      * intros [H|(z & Hz & Hgt)]; [by left|]. right.
        exists z. split; [apply elem_of_cons; by right|done].
      * intros [H|(z & Hz & Hgt)]; [by left|].
        apply elem_of_cons in Hz as [->|Hz].
        -- left. by apply not_gt_gt with y.
        -- right. by exists z.
Qed.

(** The column maximum exceeds [c] exactly when some cell does. *)
Lemma col_max_gt (col : list num) (c : num) :
  gt (col_max col) c = true ↔ ∃ w, w ∈ col ∧ gt w c = true.
Proof.
  unfold col_max.
  assert (Hall : Forall (fun y => isna y = false)
                   (List.filter (fun x => negb (isna x)) col)).
  { apply Forall_forall. intros y Hy. apply elem_of_filter in Hy as [_ Hy].
    by apply negb_true_iff. }
  assert (Hmem : ∀ w, gt w c = true →
                   (w ∈ col ↔ w ∈ List.filter (fun x => negb (isna x)) col)).
  { intros w Hw. rewrite elem_of_filter. split; [|by intros [? _]].
    intros Hin. split; [done|]. by destruct w. }
  destruct (List.filter (fun x => negb (isna x)) col) as [|x rest].
  - rewrite gt_nan_l. split; [done|]. intros (w & Hw & Hgt).
    apply (Hmem w Hgt) in Hw. by apply elem_of_nil in Hw.
  - apply Forall_cons in Hall as [Hx Hrest].
    rewrite (fold_max_gt rest x c Hrest Hx). split.
    + intros [H|(y & Hy & Hgt)].
      * exists x. split; [|done]. apply (Hmem x H), elem_of_cons. by left.
      * exists y. split; [|done]. apply (Hmem y Hgt), elem_of_cons. by right.
    + intros (w & Hw & Hgt). apply (Hmem w Hgt), elem_of_cons in Hw as [->|Hw].
      * by left.
      * right. by exists w.
Qed.

Lemma div_thousand (q : Q) : div (Fin q) (of_Z 1000) = Fin (q / inject_Z 1000).
Proof. reflexivity. Qed.

(** C9. The weights are divided by 1000 exactly when the maximum of the
    weight column of the rows kept by the cleaning exceeds 1000, which is when
    some weight does; the division then applies to the weight of every row,
    and to nothing else; otherwise the frame is left as it is. *)
Theorem weight_normalization (df : list delivery) :
  (gt (col_max (package_weight <$> df)) (of_Z 1000) = true
   ↔ ∃ d, d ∈ df ∧ gt (package_weight d) (of_Z 1000) = true)
  ∧ (gt (col_max (package_weight <$> df)) (of_Z 1000) = true →
       normalize_weight df
       = (fun d => with_weight d (div (package_weight d) (of_Z 1000))) <$> df
       ∧ (package_weight <$> normalize_weight df)
         = (fun w => div w (of_Z 1000)) <$> (package_weight <$> df)
       ∧ ∀ q, div (Fin q) (of_Z 1000) = Fin (q / inject_Z 1000))
  ∧ (gt (col_max (package_weight <$> df)) (of_Z 1000) = false →
       normalize_weight df = df)
  ∧ ∀ td raw,
      clean_deliveries td raw
      = normalize_weight (List.filter keeps (parse_delivery td <$> raw)).
Proof.
  split; [|split; [|split]].
  - rewrite col_max_gt. split.
    + intros (w & Hw & Hgt). apply list_elem_of_fmap in Hw as (d & -> & Hd).
      by exists d.
    + intros (d & Hd & Hgt). exists (package_weight d).
      split; [by apply list_elem_of_fmap_2|done].
  - intros H. unfold normalize_weight. rewrite H. split; [done|].
    split; [|exact div_thousand].
    rewrite <- !list_fmap_compose. by apply list_fmap_ext.
  - intros H. unfold normalize_weight. by rewrite H.
  - intros td raw. unfold clean_deliveries. by rewrite filter_filter_andb.
Qed.

(** The theorem on the kept sample rows, of weights 1200 and 800: both are
    divided; and on a frame with the weight 800 alone: it is left. *)
Lemma weight_normalization_witness :
  gt (col_max (package_weight <$> heavy_df)) (of_Z 1000) = true
  ∧ (package_weight <$> normalize_weight heavy_df)
    = (fun w => div w (of_Z 1000)) <$> (package_weight <$> heavy_df)
  ∧ gt (col_max (package_weight <$> light_df)) (of_Z 1000) = false
  ∧ normalize_weight light_df = light_df.
Proof.
  assert (Hh : gt (col_max (package_weight <$> heavy_df)) (of_Z 1000) = true)
    by reflexivity.
  assert (Hl : gt (col_max (package_weight <$> light_df)) (of_Z 1000) = false)
    by reflexivity.
  split; [exact Hh|].
  split; [exact (proj1 (proj2 (proj1 (proj2 (weight_normalization heavy_df)) Hh)))|].
  split; [exact Hl|].
  exact (proj1 (proj2 (proj2 (weight_normalization light_df))) Hl).
Defined.

Example normalize_sample :
  (package_weight <$> normalize_weight heavy_df)
  = [Fin (1200 # 1000); Fin (800 # 1000)]
  ∧ (package_weight <$> normalize_weight light_df) = [of_Z 800].
Proof. split; reflexivity. Qed.

(** *** The join and the derived scores *)

Lemma zip_rows_elem src dst cong speed ww t :
  t ∈ zip_rows src dst cong speed ww →
  tr_congestion_score t ∈ cong ∧ tr_avg_route_speed t ∈ speed.
Proof.
  revert dst cong speed ww.
  induction src as [|s src IH]; intros dst cong speed ww; cbn.
  { intros H. by apply elem_of_nil in H. }
  destruct dst as [|d dst], cong as [|c cong], speed as [|v speed], ww as [|w ww];
    try (intros H; by apply elem_of_nil in H).
  intros H. apply elem_of_cons in H as [->|H]; cbn.
  - split; apply elem_of_cons; by left.
  - destruct (IH _ _ _ _ H). split; apply elem_of_cons; by right.
Qed.

(** A row of the join: a delivery, with the columns of a traffic row of its
    route, or with null columns when the route has no traffic row. *)
Lemma merge_left_elem deliveries traffic m :
  m ∈ merge_left deliveries traffic →
  left_row m ∈ deliveries
  ∧ ((List.filter (same_route (left_row m)) traffic = []
      ∧ congestion_score m = NaN ∧ avg_route_speed m = NaN)
     ∨ ∃ t, t ∈ traffic ∧ same_route (left_row m) t = true
            ∧ congestion_score m = tr_congestion_score t
            ∧ avg_route_speed m = tr_avg_route_speed t).
Proof.
  unfold merge_left. intros H. apply list_elem_of_bind in H as (d & Hm & Hd).
  destruct (List.filter (same_route d) traffic) as [|t0 ts] eqn:Hf.
  - apply list_elem_of_singleton in Hm as ->. cbn. split; [done|]. left. by rewrite Hf.
  - apply list_elem_of_fmap in Hm as (t & -> & Ht). cbn. split; [done|]. right.
    rewrite <- Hf in Ht. apply elem_of_filter in Ht as [Ht Hs]. by exists t.
Qed.

Lemma impact_of_null_columns m :
  congestion_score m = NaN → traffic_impact_score m = NaN.
Proof. unfold traffic_impact_score. by intros ->. Qed.

(** A speed of zero is divided by all the same: the score is an infinity or
    NaN, and nothing is raised. *)
Lemma impact_of_zero_speed m q :
  avg_route_speed m = Fin q → (q == 0)%Q →
  is_finite (traffic_impact_score m) = false.
Proof.
  intros Hv Hq. unfold traffic_impact_score. rewrite Hv.
  unfold div, of_Z. rewrite (proj2 (sgn_zero q) Hq).
  replace (sgn (inject_Z 1)) with Lt by reflexivity.
  destruct (congestion_score m) as [a| | |]; cbn; try done.
  unfold mul_inf. by destruct (sgn a).
Qed.

(** C6, as the script has it.  A traffic column that is absent from the file
    is created with its constant (5 for the congestion score, 40 for the
    speed).  The join is a left join: a delivery whose route has no traffic
    row keeps null (NaN) traffic columns, and its traffic impact score is NaN.
    No formula raises: a speed of zero gives a score that is an infinity or
    NaN; and the divisor of the efficiency index, the delay plus one, is at
    least one on every row. *)
Theorem join_defaults_and_divisors td raw traffic :
  (t_congestion_score traffic = None →
     ∀ t, t ∈ ensure_columns traffic → tr_congestion_score t = of_Z 5)
  ∧ (t_avg_route_speed traffic = None →
       ∀ t, t ∈ ensure_columns traffic → tr_avg_route_speed t = of_Z 40)
  ∧ ∀ m, m ∈ transform td raw traffic →
      (List.filter (same_route (left_row m)) (ensure_columns traffic) = [] →
         congestion_score m = NaN ∧ avg_route_speed m = NaN
         ∧ traffic_impact_score m = NaN)
      ∧ (∀ q, avg_route_speed m = Fin q → (q == 0)%Q →
           is_finite (traffic_impact_score m) = false)
      ∧ ∃ q, add (delay_minutes (left_row m)) (of_Z 1) = Fin q ∧ (1 <= q)%Q.
Proof.
  split; [|split].
  - intros Hc t Ht. unfold ensure_columns in Ht. rewrite Hc in Ht.
    apply zip_rows_elem in Ht as [Ht _]. cbn in Ht.
    by apply elem_of_replicate in Ht as [-> _].
  - intros Hv t Ht. unfold ensure_columns in Ht. rewrite Hv in Ht.
    apply zip_rows_elem in Ht as [_ Ht]. cbn in Ht.
    by apply elem_of_replicate in Ht as [-> _].
  - intros m Hm. unfold transform in Hm.
    apply merge_left_elem in Hm as [Hleft Hcols].
    split; [|split].
    + intros Hnone. destruct Hcols as [(_ & Hc & Hv)|(t & Ht & Hs & _)].
      * by rewrite (impact_of_null_columns m Hc).
      * assert (Hin : t ∈ List.filter (same_route (left_row m)) (ensure_columns traffic))
          by (by apply elem_of_filter).
        rewrite Hnone in Hin. by apply elem_of_nil in Hin.
    + apply impact_of_zero_speed.
    + apply list_elem_of_fmap in Hleft as (d & -> & Hd).
      destruct (clean_deliveries_elem td raw d Hd) as (_ & _ & (q & Hq & Hpos) & _).
      exists (q + 1)%Q. cbn [score_delivery delay_minutes]. rewrite Hq.
      split; [reflexivity|]. change (inject_Z 1) with 1%Q. lra.
Qed.

(** The theorem on the sample files: the delivery from Pune to Mumbai has no
    traffic row. *)
Lemma join_defaults_and_divisors_witness :
  ∃ m, m ∈ transform sample_to_datetime sample_raw sample_traffic
       ∧ List.filter (same_route (left_row m)) (ensure_columns sample_traffic) = []
       ∧ traffic_impact_score m = NaN.
Proof.
  destruct (join_defaults_and_divisors sample_to_datetime sample_raw sample_traffic)
    as (_ & _ & H).
  assert (Hin : ∃ m, transform sample_to_datetime sample_raw sample_traffic !! 0 = Some m
                     ∧ List.filter (same_route (left_row m))
                         (ensure_columns sample_traffic) = [])
    by (vm_compute; eexists; split; reflexivity).
  destruct Hin as (m & Hm & Hnone).
  assert (Hmem : m ∈ transform sample_to_datetime sample_raw sample_traffic)
    by (apply list_elem_of_lookup; by exists 0).
  exists m. split; [exact Hmem|]. split; [exact Hnone|].
  exact (proj2 (proj2 (proj1 (H m Hmem) Hnone))).
Defined.

(** On the sample files the delivery without a traffic row has no default in
    its traffic columns, and the delivery on the route of speed zero gets an
    infinite score: the joined columns are not always filled, and the
    division by the speed is not guarded. *)
Lemma unmatched_rows_stay_null :
  ¬ (∀ td raw traffic m,
       m ∈ transform td raw traffic →
       isna (congestion_score m) = false
       ∧ isna (avg_route_speed m) = false
       ∧ is_finite (traffic_impact_score m) = true)
  ∧ (congestion_score <$> transform sample_to_datetime sample_raw sample_traffic)
    = [NaN; of_Z 4]
  ∧ (avg_route_speed <$> transform sample_to_datetime sample_raw sample_traffic)
    = [NaN; of_Z 0]
  ∧ (traffic_impact_score <$> transform sample_to_datetime sample_raw sample_traffic)
    = [NaN; PInf].
Proof.
  split; [|repeat split; vm_compute; reflexivity].
  intros H.
  assert (Hin : ∃ m, transform sample_to_datetime sample_raw sample_traffic !! 0 = Some m
                     ∧ congestion_score m = NaN)
    by (vm_compute; eexists; split; reflexivity).
  destruct Hin as (m & Hm & Hnan).
  assert (Hmem : m ∈ transform sample_to_datetime sample_raw sample_traffic)
    by (apply list_elem_of_lookup; by exists 0).
  destruct (H _ _ _ _ Hmem) as (Hc & _). by rewrite Hnan in Hc.
Qed.

End LogisticFacts.

(** ** Classifiers on a null metric, and the dynamic risk classes *)

Module UrbanFacts.

Import Urban PyNumFacts.

Lemma compute_aqi_null (x : num) : compute_aqi x = None ↔ isna x = true.
Proof.
  unfold compute_aqi. destruct (isna x); [done|].
  split; [|done]. by repeat case_match.
Qed.

Lemma compute_risk_labels (x : num) : is_Some (compute_risk x).
Proof. unfold compute_risk. by repeat case_match. Qed.

Lemma risk_level_labels (x : num) : is_Some (Logistic.risk_level x).
Proof. unfold Logistic.risk_level. by repeat case_match. Qed.

(** The risk flag of the transform on a null severity score: a slip next to
    [compute_aqi] and [dynamic_risk], which test for null first. *)
Example compute_risk_of_null : compute_risk NaN = Some "Low Risk".
Proof. reflexivity. Qed.

(** C5, as the classifiers have it.  The AQI category is null exactly when
    pm2_5 is null.  The risk level of the logistics transform has no test for
    null: every comparison with NaN being false, a null traffic impact score
    falls to the last branch and is labelled "Low Risk"; it never yields a
    null category. *)
Theorem null_metric_categories :
  compute_aqi NaN = None
  ∧ (∀ x, compute_aqi x = None ↔ isna x = true)
  ∧ Logistic.risk_level NaN = Some "Low Risk"
  ∧ ∀ x, is_Some (Logistic.risk_level x).
Proof.
  split; [reflexivity|]. split; [exact compute_aqi_null|].
  split; [reflexivity|exact risk_level_labels].
Qed.

(** A null metric does not always give a null category: two of the three
    classifiers answer "Low Risk". *)
Lemma null_metric_not_always_null :
  ¬ (compute_aqi NaN = None
     ∧ compute_risk NaN = None
     ∧ Logistic.risk_level NaN = None)
  ∧ compute_risk NaN = Some "Low Risk"
  ∧ Logistic.risk_level NaN = Some "Low Risk".
Proof.
  split; [|split; reflexivity].
  intros (_ & _ & H). discriminate H.
Qed.

(** *** Dynamic risk *)

Lemma dynamic_risk_cases (low med v : num) :
  (isna v = true → dynamic_risk low med v = None)
  ∧ (le v low = true → dynamic_risk low med v = Some "Low Risk")
  ∧ (isna v = false → le v low = false → le v med = true →
       dynamic_risk low med v = Some "Moderate Risk")
  ∧ (isna v = false → le v low = false → le v med = false →
       dynamic_risk low med v = Some "High Risk").
Proof.
  unfold dynamic_risk. repeat split.
  - by intros ->.
  - intros H. destruct v; try done; cbn [isna]; by rewrite H.
  - by intros -> -> ->.
  - by intros -> -> ->.
Qed.

End UrbanFacts.

(** ** Contract codes *)

Module ChurnFacts.

Import Churn.

Lemma contract_map_values (c : string) (z : Z) :
  contract_map !! c = Some z → z = 0%Z ∨ z = 1%Z ∨ z = 2%Z.
Proof.
  unfold contract_map. intros H.
  apply lookup_insert_Some in H as [[_ <-]|[_ H]]; [by left|].
  apply lookup_insert_Some in H as [[_ <-]|[_ H]]; [right; by left|].
  apply lookup_singleton_Some in H as [_ <-]. right; by right.
Qed.

Lemma code_of_cell (cell : option string) :
  let c := fillna0 (map_contract cell) in c = 0%Z ∨ c = 1%Z ∨ c = 2%Z.
Proof.
  cbv zeta. unfold fillna0, map_contract.
  destruct cell as [s|]; cbn; [|by left].
  destruct (contract_map !! s) as [z|] eqn:Hz; cbn; [|by left].
  by apply contract_map_values with s.
Qed.

Lemma code_of_unmapped (cell : option string) :
  (cell = None ∨ ∃ s, cell = Some s ∧ s ∉ dom contract_map) →
  fillna0 (map_contract cell) = 0%Z.
Proof.
  intros [->|(s & -> & Hs)]; [done|].
  unfold fillna0, map_contract. cbn.
  apply not_elem_of_dom in Hs. by rewrite Hs.
Qed.

Lemma codes_are_0_1_2 (Contract : list (option string)) :
  Forall (fun c => c = 0 ∨ c = 1 ∨ c = 2)%Z (contract_type_codes Contract).
Proof.
  unfold contract_type_codes. apply Forall_forall. intros c Hc.
  apply list_elem_of_fmap in Hc as (m & -> & Hm).
  apply list_elem_of_fmap in Hm as (cell & -> & _).
  apply code_of_cell.
Qed.

Lemma codes_in_valid (codes : list Z) :
  Forall (fun c => c = 0 ∨ c = 1 ∨ c = 2)%Z codes →
  ∀ db : list (option Z), db ⊆ Some <$> codes → contract_codes_valid db = true.
Proof.
  intros Hcodes db Hdb. unfold contract_codes_valid. apply bool_decide_eq_true.
  apply size_empty_iff. unfold invalid_codes, valid_codes.
  apply elem_of_equiv_empty. intros x.
  rewrite elem_of_difference, elem_of_list_to_set.
  intros [Hx Hnot]. apply Hdb in Hx.
  apply list_elem_of_fmap in Hx as (c & -> & Hc).
  apply (proj1 (Forall_forall _ _) Hcodes) in Hc.
  apply Hnot. destruct Hc as [-> | [-> | ->]]; set_solver.
Qed.

(** C10. Whatever the [Contract] column holds, every code written by the
    transform is 0, 1 or 2, one per row; a cell that is null after the forward
    fill, or whose lower-cased value is not a key of the map, gets 0; and the
    validator's test on the codes accepts any table made of rows coming from
    this column. *)
Theorem contract_codes_in_domain (Contract : list (option string)) :
  Forall (fun c => c = 0 ∨ c = 1 ∨ c = 2)%Z (contract_type_codes Contract)
  ∧ length (contract_type_codes Contract) = length Contract
  ∧ (∀ i cell,
       (fmap (M:=option) str_lower <$> ffill Contract) !! i = Some cell →
       (cell = None ∨ ∃ s, cell = Some s ∧ s ∉ dom contract_map) →
       contract_type_codes Contract !! i = Some 0%Z)
  ∧ ∀ db : list (option Z),
      db ⊆ fmap (M:=list) Some (contract_type_codes Contract) →
      contract_codes_valid db = true.
Proof.
  split; [apply codes_are_0_1_2|]. split; [|split].
  - unfold contract_type_codes, ffill. rewrite !length_fmap.
    generalize (@None string). induction Contract as [|c l IH]; intros last; [done|].
    cbn. by rewrite IH.
  - intros i cell Hi Hcell. unfold contract_type_codes.
    rewrite 2!list_lookup_fmap, Hi. cbn. by rewrite (code_of_unmapped cell Hcell).
  - apply codes_in_valid, codes_are_0_1_2.
Qed.

(** The theorem on the sample column, read back in full. *)
Lemma contract_codes_in_domain_witness :
  (Some <$> contract_type_codes sample_contracts) ⊆ Some <$> contract_type_codes sample_contracts
  ∧ contract_codes_valid (Some <$> contract_type_codes sample_contracts) = true.
Proof.
  assert (H : (Some <$> contract_type_codes sample_contracts)
              ⊆ Some <$> contract_type_codes sample_contracts) by (intros x Hx; exact Hx).
  split; [exact H|].
  exact (proj2 (proj2 (proj2 (contract_codes_in_domain sample_contracts))) _ H).
Defined.

Example sample_codes :
  contract_type_codes sample_contracts = [0; 0; 2; 0; 1]%Z.
Proof. vm_compute. reflexivity. Qed.

(** A code the transform never writes is caught by the validator. *)
Example validator_rejects_other_codes :
  contract_codes_valid [Some 0%Z; Some 3%Z] = false
  ∧ contract_codes_valid [Some 1%Z; None] = false.
Proof. split; vm_compute; reflexivity. Qed.

(** The rows the churn transform stages are rows the loader's delete filter
    reaches: their code is a value, and it is not -1. *)
Lemma staged_codes_are_cleared (Contract : list (option string))
    (staged : list Loader.record) :
  Forall (fun r => ∃ c, Loader.contract_type_code r = Some c
                        ∧ c ∈ contract_type_codes Contract) staged →
  Forall (fun r => Loader.deleted_by_neq r = true) staged.
Proof.
  intros H. eapply Forall_impl; [exact H|].
  intros r (c & Hr & Hc). unfold Loader.deleted_by_neq. rewrite Hr.
  apply (proj1 (Forall_forall _ _) (codes_are_0_1_2 Contract)) in Hc.
  by destruct Hc as [-> | [-> | ->]].
Qed.

End ChurnFacts.

(** ** Extraction with retries *)

Module UrbanExtractFacts.

Import UrbanExtract.

Lemma fetch_city_loop_spec (answer : Z → option string) (city : nat) (n : nat) :
  ∀ (fuel : nat) (a : Z) (log : list Event),
    (0 ≤ a)%Z → n < fuel →
    fetch_city_loop fuel answer (a + Z.of_nat n) city a log
    = Some (first_success answer a n, log ++ attempts_trace answer city a n).
Proof.
  induction n as [|n IH]; intros fuel a log Ha Hfuel;
    (destruct fuel as [|fuel]; [lia|]); cbn [fetch_city_loop].
  - rewrite Z.add_0_r, Z.ltb_irrefl. done.
  - replace (a <? a + Z.of_nat (S n))%Z with true by (symmetry; apply Z.ltb_lt; lia).
    cbn [first_success attempts_trace].
    destruct (answer (a + 1)%Z) as [p|] eqn:Hans.
    + done.
    + replace (a + Z.of_nat (S n))%Z with ((a + 1) + Z.of_nat n)%Z by lia.
      rewrite IH by lia.
      replace (a + 1 - 1)%Z with a by lia.
      by rewrite <- !app_assoc.
Qed.

(** [_fetch_city] returns, whatever the network does and whatever the value
    of [MAX_RETRIES]. *)
Lemma fetch_city_returns answer MAX city log :
  fetch_city answer MAX city log
  = Some (first_success answer 0 (Z.to_nat MAX),
          log ++ attempts_trace answer city 0 (Z.to_nat MAX)).
Proof.
  unfold fetch_city. destruct (Z.le_gt_cases MAX 0) as [Hle|Hgt].
  - replace (Z.to_nat MAX) with 0 by lia. cbn.
    replace (0 <? MAX)%Z with false by (symmetry; apply Z.ltb_ge; lia). done.
  - pose proof (fetch_city_loop_spec answer city (Z.to_nat MAX)
                  (S (Z.to_nat MAX)) 0 log ltac:(lia) ltac:(lia)) as H.
    rewrite Z2Nat.id, Z.add_0_l in H by lia. exact H.
Qed.

Lemma requests_of_app city l1 l2 :
  requests_of city (l1 ++ l2) = requests_of city l1 ++ requests_of city l2.
Proof. unfold requests_of. apply omap_app. Qed.

Lemma backoffs_app l1 l2 : backoffs (l1 ++ l2) = backoffs l1 ++ backoffs l2.
Proof. unfold backoffs. apply omap_app. Qed.

(** The requests of a trace are consecutive attempts, at most [n] of them. *)
Lemma trace_requests answer city a n :
  ∃ m, m ≤ n
       ∧ requests_of city (attempts_trace answer city a n) = seqZ (a + 1) (Z.of_nat m)
       ∧ (n ≠ 0 → m ≠ 0).
Proof.
  revert a. induction n as [|n IH]; intros a; cbn [attempts_trace].
  - exists 0. by repeat split.
  - unfold requests_of. cbn [omap list_omap]. destruct (decide (city = city)); [|done].
    destruct (answer (a + 1)%Z).
    + exists 1. cbn. repeat split; lia.
    + destruct (IH (a + 1)%Z) as (m & Hm & Hreq & _).
      exists (S m). split; [lia|]. split; [|done].
      cbn [omap list_omap]. fold (requests_of city (attempts_trace answer city (a + 1) n)).
      rewrite Hreq. rewrite (seqZ_cons (a + 1) (Z.of_nat (S m))) by lia.
      do 2 f_equal; lia.
Qed.

(** When every attempt fails, all [n] are made, and the sleeps double. *)
Lemma trace_all_failed answer city a n :
  (∀ k, (a < k ≤ a + Z.of_nat n)%Z → answer k = None) →
  requests_of city (attempts_trace answer city a n) = seqZ (a + 1) (Z.of_nat n)
  ∧ backoffs (attempts_trace answer city a n)
    = (fun k => 2 ^ k)%Z <$> seqZ a (Z.of_nat n)
  ∧ first_success answer a n = None.
Proof.
  revert a. induction n as [|n IH]; intros a Hfail;
    cbn [attempts_trace first_success].
  - done.
  - rewrite (Hfail (a + 1)%Z) by lia.
    destruct (IH (a + 1)%Z) as (Hreq & Hback & Hfirst).
    { intros k Hk. apply Hfail. lia. }
    unfold requests_of, backoffs. cbn [omap list_omap].
    destruct (decide (city = city)); [|done].
    fold (requests_of city (attempts_trace answer city (a + 1) n)).
    fold (backoffs (attempts_trace answer city (a + 1) n)).
    rewrite Hreq, Hback, Hfirst.
    rewrite (seqZ_cons (a + 1) (Z.of_nat (S n))), (seqZ_cons a (Z.of_nat (S n))) by lia.
    cbn [fmap list_fmap].
    replace (Z.pred (Z.of_nat (S n))) with (Z.of_nat n) by lia.
    replace (Z.succ (a + 1)) with (a + 1 + 1)%Z by lia.
    replace (Z.succ a) with (a + 1)%Z by lia. done.
Qed.

(** When attempt [a + n + 1] is the first to succeed, it is the last made. *)
Lemma trace_first_success answer city a n extra p :
  (∀ k, (a < k ≤ a + Z.of_nat n)%Z → answer k = None) →
  answer (a + Z.of_nat n + 1)%Z = Some p →
  requests_of city (attempts_trace answer city a (n + S extra))
  = seqZ (a + 1) (Z.of_nat (S n))
  ∧ backoffs (attempts_trace answer city a (n + S extra))
    = (fun k => 2 ^ k)%Z <$> seqZ a (Z.of_nat n)
  ∧ first_success answer a (n + S extra) = Some p.
Proof.
  revert a. induction n as [|n IH]; intros a Hfail Hok;
    cbn [Nat.add attempts_trace first_success].
  - rewrite Z.add_0_r in Hok. rewrite Hok.
    unfold requests_of. cbn. by destruct (decide (city = city)).
  - rewrite (Hfail (a + 1)%Z) by lia.
    destruct (IH (a + 1)%Z) as (Hreq & Hback & Hfirst).
    { intros k Hk. apply Hfail. lia. }
    { rewrite <- Hok. f_equal. lia. }
    unfold requests_of, backoffs. cbn [omap list_omap].
    destruct (decide (city = city)); [|done].
    fold (requests_of city (attempts_trace answer city (a + 1) (n + S extra))).
    fold (backoffs (attempts_trace answer city (a + 1) (n + S extra))).
    rewrite Hreq, Hback, Hfirst.
    rewrite (seqZ_cons (a + 1) (Z.of_nat (S (S n)))), (seqZ_cons a (Z.of_nat (S n))) by lia.
    cbn [fmap list_fmap].
    replace (Z.pred (Z.of_nat (S (S n)))) with (Z.of_nat (S n)) by lia.
    replace (Z.pred (Z.of_nat (S n))) with (Z.of_nat n) by lia.
    replace (Z.succ (a + 1)) with (a + 1 + 1)%Z by lia.
    replace (Z.succ a) with (a + 1)%Z by lia. done.
Qed.

(** The sleeps 1, 2, 4, ... add up to one less than the next power of two. *)
Lemma sum_powers (n : nat) :
  sum_Z ((fun k => 2 ^ k)%Z <$> seqZ 0 (Z.of_nat n)) = (2 ^ Z.of_nat n - 1)%Z.
Proof.
  induction n as [|n IH]; [done|].
  replace (Z.of_nat (S n)) with (Z.of_nat n + 1)%Z by lia.
  rewrite seqZ_app by lia. rewrite fmap_app.
  unfold sum_Z in *. rewrite foldr_app. cbn [seqZ]. 
  replace (seqZ (0 + Z.of_nat n) 1) with [Z.of_nat n] by (by rewrite Z.add_0_l).
  cbn [fmap list_fmap foldr]. rewrite Z.add_0_r.
  rewrite Z.pow_add_r by lia.
  assert (Hshift : ∀ (l : list Z) (x : Z), foldr Z.add x l = (foldr Z.add 0 l + x)%Z).
  { induction l as [|y l IHl]; intros x; cbn; [lia|]. rewrite IHl. lia. }
  rewrite Hshift, IH. lia.
Qed.

(** X1. [_fetch_city] always returns.  It sends the attempts 1, 2, ... in
    order, never more than [MAX_RETRIES], and stops at the first that
    succeeds, whose path it returns.  It sleeps [2 ^ (k - 1)] seconds after
    the failed attempt [k]: when every attempt fails it has sent exactly
    [MAX_RETRIES] requests, slept [2 ^ MAX_RETRIES - 1] seconds in all, and
    returns [None]; when attempt [k] is the first to succeed it has sent [k]
    requests and slept [2 ^ (k - 1) - 1] seconds. *)
Theorem fetch_city_backoff answer MAX city log :
  ∃ path trace,
    fetch_city answer MAX city log = Some (path, log ++ trace)
    ∧ (∃ m, m ≤ Z.to_nat MAX ∧ requests_of city trace = seqZ 1 (Z.of_nat m))
    ∧ ((∀ k, (1 ≤ k ≤ MAX)%Z → answer k = None) →
         path = None
         ∧ requests_of city trace = seqZ 1 MAX
         ∧ backoffs trace = (fun k => 2 ^ k)%Z <$> seqZ 0 MAX
         ∧ sum_Z (backoffs trace) = (2 ^ Z.max 0 MAX - 1)%Z)
    ∧ (∀ k p, (1 ≤ k ≤ MAX)%Z →
         (∀ j, (1 ≤ j < k)%Z → answer j = None) →
         answer k = Some p →
         path = Some p
         ∧ requests_of city trace = seqZ 1 k
         ∧ sum_Z (backoffs trace) = (2 ^ (k - 1) - 1)%Z).
Proof.
  do 2 eexists. split; [apply fetch_city_returns|].
  split; [|split].
  - destruct (trace_requests answer city 0 (Z.to_nat MAX)) as (m & Hm & Hreq & _).
    exists m. by rewrite Z.add_0_l in Hreq.
  - intros Hfail.
    destruct (trace_all_failed answer city 0 (Z.to_nat MAX)) as (Hreq & Hback & Hfirst).
    { intros k Hk. apply Hfail. lia. }
    rewrite Z.add_0_l in Hreq.
    assert (Hseq : ∀ m, seqZ m (Z.of_nat (Z.to_nat MAX)) = seqZ m MAX).
    { intros m. unfold seqZ. by rewrite Nat2Z.id. }
    rewrite Hseq in Hreq, Hback. repeat split; try done.
    rewrite Hback, <- Hseq, sum_powers. do 2 f_equal. lia.
  - intros k p Hk Hfail Hok.
    destruct (trace_first_success answer city 0 (Z.to_nat (k - 1))
                (Z.to_nat (MAX - k)) p) as (Hreq & Hback & Hfirst).
    { intros j Hj. apply Hfail. lia. }
    { rewrite <- Hok. f_equal. lia. }
    replace (Z.to_nat (k - 1) + S (Z.to_nat (MAX - k))) with (Z.to_nat MAX) in * by lia.
    split; [done|]. split.
    + rewrite Hreq. unfold seqZ. do 2 f_equal. lia.
    + rewrite Hback, sum_powers. do 2 f_equal. lia.
Qed.

(** The theorem on the third sample city, which answers at its third attempt. *)
Lemma fetch_city_backoff_witness :
  ∃ path trace,
    fetch_city (sample_net 2) 3 2 [] = Some (path, trace)
    ∧ path = Some "kolkata_raw.json"
    ∧ requests_of 2 trace = [1; 2; 3]%Z
    ∧ sum_Z (backoffs trace) = 3%Z.
Proof.
  destruct (fetch_city_backoff (sample_net 2) 3 2 []) as (path & trace & Hrun & _ & _ & Hok).
  destruct (Hok 3%Z "kolkata_raw.json") as (Hpath & Hreq & Hsum).
  - lia.
  - intros j Hj. unfold sample_net.
    replace (j <? 3)%Z with true by (symmetry; apply Z.ltb_lt; lia). reflexivity.
  - reflexivity.
  - exists path, trace. split; [exact Hrun|]. split; [exact Hpath|].
    split; [exact Hreq|exact Hsum].
Defined.

Lemma trace_other_city answer city a n other :
  other ≠ city → requests_of other (attempts_trace answer city a n) = [].
Proof.
  intros Hne. revert a. induction n as [|n IH]; intros a; cbn [attempts_trace].
  - done.
  - unfold requests_of. cbn [omap list_omap].
    destruct (decide (city = other)); [congruence|].
    destruct (answer (a + 1)%Z); [done|]. cbn [omap list_omap]. apply IH.
Qed.

Lemma fetch_all_loop_spec net MAX cities :
  ∀ i saved log,
    ∃ trace,
      fetch_all_loop net MAX i cities saved log
      = Some (saved ++ omap (fun j => kept_path (net j) MAX) (seq i (length cities)),
              log ++ trace)
      ∧ (∀ j, j < i → requests_of j trace = [])
      ∧ (∀ k, k < length cities →
           requests_of (i + k) trace
           = requests_of (i + k) (attempts_trace (net (i + k)) (i + k) 0 (Z.to_nat MAX))).
Proof.
  induction cities as [|c rest IH]; intros i saved log; cbn [fetch_all_loop length seq].
  - exists []. rewrite !app_nil_r. split; [done|]. split; [done|]. intros k Hk. lia.
  - rewrite fetch_city_returns. cbn [mbind option_bind].
    set (path := first_success (net i) 0 (Z.to_nat MAX)).
    set (tr := attempts_trace (net i) i 0 (Z.to_nat MAX)).
    match goal with |- context [fetch_all_loop net MAX (S i) rest ?sv ?lg] =>
      destruct (IH (S i) sv lg) as (trace & Hrun & Hbefore & Hat) end.
    exists (tr ++ [Pause] ++ trace). split; [|split].
    + rewrite Hrun. f_equal. f_equal.
      * cbn [omap list_omap]. unfold kept_path at 2. fold path.
        destruct path as [p|] eqn:Hp; cbn [truthy].
        -- destruct (negb (bool_decide (p = ""))); by rewrite <- ?app_assoc.
        -- done.
      * by rewrite <- !app_assoc.
    + intros j Hj. rewrite !requests_of_app, Hbefore by lia.
      unfold tr. rewrite trace_other_city by lia. done.
    + intros [|k] Hk.
      * rewrite Nat.add_0_r, !requests_of_app, Hbefore by lia.
        unfold requests_of at 2. cbn. by rewrite app_nil_r.
      * replace (i + S k) with (S i + k) by lia.
        rewrite !requests_of_app, (Hat k) by lia.
        unfold tr. rewrite trace_other_city by lia. done.
Qed.

Lemma omap_length_le {A B} (f : A → option B) (l : list A) :
  length (omap f l) ≤ length l.
Proof.
  induction l as [|x l IH]; cbn; [lia|]. destruct (f x); cbn; lia.
Qed.

(** X2. [fetch_all_cities] always returns; it returns, in the order of the
    cities, the path of each city that got an answer within [MAX_RETRIES]
    attempts, so never more paths than cities; a city that fails all its
    attempts does not stop the others: every city is sent its attempts, from
    the first one, as if it were fetched alone. *)
Theorem fetch_all_cities_skips_failures net MAX cities :
  ∃ log,
    fetch_all_cities net MAX cities
    = Some (omap (fun j => kept_path (net j) MAX) (seq 0 (length cities)), log)
    ∧ length (omap (fun j => kept_path (net j) MAX) (seq 0 (length cities)))
      ≤ length cities
    ∧ ∀ k, k < length cities →
        ∃ m, requests_of k log = seqZ 1 (Z.of_nat m)
             ∧ m ≤ Z.to_nat MAX
             ∧ ((1 ≤ MAX)%Z → m ≠ 0).
Proof.
  unfold fetch_all_cities.
  destruct (fetch_all_loop_spec net MAX cities 0 [] []) as (trace & Hrun & _ & Hat).
  exists trace. split; [exact Hrun|]. split.
  - etrans; [apply omap_length_le|]. by rewrite length_seq.
  - intros k Hk. specialize (Hat k Hk). rewrite Nat.add_0_l in Hat. rewrite Hat.
    destruct (trace_requests (net k) k 0 (Z.to_nat MAX)) as (m & Hm & Hreq & Hpos).
    exists m. rewrite Z.add_0_l in Hreq. split; [done|]. split; [done|].
    intros HMAX. apply Hpos. lia.
Qed.

(** The theorem on the three sample cities: the second never answers, the
    third is still fetched. *)
Lemma fetch_all_cities_skips_failures_witness :
  ∃ log,
    fetch_all_cities sample_net 3 sample_cities
    = Some (["delhi_raw.json"; "kolkata_raw.json"], log)
    ∧ ∃ m, requests_of 2 log = seqZ 1 (Z.of_nat m) ∧ m ≠ 0.
Proof.
  destruct (fetch_all_cities_skips_failures sample_net 3 sample_cities)
    as (log & Hrun & _ & Hall).
  exists log. split; [exact Hrun|].
  destruct (Hall 2 ltac:(cbn; lia)) as (m & Hreq & _ & Hpos).
  exists m. split; [exact Hreq|]. apply Hpos. lia.
Defined.

End UrbanExtractFacts.

(** ** Urban transform: city detection, trimmed columns, staged rows *)

Module UrbanTransformFacts.

Import Urban UrbanTransform PyNumFacts.

(** A coordinate is near a city's only when it is a number within 0.2. *)
Lemma near_fin (c : Q) (x : num) :
  near c x = true ↔ ∃ q, x = Fin q ∧ (- (2 # 10) < c - q)%Q ∧ (c - q < 2 # 10)%Q.
Proof.
  destruct x as [q| | |]; [|cbn..].
  - change (near c (Fin q)) with (Qlt_bool (Qabs (c - q)) (2 # 10)).
    rewrite Qlt_bool_iff, Qabs_Qlt_condition. split.
    + intros [H1 H2]. exists q. by repeat split.
    + intros (q' & [= <-] & H1 & H2). by split.
  - split; [done|]. by intros (q & [=] & _).
  - split; [done|]. by intros (q & [=] & _).
  - split; [done|]. by intros (q & [=] & _).
Qed.

#[local] Arguments near : simpl never.

Ltac other_city :=
  match goal with
  | Hown : near ?c ?la = true |- context [near ?c' ?la] =>
      let H := fresh in
      destruct (near c' la) eqn:H;
      [ exfalso;
        apply near_fin in Hown as (? & -> & ? & ?);
        apply near_fin in H as (? & [= <-] & ? & ?); lra
      | ]
  end.

(** No latitude is near two cities of the map: the first test decides. *)
Lemma detect_city_by_latitude (la lo : num) clat clon cname :
  ((clat, clon), cname) ∈ CITY_MAP →
  near clat la = true →
  detect_city (Some la) (Some lo)
  = if near clon lo then Returned cname else Returned "Unknown".
Proof.
  intros Hin Hlat. unfold detect_city, CITY_MAP in *.
  repeat (apply elem_of_cons in Hin as [[= -> -> ->]|Hin]);
    [ .. | by apply elem_of_nil in Hin ];
    cbn [detect_city_in];
    repeat first [ rewrite Hlat | other_city ];
    by destruct (near _ lo).
Qed.

Lemma detect_city_in_far entries (la : num) (lon : option num) :
  (∀ clat clon cname, ((clat, clon), cname) ∈ entries → near clat la = false) →
  detect_city_in entries (Some la) lon = Returned "Unknown".
Proof.
  induction entries as [|[[clat clon] cname] rest IH]; intros Hfar;
    cbn [detect_city_in]; [done|].
  rewrite (Hfar clat clon cname) by (apply elem_of_cons; by left).
  apply IH. intros c1 c2 n Hin. apply (Hfar c1 c2 n). apply elem_of_cons. by right.
Qed.

(** X3. [detect_city] on two numbers returns the city of the map whose
    latitude and longitude are both within 0.2 of them; there is never more
    than one, so the order of the dictionary does not matter, and each city's
    own coordinates give that city; without such a city, and for a coordinate
    that is NaN or infinite, it returns "Unknown".  A missing latitude raises;
    a missing longitude raises only when the latitude is near a city. *)
Theorem detect_city_unique_match (la lo : num) :
  (∀ clat clon cname,
     ((clat, clon), cname) ∈ CITY_MAP →
     near clat la = true → near clon lo = true →
     detect_city (Some la) (Some lo) = Returned cname)
  ∧ ((∀ clat clon cname,
        ((clat, clon), cname) ∈ CITY_MAP → near clat la && near clon lo = false) →
     detect_city (Some la) (Some lo) = Returned "Unknown")
  ∧ (is_finite la = false ∨ is_finite lo = false →
     detect_city (Some la) (Some lo) = Returned "Unknown")
  ∧ (∀ clat clon cname,
       ((clat, clon), cname) ∈ CITY_MAP →
       detect_city (Some (Fin clat)) (Some (Fin clon)) = Returned cname)
  ∧ detect_city None (Some lo) = Raised
  ∧ (∀ clat clon cname,
       ((clat, clon), cname) ∈ CITY_MAP → near clat la = true →
       detect_city (Some la) None = Raised)
  ∧ ((∀ clat clon cname, ((clat, clon), cname) ∈ CITY_MAP → near clat la = false) →
     detect_city (Some la) None = Returned "Unknown").
Proof.
  split; [|split; [|split; [|split; [|split; [|split]]]]].
  - intros clat clon cname Hin Hlat Hlon.
    by rewrite (detect_city_by_latitude la lo clat clon cname Hin Hlat), Hlon.
  - intros Hnone.
    destruct (decide (Exists (fun e => near e.1.1 la = true) CITY_MAP)) as [Hex|Hfar];
      [apply Exists_exists in Hex as ([[clat clon] cname] & Hin & Hlat)|].
    + cbn in Hlat. rewrite (detect_city_by_latitude la lo clat clon cname Hin Hlat).
      specialize (Hnone clat clon cname Hin). rewrite Hlat in Hnone. cbn in Hnone.
      by rewrite Hnone.
    + apply detect_city_in_far. intros clat clon cname Hin.
      destruct (near clat la) eqn:Hlat; [|done].
      exfalso. apply Hfar, Exists_exists. by exists ((clat, clon), cname).
  - intros Hinf.
    destruct (decide (Exists (fun e => near e.1.1 la = true) CITY_MAP)) as [Hex|Hfar];
      [apply Exists_exists in Hex as ([[clat clon] cname] & Hin & Hlat)|].
    + cbn in Hlat. rewrite (detect_city_by_latitude la lo clat clon cname Hin Hlat).
      destruct (near clon lo) eqn:Hlon; [|done].
      apply near_fin in Hlat as (? & -> & _). apply near_fin in Hlon as (? & -> & _).
      by destruct Hinf.
    + apply detect_city_in_far. intros clat clon cname Hin.
      destruct (near clat la) eqn:Hlat; [|done].
      exfalso. apply Hfar, Exists_exists. by exists ((clat, clon), cname).
  - intros clat clon cname Hin.
    assert (Hself : ∀ c, near c (Fin c) = true).
    { intros c. apply near_fin. exists c. split; [done|]. split; lra. }
    by rewrite (detect_city_by_latitude _ _ clat clon cname Hin (Hself clat)), Hself.
  - reflexivity.
  - intros clat clon cname Hin Hlat. unfold detect_city, CITY_MAP in *.
    repeat (apply elem_of_cons in Hin as [[= -> -> ->]|Hin]);
      [ .. | by apply elem_of_nil in Hin ];
      cbn [detect_city_in];
      repeat first [ rewrite Hlat | other_city ]; done.
  - apply detect_city_in_far.
Qed.

(** The theorem on a point near Delhi. *)
Lemma detect_city_unique_match_witness :
  ((287041 # 10000, 771025 # 10000), "Delhi") ∈ CITY_MAP
  ∧ near (287041 # 10000) (Fin (287 # 10)) = true
  ∧ near (771025 # 10000) (Fin (771 # 10)) = true
  ∧ detect_city (Some (Fin (287 # 10))) (Some (Fin (771 # 10))) = Returned "Delhi".
Proof.
  assert (Hin : ((287041 # 10000, 771025 # 10000), "Delhi") ∈ CITY_MAP)
    by (apply elem_of_cons; left; reflexivity).
  assert (Hlat : near (287041 # 10000) (Fin (287 # 10)) = true) by reflexivity.
  assert (Hlon : near (771025 # 10000) (Fin (771 # 10)) = true) by reflexivity.
  split; [exact Hin|]. split; [exact Hlat|]. split; [exact Hlon|].
  exact (proj1 (detect_city_unique_match (Fin (287 # 10)) (Fin (771 # 10)))
           _ _ _ Hin Hlat Hlon).
Defined.

(** *** Trimmed columns *)

Lemma length_trim {A} (n : nat) (arr : option (list (option A))) :
  length (trim n arr) = n.
Proof.
  unfold trim. destruct arr as [a|].
  - rewrite length_take, length_app, length_replicate. lia.
  - apply length_replicate.
Qed.

Lemma lookup_trim {A} (n : nat) (arr : option (list (option A))) (k : nat) :
  k < n →
  trim n arr !! k
  = Some (match arr with Some a => default None (a !! k) | None => None end).
Proof.
  intros Hk. unfold trim. destruct arr as [a|].
  - rewrite lookup_take_lt by done.
    destruct (a !! k) as [c|] eqn:Hak.
    + by rewrite (lookup_app_l_Some _ _ _ _ Hak).
    + apply lookup_ge_None in Hak. rewrite lookup_app_r by done.
      rewrite lookup_replicate_2 by lia. done.
  - by rewrite lookup_replicate_2.
Qed.

Lemma cell_at_trim (n : nat) (arr : option (list (option Q))) (k : nat) :
  k < n → cell_at (trim n arr) k = array_cell arr k.
Proof. intros Hk. unfold cell_at. by rewrite lookup_trim. Qed.

(** X4. [trim] gives a column of exactly [len(times)] cells, whatever the
    array: its own items first, cut at that length, then nulls; so the frame
    of a file whose city is detected has exactly one row per time, all with
    that city, and the cell of row [k] under a pollutant is the item [k] of
    its array when the array has one, null otherwise.  When the detection
    raises, so does the parse. *)
Theorem parse_one_row_per_time (f : raw_file) :
  (∀ (n : nat) (arr : option (list (option Q))),
     length (trim n arr) = n
     ∧ ∀ k, k < n → trim n arr !! k = Some (array_cell arr k))
  ∧ (detect_city (latitude f) (longitude f) = Raised → parse_raw_json f = Raised)
  ∧ ∀ city, detect_city (latitude f) (longitude f) = Returned city →
      ∃ rows, parse_raw_json f = Returned rows
        ∧ length rows = length (hourly_time f)
        ∧ ∀ k t, hourly_time f !! k = Some t →
            ∃ r, rows !! k = Some r
              ∧ p_time r = t ∧ p_city r = city
              ∧ p_pm10 r = array_cell (hourly_pm10 f) k
              ∧ p_pm2_5 r = array_cell (hourly_pm2_5 f) k
              ∧ p_carbon_monoxide r = array_cell (hourly_carbon_monoxide f) k
              ∧ p_nitrogen_dioxide r = array_cell (hourly_nitrogen_dioxide f) k
              ∧ p_sulphur_dioxide r = array_cell (hourly_sulphur_dioxide f) k
              ∧ p_ozone r = array_cell (hourly_ozone f) k
              ∧ p_uv_index r = array_cell (hourly_uv_index f) k.
Proof.
  split; [|split].
  - intros n arr. split; [apply length_trim|]. intros k Hk.
    rewrite lookup_trim by done. by destruct arr.
  - intros Hd. unfold parse_raw_json. by rewrite Hd.
  - intros city Hd. unfold parse_raw_json. rewrite Hd.
    eexists. split; [reflexivity|]. split; [apply length_imap|].
    intros k t Hk. rewrite list_lookup_imap, Hk. cbn [fmap option_fmap option_map].
    eexists. split; [reflexivity|]. cbn.
    pose proof (lookup_lt_Some _ _ _ Hk) as Hlt.
    by rewrite !cell_at_trim.
Qed.

(** The theorem on the sample file near Delhi: three times, three rows; the
    pm2_5 array has one item and there is no ozone key. *)
Lemma parse_one_row_per_time_witness :
  ∃ rows, parse_raw_json delhi_file = Returned rows
    ∧ length rows = 3
    ∧ (p_pm2_5 <$> rows) = [Some (40 # 1); None; None]
    ∧ (p_ozone <$> rows) = [None; None; None]
    ∧ (p_uv_index <$> rows) = [None; None; None].
Proof.
  assert (Hd : detect_city (latitude delhi_file) (longitude delhi_file)
               = Returned "Delhi") by reflexivity.
  destruct (proj2 (proj2 (parse_one_row_per_time delhi_file)) "Delhi" Hd)
    as (rows & Hrows & Hlen & _).
  exists rows. split; [exact Hrows|]. split; [exact Hlen|].
  assert (Hr : Returned rows = parse_raw_json delhi_file) by (symmetry; exact Hrows).
  vm_compute in Hr. injection Hr as ->. repeat split.
Defined.

(** *** Severity *)

Lemma add_nan_r (x : num) : add x NaN = NaN.
Proof. by destruct x. Qed.

Lemma mul_weight (q : Q) (w : Z) : mul (Fin q) (of_Z w) = Fin (q * inject_Z w).
Proof. reflexivity. Qed.

Lemma severity_nan (r : air_row) :
  isna (pm2_5 r) || isna (pm10 r) || isna (nitrogen_dioxide r)
  || isna (sulphur_dioxide r) || isna (carbon_monoxide r) || isna (ozone r) = true →
  compute_severity r = NaN.
Proof.
  intros Hnull. unfold compute_severity.
  repeat (apply orb_prop in Hnull as [Hnull|Hnull]);
    match type of Hnull with isna ?x = true =>
      destruct x; try discriminate Hnull end;
    cbn [mul]; by rewrite ?add_nan_r.
Qed.

(** X5. The severity score of a row whose six weighted pollutants are numbers
    is the weighted sum 5 pm2_5 + 3 pm10 + 4 NO2 + 4 SO2 + 2 CO + 3 O3; as
    soon as one of the six is null the score is NaN, which the risk flag of
    the transform labels "Low Risk". *)
Theorem severity_of_row (r : air_row) :
  (∀ a b c d e f,
     pm2_5 r = Fin a → pm10 r = Fin b → nitrogen_dioxide r = Fin c →
     sulphur_dioxide r = Fin d → carbon_monoxide r = Fin e → ozone r = Fin f →
     ∃ q, compute_severity r = Fin q
          ∧ (q == 5 * a + 3 * b + 4 * c + 4 * d + 2 * e + 3 * f)%Q)
  ∧ (isna (pm2_5 r) || isna (pm10 r) || isna (nitrogen_dioxide r)
     || isna (sulphur_dioxide r) || isna (carbon_monoxide r) || isna (ozone r) = true →
     compute_severity r = NaN
     ∧ compute_risk (compute_severity r) = Some "Low Risk").
Proof.
  split.
  - intros a b c d e f Ha Hb Hc Hd He Hf. unfold compute_severity.
    rewrite Ha, Hb, Hc, Hd, He, Hf, !mul_weight. cbn [add].
    eexists. split; [reflexivity|].
    change (inject_Z 5) with 5%Q. change (inject_Z 3) with 3%Q.
    change (inject_Z 4) with 4%Q. change (inject_Z 2) with 2%Q. ring.
  - intros Hnull. by rewrite (severity_nan r Hnull).
Qed.

(** The theorem on a row with pm2_5 40, pm10 80, NO2 10, SO2 5, CO 300 and no
    ozone: the score is null; with ozone 20 it is 1160. *)
Lemma severity_of_row_witness :
  compute_severity
    {| pm10 := of_Z 80; pm2_5 := of_Z 40; carbon_monoxide := of_Z 300;
       nitrogen_dioxide := of_Z 10; sulphur_dioxide := of_Z 5; ozone := NaN;
       uv_index := NaN |} = NaN
  ∧ ∃ q, compute_severity
           {| pm10 := of_Z 80; pm2_5 := of_Z 40; carbon_monoxide := of_Z 300;
              nitrogen_dioxide := of_Z 10; sulphur_dioxide := of_Z 5;
              ozone := of_Z 20; uv_index := NaN |} = Fin q
         ∧ (q == 1160)%Q.
Proof.
  split.
  - apply (proj2 (severity_of_row _)). reflexivity.
  - destruct (proj1 (severity_of_row
                 {| pm10 := of_Z 80; pm2_5 := of_Z 40; carbon_monoxide := of_Z 300;
                    nitrogen_dioxide := of_Z 10; sulphur_dioxide := of_Z 5;
                    ozone := of_Z 20; uv_index := NaN |})
               40 80 10 5 300 20)%Q as (q & Hq & Heq); try reflexivity.
    exists q. split; [exact Hq|]. rewrite Heq. reflexivity.
Defined.

(** *** The staged rows *)

Lemma parse_returns f city :
  detect_city (latitude f) (longitude f) = Returned city →
  ∃ df, parse_raw_json f = Returned df ∧ length df = length (hourly_time f).
Proof.
  intros Hd. unfold parse_raw_json. rewrite Hd. eexists. split; [reflexivity|].
  apply length_imap.
Qed.

Lemma collect_frames_raises files f :
  f ∈ files →
  detect_city (latitude f) (longitude f) = Raised →
  collect_frames files = Raised.
Proof.
  intros Hin Hd. induction files as [|g rest IH]; [by apply elem_of_nil in Hin|].
  cbn [collect_frames]. apply elem_of_cons in Hin as [<-|Hin].
  - unfold parse_raw_json. by rewrite Hd.
  - destruct (parse_raw_json g); [|done]. by rewrite (IH Hin).
Qed.

Lemma collect_frames_returns files :
  (∀ f, f ∈ files → ∃ city, detect_city (latitude f) (longitude f) = Returned city) →
  ∃ rows, collect_frames files = Returned rows
    ∧ length (concat rows) = total_times files
    ∧ (rows = [] ↔ total_times files = 0).
Proof.
  induction files as [|f rest IH]; intros Hok.
  - exists []. by repeat split.
  - destruct (Hok f) as [city Hcity]; [apply elem_of_cons; by left|].
    destruct (parse_returns f city Hcity) as (df & Hdf & Hlen).
    destruct IH as (rows & Hrows & Hcat & Hnil).
    { intros g Hg. apply Hok, elem_of_cons. by right. }
    cbn [collect_frames]. rewrite Hdf, Hrows.
    unfold total_times, sum_list in *. cbn [fmap list_fmap sum_list_with compose].
    unfold id in *.
    destruct df as [|r df].
    + exists rows. split; [done|]. cbn in Hlen. split; [lia|].
      rewrite Hnil. lia.
    + eexists. split; [reflexivity|]. cbn [concat]. rewrite length_app.
      split; [lia|]. split; [done|]. cbn in Hlen. lia.
Qed.

Lemma filter_stage td (df : list parsed_row) :
  stage_row td <$> List.filter (fun r => negb (all_null (numeric_row r))) df
  = List.filter (fun s => negb (all_null (s_cells s))) (stage_row td <$> df).
Proof.
  induction df as [|r df IH]; [done|]. cbn [List.filter fmap list_fmap].
  change (s_cells (stage_row td r)) with (numeric_row r).
  destruct (negb (all_null (numeric_row r))); cbn [fmap list_fmap]; by rewrite <- IH.
Qed.

(** The staged rows of the frame of one file are the rows of its times that
    have a pollutant value, with the cells its arrays hold at that position. *)
Lemma parse_rows_of_file td f city :
  detect_city (latitude f) (longitude f) = Returned city →
  ∃ df, parse_raw_json f = Returned df
    ∧ length df = length (hourly_time f)
    ∧ stage_row td <$> List.filter (fun r => negb (all_null (numeric_row r))) df
      = rows_of_file td f.
Proof.
  intros Hd. unfold parse_raw_json, rows_of_file. rewrite Hd.
  eexists. split; [reflexivity|]. split; [apply length_imap|].
  rewrite filter_stage, fmap_imap. f_equal.
  apply imap_ext. intros k t Hk. apply lookup_lt_Some in Hk.
  unfold compose, stage_row, row_of, numeric_row, file_cells.
  cbn [p_time p_pm10 p_pm2_5 p_carbon_monoxide p_nitrogen_dioxide
       p_sulphur_dioxide p_ozone p_uv_index p_city].
  by rewrite !cell_at_trim.
Qed.

Lemma collect_frames_rows td files :
  (∀ f, f ∈ files → ∃ city, detect_city (latitude f) (longitude f) = Returned city) →
  ∃ frames, collect_frames files = Returned frames
    ∧ stage_row td
        <$> List.filter (fun r => negb (all_null (numeric_row r))) (concat frames)
      = concat (rows_of_file td <$> files).
Proof.
  induction files as [|f rest IH]; intros Hok.
  - by exists [].
  - destruct (Hok f) as [city Hcity]; [apply elem_of_cons; by left|].
    destruct (parse_rows_of_file td f city Hcity) as (df & Hdf & _ & Hrows).
    destruct IH as (frames & Hframes & Hcat).
    { intros g Hg. apply Hok, elem_of_cons. by right. }
    cbn [collect_frames]. rewrite Hdf, Hframes.
    cbn [fmap list_fmap concat]. rewrite <- Hrows, <- Hcat.
    destruct df as [|r df]; eexists; (split; [reflexivity|]); [done|].
    cbn [concat]. by rewrite List.filter_app, fmap_app.
Qed.

Lemma elem_of_rows_of_file td f s :
  s ∈ rows_of_file td f
  ↔ ∃ city k t,
      detect_city (latitude f) (longitude f) = Returned city
      ∧ hourly_time f !! k = Some t
      ∧ all_null (file_cells f k) = false
      ∧ s = row_of td f city k t.
Proof.
  unfold rows_of_file. destruct (detect_city (latitude f) (longitude f)) as [city|].
  - rewrite list_elem_of_In, List.filter_In, <- list_elem_of_In, elem_of_lookup_imap.
    split.
    + intros [(k & t & -> & Hk) Hkeep]. exists city, k, t.
      by apply negb_true_iff in Hkeep.
    + intros (city' & k & t & [= <-] & Hk & Hkeep & ->). split; [by exists k, t|].
      by apply negb_true_iff.
  - split; [by intros ?%elem_of_nil|]. by intros (? & ? & ? & ? & _).
Qed.

Lemma elem_of_concat_rows td files s :
  s ∈ concat (rows_of_file td <$> files)
  ↔ ∃ f, f ∈ files ∧ s ∈ rows_of_file td f.
Proof.
  induction files as [|f rest IH]; cbn [fmap list_fmap concat].
  - split; [by intros ?%elem_of_nil|]. by intros (? & ?%elem_of_nil & _).
  - rewrite elem_of_app, IH. split.
    + intros [H|(g & Hg & H)]; [exists f|exists g]; (split; [|done]);
        apply elem_of_cons; auto.
    + intros (g & [->|Hg]%elem_of_cons & H); [by left|]. right. by exists g.
Qed.

(** X6. [run_transform] raises when the detection raises on some file;
    otherwise it writes nothing when no file has a time, and else writes the
    rows that have at least one pollutant, all of them and no other, file
    after file and in the order of the times: a row is written exactly when
    it is the row of a time of a file whose seven pollutant cells at that
    position are not all null, and it holds that time, the city detected for
    the file, and the cells the arrays of the file hold at that position.
    They are never more than the files have times.  In a written row the AQI
    category is null exactly when pm2_5 is null; the risk flag is never null,
    and is "Low Risk" whenever one of the six weighted pollutants is null. *)
Theorem run_transform_rows td files :
  (∀ f, f ∈ files → detect_city (latitude f) (longitude f) = Raised →
     run_transform td files = Raised)
  ∧ ((∀ f, f ∈ files →
        ∃ city, detect_city (latitude f) (longitude f) = Returned city) →
     (total_times files = 0 → run_transform td files = Returned None)
     ∧ (total_times files ≠ 0 →
        ∃ rows, run_transform td files = Returned (Some rows)
          ∧ rows = concat (rows_of_file td <$> files)
          ∧ (∀ s, s ∈ rows
               ↔ ∃ f city k t,
                   f ∈ files
                   ∧ detect_city (latitude f) (longitude f) = Returned city
                   ∧ hourly_time f !! k = Some t
                   ∧ all_null (file_cells f k) = false
                   ∧ s = row_of td f city k t)
          ∧ length rows ≤ total_times files
          ∧ ∀ s, s ∈ rows →
              all_null (s_cells s) = false
              ∧ (aqi_category s = None ↔ isna (pm2_5 (s_cells s)) = true)
              ∧ is_Some (risk_flag s)
              ∧ (isna (pm2_5 (s_cells s)) || isna (pm10 (s_cells s))
                 || isna (nitrogen_dioxide (s_cells s))
                 || isna (sulphur_dioxide (s_cells s))
                 || isna (carbon_monoxide (s_cells s))
                 || isna (ozone (s_cells s)) = true →
                 severity_score s = NaN ∧ risk_flag s = Some "Low Risk"))).
Proof.
  split.
  - intros f Hin Hd. unfold run_transform.
    by rewrite (collect_frames_raises files f Hin Hd).
  - intros Hok. destruct (collect_frames_returns files Hok) as (rows & Hrows & Hcat & Hnil).
    destruct (collect_frames_rows td files Hok) as (rows' & Hrows' & Hexact).
    rewrite Hrows in Hrows'. injection Hrows' as <-.
    unfold run_transform. rewrite Hrows. split.
    + intros H0. by rewrite (proj2 Hnil H0).
    + intros Hne. destruct rows as [|df rows]; [by destruct Hne; apply Hnil|].
      eexists. split; [reflexivity|]. split; [exact Hexact|]. split.
      { intros s. rewrite Hexact, elem_of_concat_rows. split.
        - intros (f & Hf & Hs). apply elem_of_rows_of_file in Hs
            as (city & k & t & Hc & Hk & Hkeep & ->). by exists f, city, k, t.
        - intros (f & city & k & t & Hf & Hc & Hk & Hkeep & ->). exists f.
          split; [done|]. apply elem_of_rows_of_file. by exists city, k, t. }
      split.
      * rewrite length_fmap, <- Hcat. apply List.filter_length_le.
      * intros s Hs. apply list_elem_of_fmap in Hs as (r & -> & Hr).
        apply list_elem_of_In, List.filter_In in Hr as [_ Hr].
        apply negb_true_iff in Hr. cbn [stage_row s_cells aqi_category risk_flag
          severity_score].
        split; [done|]. split.
        { unfold compute_aqi. destruct (isna (pm2_5 (numeric_row r))); [done|].
          split; [|done]. by repeat case_match. }
        split.
        { unfold compute_risk. by repeat case_match. }
        intros Hnull. by rewrite (severity_nan _ Hnull).
Qed.

(** The theorem on the sample file near Delhi: three times, two rows written,
    those of the first two times (the second for its pm10 alone; the third
    has no pollutant). *)
Lemma run_transform_rows_witness :
  ∃ rows, run_transform no_time [delhi_file] = Returned (Some rows)
    ∧ rows = [row_of no_time delhi_file "Delhi" 0 "2025-12-11T00:00";
              row_of no_time delhi_file "Delhi" 1 "2025-12-11T01:00"]
    ∧ length rows ≤ 3
    ∧ (aqi_category <$> rows) = [Some "Good"; None]
    ∧ (risk_flag <$> rows) = [Some "Low Risk"; Some "Low Risk"].
Proof.
  destruct (proj2 (run_transform_rows no_time [delhi_file])) as [_ H].
  - intros f Hf. apply list_elem_of_singleton in Hf as ->. by exists "Delhi".
  - destruct H as (rows & Hrows & Hexact & _ & Hlen & _); [by vm_compute|].
    exists rows. split; [exact Hrows|].
    assert (Hr : rows = [row_of no_time delhi_file "Delhi" 0 "2025-12-11T00:00";
                         row_of no_time delhi_file "Delhi" 1 "2025-12-11T01:00"])
      by (rewrite Hexact; reflexivity).
    split; [exact Hr|]. split; [exact Hlen|].
    rewrite Hr. split; reflexivity.
Defined.

(** A file without a longitude, far from every city, is parsed; with a
    latitude near a city it ends the run. *)
Example missing_longitude :
  run_transform no_time [sea_file] = Returned None
  ∧ run_transform no_time
      [delhi_file;
       {| latitude := Some (Fin (19 # 1)); longitude := None;
          hourly_time := []; hourly_pm10 := None; hourly_pm2_5 := None;
          hourly_carbon_monoxide := None; hourly_nitrogen_dioxide := None;
          hourly_sulphur_dioxide := None; hourly_ozone := None;
          hourly_uv_index := None |}] = Raised.
Proof. split; reflexivity. Qed.

End UrbanTransformFacts.

(** ** Logistics: scores, the join, the row-by-row loader *)

Module LogisticMoreFacts.

Import Logistic PyNumFacts LogisticFacts.

Ltac reflect_le :=
  repeat match goal with
  | H : le (Fin ?q) (of_Z ?z) = true |- _ => apply (le_fin q (inject_Z z)) in H
  | H : le (Fin ?q) (of_Z ?z) = false |- _ => apply (le_fin_false q (inject_Z z)) in H
  end.

(** X7. The delay class and the agent score of a delay always agree: on time
    with 5, a slight delay with 4 or 3, a major delay with 2, a critical delay
    (also a delay that is NaN) with 1. *)
Theorem delay_class_matches_score (x : num) :
  (classify_delay x = Some "On-Time" ↔ agent_score x = 5%Z)
  ∧ (classify_delay x = Some "Slight Delay"
     ↔ agent_score x = 4%Z ∨ agent_score x = 3%Z)
  ∧ (classify_delay x = Some "Major Delay" ↔ agent_score x = 2%Z)
  ∧ (classify_delay x = Some "Critical Delay" ↔ agent_score x = 1%Z)
  ∧ (1 ≤ agent_score x ≤ 5)%Z.
Proof.
  unfold classify_delay, agent_score.
  destruct x as [q| | |]; [|cbn; repeat split; intros; (done || lia || (intuition discriminate))..].
  destruct (le (Fin q) (of_Z 0)) eqn:H0, (le (Fin q) (of_Z 30)) eqn:H30,
    (le (Fin q) (of_Z 60)) eqn:H60, (le (Fin q) (of_Z 180)) eqn:H180;
    reflect_le;
    try (exfalso; change (inject_Z 0) with 0%Q in *; change (inject_Z 30) with 30%Q in *;
         change (inject_Z 60) with 60%Q in *; change (inject_Z 180) with 180%Q in *;
         lra);
    repeat split; intros; (done || lia || (intuition discriminate) || auto).
Qed.

(** *** The left join *)

Lemma merge_left_lefts (deliveries : list scored_delivery) (traffic : list traffic_row) :
  left_row <$> merge_left deliveries traffic
  = deliveries ≫= (fun d =>
      replicate (Nat.max 1 (length (List.filter (same_route d) traffic))) d).
Proof.
  unfold merge_left. induction deliveries as [|d ds IH]; [done|].
  cbn [mbind list_bind]. rewrite fmap_app, IH. f_equal.
  destruct (List.filter (same_route d) traffic) as [|t ts]; [reflexivity|].
  rewrite <- list_fmap_compose. cbn [length Nat.max].
  change (S (length ts)) with (length (t :: ts)).
  generalize (t :: ts). intros l. induction l as [|x l IHl]; [done|].
  cbn. by rewrite IHl.
Qed.

(** X8. The join loses no delivery and keeps their order: the left rows of
    the result are the deliveries, each repeated once per traffic row of its
    route and once when it has none.  With at most one traffic row per route
    they are the deliveries themselves, and the join has as many rows. *)
Theorem left_join_keeps_deliveries (deliveries : list scored_delivery)
    (traffic : list traffic_row) :
  left_row <$> merge_left deliveries traffic
  = deliveries ≫= (fun d =>
      replicate (Nat.max 1 (length (List.filter (same_route d) traffic))) d)
  ∧ length deliveries ≤ length (merge_left deliveries traffic)
  ∧ (∀ d, d ∈ deliveries → d ∈ left_row <$> merge_left deliveries traffic)
  ∧ ((∀ d, d ∈ deliveries → length (List.filter (same_route d) traffic) ≤ 1) →
     left_row <$> merge_left deliveries traffic = deliveries
     ∧ length (merge_left deliveries traffic) = length deliveries).
Proof.
  pose proof (merge_left_lefts deliveries traffic) as Hl.
  split; [exact Hl|]. split; [|split].
  - rewrite <- (length_fmap left_row), Hl. clear Hl.
    induction deliveries as [|d ds IH]; cbn; [lia|].
    rewrite length_app, length_replicate. lia.
  - intros d Hd. rewrite Hl. apply list_elem_of_bind. exists d.
    split; [|done]. apply elem_of_replicate. split; [done|]. lia.
  - intros Huniq.
    assert (Heq : left_row <$> merge_left deliveries traffic = deliveries).
    { rewrite Hl. clear Hl. induction deliveries as [|d ds IH]; [done|].
      cbn [mbind list_bind].
      rewrite IH by (intros d' Hd'; apply Huniq, elem_of_cons; by right).
      assert (Hd : length (List.filter (same_route d) traffic) ≤ 1)
        by (apply Huniq, elem_of_cons; by left).
      replace (Nat.max 1 (length (List.filter (same_route d) traffic))) with 1 by lia.
      done. }
    split; [exact Heq|]. by rewrite <- (length_fmap left_row), Heq.
Qed.

(** The theorem on the kept sample deliveries and the one sample route. *)
Lemma left_join_keeps_deliveries_witness :
  left_row <$> merge_left (score_delivery <$> heavy_df) (ensure_columns sample_traffic)
  = score_delivery <$> heavy_df.
Proof.
  apply (proj2 (proj2 (proj2 (left_join_keeps_deliveries
           (score_delivery <$> heavy_df) (ensure_columns sample_traffic))))).
  intros d Hd. vm_compute in Hd.
  repeat (apply elem_of_cons in Hd as [->|Hd]); [vm_compute; lia..|].
  by apply elem_of_nil in Hd.
Defined.

Lemma zip_rows_same_city (cities : list string) cong speed ww t :
  t ∈ zip_rows cities cities cong speed ww →
  tr_source_city t = tr_destination_city t.
Proof.
  revert cong speed ww.
  induction cities as [|c cities IH]; intros cong speed ww; cbn.
  { intros H. by apply elem_of_nil in H. }
  destruct cong as [|x cong], speed as [|v speed], ww as [|w ww];
    try (intros H; by apply elem_of_nil in H).
  intros H. apply elem_of_cons in H as [->|H]; [done|]. by eapply IH.
Qed.

(** X9. When the traffic file has neither a source nor a destination column
    (as the file of the extract step, keyed by city name), both are created
    from the same column, so that a traffic row stands for a route from a
    city to itself: every delivery between two different cities is without a
    traffic row, its traffic columns and traffic impact score are null, and
    its risk level is "Low Risk". *)
Theorem routes_from_city_names td raw traffic :
  t_source_city traffic = None →
  t_destination_city traffic = None →
  (∀ t, t ∈ ensure_columns traffic → tr_source_city t = tr_destination_city t)
  ∧ ∀ m, m ∈ transform td raw traffic →
      source_city (base (left_row m)) ≠ destination_city (base (left_row m)) →
      congestion_score m = NaN
      ∧ avg_route_speed m = NaN
      ∧ traffic_impact_score m = NaN
      ∧ risk_level (traffic_impact_score m) = Some "Low Risk".
Proof.
  intros Hsrc Hdst.
  assert (Hsame : ∀ t, t ∈ ensure_columns traffic →
                       tr_source_city t = tr_destination_city t).
  { intros t Ht. unfold ensure_columns in Ht. rewrite Hsrc, Hdst in Ht.
    by apply zip_rows_same_city in Ht. }
  split; [exact Hsame|].
  intros m Hm Hne. unfold transform in Hm.
  apply merge_left_elem in Hm as [_ [(_ & Hc & Hv)|(t & Ht & Hroute & _)]].
  - rewrite (impact_of_null_columns m Hc). by repeat split.
  - exfalso. unfold same_route in Hroute.
    apply andb_prop in Hroute as [H1 H2].
    apply bool_decide_eq_true in H1. apply bool_decide_eq_true in H2.
    apply Hne. by rewrite H1, H2, (Hsame t Ht).
Qed.

(** The theorem on the sample deliveries and a traffic file keyed by city. *)
Lemma routes_from_city_names_witness :
  ∃ m, m ∈ transform sample_to_datetime sample_raw LogisticLoad.city_traffic
       ∧ source_city (base (left_row m)) ≠ destination_city (base (left_row m))
       ∧ traffic_impact_score m = NaN.
Proof.
  destruct (routes_from_city_names sample_to_datetime sample_raw
              LogisticLoad.city_traffic eq_refl eq_refl) as [_ H].
  assert (Hin : ∃ m, transform sample_to_datetime sample_raw LogisticLoad.city_traffic
                       !! 1 = Some m
                     ∧ source_city (base (left_row m)) = "Delhi"
                     ∧ destination_city (base (left_row m)) = "Agra")
    by (vm_compute; eexists; repeat split).
  destruct Hin as (m & Hm & Hs & Hd).
  assert (Hmem : m ∈ transform sample_to_datetime sample_raw LogisticLoad.city_traffic)
    by (apply list_elem_of_lookup; by exists 1).
  assert (Hne : source_city (base (left_row m)) ≠ destination_city (base (left_row m)))
    by (rewrite Hs, Hd; discriminate).
  exists m. split; [exact Hmem|]. split; [exact Hne|].
  exact (proj1 (proj2 (proj2 (H m Hmem Hne)))).
Defined.

(** *** The staged file read back, and the loader *)

Import LogisticLoad.






Lemma inserts_into_app table l1 l2 :
  inserts_into table (l1 ++ l2) = inserts_into table l1 ++ inserts_into table l2.
Proof. unfold inserts_into. apply omap_app. Qed.

Lemma inserts_into_calls table other k0 n :
  inserts_into table (Insert other <$> seq k0 n)
  = if decide (other = table) then seq k0 n else [].
Proof.
  revert k0. induction n as [|n IH]; intros k0; cbn.
  - by destruct (decide (other = table)).
  - unfold inserts_into in *. cbn. rewrite IH.
    by destruct (decide (other = table)).
Qed.

Lemma after_inserts_step table k0 r rows sent st :
  after_inserts table (S k0) rows sent (store table r (emit (Insert table k0) st))
  = after_inserts table k0 (r :: rows) (S sent) st.
Proof.
  unfold after_inserts, store, emit. cbn [seq fmap list_fmap].
  destruct (decide (table = "deliveries")); cbn; f_equal;
    by rewrite <- ?app_assoc, ?app_nil_r.
Qed.

Lemma insert_rows_all raises table rows :
  ∀ k0 st,
    (∀ j, j < length rows → raises table (k0 + j) = false) →
    insert_rows raises table k0 rows st
    = Finished (after_inserts table k0 rows (length rows) st).
Proof.
  induction rows as [|r rows IH]; intros k0 st Hok; cbn [insert_rows length].
  - unfold after_inserts. cbn. destruct st. cbn.
    by destruct (decide (table = "deliveries")); rewrite !app_nil_r.
  - pose proof (Hok 0 ltac:(cbn; lia)) as H0. rewrite Nat.add_0_r in H0. rewrite H0.
    rewrite IH; [by rewrite after_inserts_step|].
    intros j Hj. replace (S k0 + j) with (k0 + S j) by lia. apply Hok. cbn. lia.
Qed.

Lemma insert_rows_first_raise raises table rows :
  ∀ k0 st j,
    j < length rows →
    raises table (k0 + j) = true →
    (∀ i, i < j → raises table (k0 + i) = false) →
    insert_rows raises table k0 rows st
    = Crashed (after_inserts table k0 (take j rows) (S j) st).
Proof.
  induction rows as [|r rows IH]; intros k0 st j Hj Hraise Hbefore;
    cbn [insert_rows length] in *; [lia|].
  destruct j as [|j].
  - rewrite Nat.add_0_r in Hraise. rewrite Hraise. f_equal.
    unfold after_inserts, emit. cbn.
    by destruct (decide (table = "deliveries")); rewrite !app_nil_r.
  - pose proof (Hbefore 0 ltac:(lia)) as H0. rewrite Nat.add_0_r in H0. rewrite H0.
    rewrite (IH (S k0) _ j); [by rewrite after_inserts_step| lia | |].
    + by replace (S k0 + j) with (k0 + S j) by lia.
    + intros i Hi. replace (S k0 + i) with (k0 + S i) by lia. apply Hbefore. lia.
Qed.

(** X11. The logistics loader sends one insert per row, in order, and never
    retries.  When no call raises, each table receives the cleaned rows of its
    file, a missing file leaving its table as it was.  When the call for the
    deliveries row [k] is the first to raise, the script stops there: the
    deliveries table holds the [k] rows before it, the calls made are those
    for the rows 0 to [k], and nothing is sent to the traffic table. *)
Theorem logistic_load_stops_at_first_raise raises deliveries_csv traffic_csv st :
  ((∀ table k, raises table k = false) →
     ∃ st', load_script raises deliveries_csv traffic_csv st = Finished st'
       ∧ deliveries st' = deliveries st ++ clean_df (default [] deliveries_csv)
       ∧ traffic_routes st' = traffic_routes st ++ clean_df (default [] traffic_csv)
       ∧ inserts_into "deliveries" (l_log st')
         = inserts_into "deliveries" (l_log st)
           ++ seq 0 (length (default [] deliveries_csv))
       ∧ inserts_into "traffic_routes" (l_log st')
         = inserts_into "traffic_routes" (l_log st)
           ++ seq 0 (length (default [] traffic_csv)))
  ∧ ∀ df k,
      deliveries_csv = Some df →
      k < length df →
      raises "deliveries" k = true →
      (∀ j, j < k → raises "deliveries" j = false) →
      ∃ st', load_script raises deliveries_csv traffic_csv st = Crashed st'
        ∧ deliveries st' = deliveries st ++ take k (clean_df df)
        ∧ traffic_routes st' = traffic_routes st
        ∧ inserts_into "deliveries" (l_log st')
          = inserts_into "deliveries" (l_log st) ++ seq 0 (S k)
        ∧ inserts_into "traffic_routes" (l_log st')
          = inserts_into "traffic_routes" (l_log st).
Proof.
  assert (Hlen : ∀ df, length (clean_df df) = length df).
  { intros df. unfold clean_df, map_cells. by rewrite !length_fmap. }
  split.
  - intros Hok. unfold load_script, load_table.
    destruct deliveries_csv as [ddf|], traffic_csv as [tdf|]; cbn [default];
      rewrite ?insert_rows_all by (intros; apply Hok);
      eexists; (split; [reflexivity|]);
      cbn [after_inserts emit deliveries traffic_routes l_log];
      rewrite ?Hlen, ?inserts_into_app, ?inserts_into_calls; cbn;
      rewrite ?app_nil_r; done.
  - intros df k -> Hk Hraise Hbefore. unfold load_script, load_table.
    rewrite (insert_rows_first_raise raises "deliveries" (clean_df df) 0 st k);
      [|by rewrite Hlen|done|done].
    eexists. split; [reflexivity|].
    cbn [after_inserts deliveries traffic_routes l_log].
    rewrite ?inserts_into_app, ?inserts_into_calls. cbn. by rewrite !app_nil_r.
Qed.

(** The theorem on the three sample rows and a store that raises on the
    second. *)
Lemma logistic_load_stops_at_first_raise_witness :
  ∃ st', load_script second_row_raises (Some sample_rows) (Some sample_rows) empty_store
         = Crashed st'
    ∧ length (deliveries st') = 1
    ∧ traffic_routes st' = []
    ∧ inserts_into "deliveries" (l_log st') = [0; 1].
Proof.
  destruct (proj2 (logistic_load_stops_at_first_raise second_row_raises
                     (Some sample_rows) (Some sample_rows) empty_store)
              sample_rows 1 eq_refl) as (st' & Hrun & Hd & Ht & Hcalls & _).
  - cbn. lia.
  - reflexivity.
  - intros j Hj. replace j with 0 by lia. reflexivity.
  - exists st'. split; [exact Hrun|]. split; [by rewrite Hd|].
    split; [exact Ht|exact Hcalls].
Defined.

End LogisticMoreFacts.

(** ** Churn transform: forward fill, groups, total charges *)

Module ChurnTransformFacts.

Import Churn ChurnTransform PyNumFacts.

(** *** Forward fill *)

Lemma length_ffill_from {A} (last : option A) (col : list (option A)) :
  length (ffill_from last col) = length col.
Proof.
  revert last. induction col as [|c col IH]; intros last; cbn; [done|]. by rewrite IH.
Qed.

Lemma ffill_from_lookup_S {A} (last : option A) (col : list (option A)) (i : nat) :
  ffill_from last col !! S i
  = match col !! S i with
    | Some None => ffill_from last col !! i
    | other => other
    end.
Proof.
  revert last i. induction col as [|c col IH]; intros last i; [done|].
  cbn [ffill_from]. rewrite !lookup_cons.
  destruct col as [|c' col]; [done|]. destruct i as [|i].
  - cbn. by destruct c'.
  - specialize (IH (match c with Some _ => c | None => last end) i).
    cbn [ffill_from] in *. rewrite !lookup_cons in *. exact IH.
Qed.

Lemma ffill_from_some {A} (last : option A) (col : list (option A)) (i : nat) (v : A) :
  col !! i = Some (Some v) → ffill_from last col !! i = Some (Some v).
Proof.
  revert last i. induction col as [|c col IH]; intros last i Hi; [done|].
  destruct i as [|i]; cbn in *.
  - by injection Hi as ->.
  - by apply IH.
Qed.

Lemma ffill_from_null {A} (last : option A) (col : list (option A)) (i : nat) :
  ffill_from last col !! i = Some None
  ↔ last = None ∧ i < length col ∧ ∀ j, j ≤ i → col !! j = Some None.
Proof.
  revert last i. induction col as [|c col IH]; intros last i.
  - cbn. split; [done|]. intros (_ & H & _). lia.
  - destruct i as [|i]; cbn [ffill_from]; rewrite ?lookup_cons.
    + split.
      * intros H. destruct c; [done|]. injection H as ->. split; [done|].
        split; [cbn; lia|].
        intros j Hj. by replace j with 0 by lia.
      * intros (-> & _ & H). specialize (H 0 ltac:(lia)). cbn in H.
        by injection H as ->.
    + rewrite IH. split.
      * intros (Hl & Hlt & Hall). destruct c; [done|]. split; [done|].
        split; [cbn; lia|]. intros [|j] Hj; [done|]. cbn. apply Hall. lia.
      * intros (-> & Hlt & Hall). pose proof (Hall 0 ltac:(lia)) as H0. cbn in H0.
        injection H0 as ->. split; [done|]. split; [cbn in Hlt; lia|].
        intros j Hj. apply (Hall (S j)). lia.
Qed.

Lemma ffill_from_fixed {A} (last : option A) (col : list (option A)) :
  ffill_from last (ffill_from last col) = ffill_from last col.
Proof.
  revert last. induction col as [|c col IH]; intros last; cbn; [done|].
  destruct c as [v|]; cbn.
  - by rewrite IH.
  - destruct last as [v|]; cbn; by rewrite IH.
Qed.

(** X12. The forward fill keeps the length of a column and its non-null
    cells; a null cell takes the value of the cell above it in the filled
    column; so a cell is still null after the fill only when it and all the
    cells above it were null; filling twice changes nothing more. *)
Theorem ffill_leaves_leading_nulls {A} (col : list (option A)) :
  length (ffill col) = length col
  ∧ (∀ i v, col !! i = Some (Some v) → ffill col !! i = Some (Some v))
  ∧ (∀ i, col !! S i = Some None → ffill col !! S i = ffill col !! i)
  ∧ (∀ i, ffill col !! i = Some None
          ↔ i < length col ∧ ∀ j, j ≤ i → col !! j = Some None)
  ∧ ffill (ffill col) = ffill col.
Proof.
  unfold ffill. split; [apply length_ffill_from|].
  split; [intros i v; apply ffill_from_some|]. split; [|split].
  - intros i Hi. by rewrite ffill_from_lookup_S, Hi.
  - intros i. rewrite ffill_from_null. split; [by intros (_ & ? & ?)|by intros [? ?]].
  - apply ffill_from_fixed.
Qed.

(** The theorem on the sample contracts, whose second cell is null. *)
Lemma ffill_leaves_leading_nulls_witness :
  sample_contracts !! 1 = Some None
  ∧ ffill sample_contracts !! 1 = ffill sample_contracts !! 0
  ∧ ffill sample_contracts !! 1 = Some (Some "Month-to-month").
Proof.
  assert (H : sample_contracts !! 1 = Some None) by reflexivity.
  split; [exact H|].
  split; [exact (proj1 (proj2 (proj2 (ffill_leaves_leading_nulls sample_contracts))) 0 H)|].
  reflexivity.
Defined.

(** *** Groups *)

Lemma in_bin_cases (lo hi q : Q) :
  ((lo <= q)%Q ∧ (q < hi)%Q ∧ le (Fin lo) (Fin q) && lt (Fin q) (Fin hi) = true)
  ∨ (((q < lo)%Q ∨ (hi <= q)%Q) ∧ le (Fin lo) (Fin q) && lt (Fin q) (Fin hi) = false).
Proof.
  change (le (Fin lo) (Fin q)) with (Qle_bool lo q).
  change (lt (Fin q) (Fin hi)) with (Qlt_bool q hi).
  destruct (Qle_bool lo q) eqn:H1, (Qlt_bool q hi) eqn:H2; cbn.
  - left. apply Qle_bool_iff in H1. apply Qlt_bool_iff in H2. done.
  - right. split; [|done]. right. apply Qnot_lt_le. intros H.
    apply Qlt_bool_iff in H. congruence.
  - right. split; [|done]. left. by apply Qle_bool_false.
  - right. split; [|done]. left. by apply Qle_bool_false.
Qed.

Ltac bins :=
  repeat match goal with
  | |- context [le (Fin ?lo) (Fin ?q) && lt (Fin ?q) (Fin ?hi)] =>
      let H1 := fresh in let H2 := fresh in let Hb := fresh in
      destruct (in_bin_cases lo hi q) as [(H1 & H2 & Hb)|(H1 & Hb)]; rewrite Hb
  end.

Lemma no_missing_forall {A} (col : list (option A)) :
  no_missing col = true ↔ Forall is_Some col.
Proof.
  unfold no_missing. rewrite bool_decide_eq_true. induction col as [|c col IH].
  - split; [constructor|done].
  - cbn. destruct c as [a|]; cbn.
    + rewrite IH. split; [by constructor|by inversion 1].
    + split; [done|]. inversion 1 as [|? ? Hc]. by destruct Hc.
Qed.

(** X13. The tenure group is the label of the interval that holds the
    tenure, closed below and open above: a tenure on a bound belongs to the
    group above it.  It is null exactly for a tenure below 0, at or above 120,
    or null; so the validator's test that no tenure group is missing holds
    exactly when every tenure is a number from 0 to below 120.  The monthly
    charge segment is cut in the same way at 0, 35, 70 and 120. *)
Theorem groups_cover_their_bins :
  (∀ q : Q,
     (tenure_group (Fin q) = Some "0–1 year" ↔ (0 <= q)%Q ∧ (q < 12)%Q)
     ∧ (tenure_group (Fin q) = Some "1–2 years" ↔ (12 <= q)%Q ∧ (q < 24)%Q)
     ∧ (tenure_group (Fin q) = Some "2–4 years" ↔ (24 <= q)%Q ∧ (q < 48)%Q)
     ∧ (tenure_group (Fin q) = Some "4–5 years" ↔ (48 <= q)%Q ∧ (q < 60)%Q)
     ∧ (tenure_group (Fin q) = Some "5+ years" ↔ (60 <= q)%Q ∧ (q < 120)%Q)
     ∧ (tenure_group (Fin q) = None ↔ (q < 0)%Q ∨ (120 <= q)%Q)
     ∧ (monthly_charge_segment (Fin q) = Some "low" ↔ (0 <= q)%Q ∧ (q < 35)%Q)
     ∧ (monthly_charge_segment (Fin q) = Some "medium" ↔ (35 <= q)%Q ∧ (q < 70)%Q)
     ∧ (monthly_charge_segment (Fin q) = Some "high" ↔ (70 <= q)%Q ∧ (q < 120)%Q)
     ∧ (monthly_charge_segment (Fin q) = None ↔ (q < 0)%Q ∨ (120 <= q)%Q))
  ∧ (∀ x, is_finite x = false →
          tenure_group x = None ∧ monthly_charge_segment x = None)
  ∧ ∀ tenures : list num,
      no_missing (tenure_group <$> tenures) = true
      ↔ Forall (fun x => ∃ q, x = Fin q ∧ (0 <= q)%Q ∧ (q < 120)%Q) tenures.
Proof.
  assert (Hq : ∀ q : Q,
     (tenure_group (Fin q) = Some "0–1 year" ↔ (0 <= q)%Q ∧ (q < 12)%Q)
     ∧ (tenure_group (Fin q) = Some "1–2 years" ↔ (12 <= q)%Q ∧ (q < 24)%Q)
     ∧ (tenure_group (Fin q) = Some "2–4 years" ↔ (24 <= q)%Q ∧ (q < 48)%Q)
     ∧ (tenure_group (Fin q) = Some "4–5 years" ↔ (48 <= q)%Q ∧ (q < 60)%Q)
     ∧ (tenure_group (Fin q) = Some "5+ years" ↔ (60 <= q)%Q ∧ (q < 120)%Q)
     ∧ (tenure_group (Fin q) = None ↔ (q < 0)%Q ∨ (120 <= q)%Q)
     ∧ (monthly_charge_segment (Fin q) = Some "low" ↔ (0 <= q)%Q ∧ (q < 35)%Q)
     ∧ (monthly_charge_segment (Fin q) = Some "medium" ↔ (35 <= q)%Q ∧ (q < 70)%Q)
     ∧ (monthly_charge_segment (Fin q) = Some "high" ↔ (70 <= q)%Q ∧ (q < 120)%Q)
     ∧ (monthly_charge_segment (Fin q) = None ↔ (q < 0)%Q ∨ (120 <= q)%Q)).
  { intros q.
    assert (Ht :
      (tenure_group (Fin q) = Some "0–1 year" ↔ (0 <= q)%Q ∧ (q < 12)%Q)
      ∧ (tenure_group (Fin q) = Some "1–2 years" ↔ (12 <= q)%Q ∧ (q < 24)%Q)
      ∧ (tenure_group (Fin q) = Some "2–4 years" ↔ (24 <= q)%Q ∧ (q < 48)%Q)
      ∧ (tenure_group (Fin q) = Some "4–5 years" ↔ (48 <= q)%Q ∧ (q < 60)%Q)
      ∧ (tenure_group (Fin q) = Some "5+ years" ↔ (60 <= q)%Q ∧ (q < 120)%Q)
      ∧ (tenure_group (Fin q) = None ↔ (q < 0)%Q ∨ (120 <= q)%Q)).
    { unfold tenure_group, cut. cbn [cut_from]. bins;
        repeat split; intros;
        first [ discriminate | done | lra
              | (left; lra) | (right; lra)
              | (exfalso; intuition lra) ]. }
    assert (Hm :
      (monthly_charge_segment (Fin q) = Some "low" ↔ (0 <= q)%Q ∧ (q < 35)%Q)
      ∧ (monthly_charge_segment (Fin q) = Some "medium" ↔ (35 <= q)%Q ∧ (q < 70)%Q)
      ∧ (monthly_charge_segment (Fin q) = Some "high" ↔ (70 <= q)%Q ∧ (q < 120)%Q)
      ∧ (monthly_charge_segment (Fin q) = None ↔ (q < 0)%Q ∨ (120 <= q)%Q)).
    { unfold monthly_charge_segment, cut. cbn [cut_from]. bins;
        repeat split; intros;
        first [ discriminate | done | lra
              | (left; lra) | (right; lra)
              | (exfalso; intuition lra) ]. }
    intuition. }
  assert (Hinf : ∀ x, is_finite x = false →
                      tenure_group x = None ∧ monthly_charge_segment x = None).
  { intros x Hx. by destruct x. }
  split; [exact Hq|]. split; [exact Hinf|].
  intros tenures. rewrite no_missing_forall, Forall_fmap. apply Forall_iff.
  intros x. cbn [compose]. destruct x as [q| | |].
  - destruct (Hq q) as (_ & _ & _ & _ & _ & Hnone & _). split.
    + intros Hsome. exists q. split; [done|].
      destruct (Qlt_le_dec q 0) as [Hlo|Hlo].
      { rewrite (proj2 Hnone (or_introl Hlo)) in Hsome. by destruct Hsome. }
      destruct (Qlt_le_dec q 120) as [Hhi|Hhi]; [done|].
      rewrite (proj2 Hnone (or_intror Hhi)) in Hsome. by destruct Hsome.
    + intros (q' & [= <-] & H0 & H120).
      apply not_eq_None_Some. intros Hg. apply Hnone in Hg. lra.
  - split; [by intros []|by intros (? & [=] & _)].
  - split; [by intros []|by intros (? & [=] & _)].
  - split; [by intros []|by intros (? & [=] & _)].
Qed.

(** The theorem on a tenure of twelve months and on one of a hundred and
    twenty. *)
Lemma groups_cover_their_bins_witness :
  tenure_group (of_Z 12) = Some "1–2 years"
  ∧ tenure_group (of_Z 120) = None
  ∧ no_missing (tenure_group <$> [of_Z 0; of_Z 72]) = true.
Proof.
  destruct groups_cover_their_bins as (Hq & _ & Hval).
  split; [apply (Hq 12%Q); split; [discriminate|reflexivity]|].
  split; [apply (Hq 120%Q); right; discriminate|].
  apply Hval. repeat constructor.
  - exists 0%Q. split; [reflexivity|]. split; [discriminate|reflexivity].
  - exists 72%Q. split; [reflexivity|]. split; [discriminate|reflexivity].
Defined.

(** *** Total charges *)

Lemma insert_sorted_forall (P : num → Prop) (x : num) (l : list num) :
  P x → Forall P l → Forall P (Urban.insert_sorted x l).
Proof.
  intros Hx. induction 1 as [|y l Hy Hl IH]; cbn; [by repeat constructor|].
  destruct (le x y); by repeat constructor.
Qed.

Lemma length_insert_sorted (x : num) (l : list num) :
  length (Urban.insert_sorted x l) = S (length l).
Proof.
  induction l as [|y l IH]; cbn; [done|]. destruct (le x y); cbn; by rewrite ?IH.
Qed.

Lemma sort_values_forall (P : num → Prop) (l : list num) :
  Forall P l → Forall P (Urban.sort_values l).
Proof.
  unfold Urban.sort_values. induction 1; cbn; [constructor|].
  by apply insert_sorted_forall.
Qed.

Lemma length_sort_values (l : list num) : length (Urban.sort_values l) = length l.
Proof.
  unfold Urban.sort_values. induction l as [|x l IH]; cbn; [done|].
  by rewrite length_insert_sorted, IH.
Qed.

Lemma nth_finite (l : list num) (k : nat) :
  Forall (fun x => is_finite x = true) l → k < length l →
  ∃ q, nth k l NaN = Fin q.
Proof.
  intros Hall. revert k. induction Hall as [|x l Hx _ IH]; intros k Hk; cbn in *; [lia|].
  destruct k as [|k].
  - destruct x; try discriminate Hx. by eexists.
  - apply IH. lia.
Qed.

(** The median of a column with a number in it, and whose numbers are all
    finite, is a finite number. *)
Lemma median_finite (col : list num) :
  (∃ x, x ∈ col ∧ isna x = false) →
  (∀ x, x ∈ col → isna x = false → is_finite x = true) →
  ∃ q, median col = Fin q.
Proof.
  intros (x & Hx & Hnn) Hfin. unfold median.
  assert (Hall : Forall (fun y => is_finite y = true)
                   (Urban.sort_values (Urban.dropna col))).
  { apply sort_values_forall, Forall_forall. intros y Hy.
    unfold Urban.dropna in Hy.
    apply list_elem_of_In, List.filter_In in Hy as [Hy Hn].
    apply Hfin; [by apply list_elem_of_In|by apply negb_true_iff]. }
  assert (Hlen : 0 < length (Urban.sort_values (Urban.dropna col))).
  { rewrite length_sort_values. unfold Urban.dropna.
    assert (Hin : x ∈ List.filter (fun y => negb (isna y)) col).
    { apply list_elem_of_In, List.filter_In. split; [by apply list_elem_of_In|].
      by rewrite Hnn. }
    destruct (List.filter _ col); [by apply elem_of_nil in Hin|cbn; lia]. }
  set (sorted := Urban.sort_values (Urban.dropna col)) in *.
  destruct (length sorted) as [|n] eqn:Hn; [lia|].
  assert (Hmid : S n / 2 < length sorted).
  { rewrite Hn. apply Nat.div_lt; lia. }
  destruct (nth_finite sorted (S n / 2) Hall Hmid) as [b Hb].
  destruct (Nat.even (S n)).
  - destruct (nth_finite sorted (S n / 2 - 1) Hall ltac:(lia)) as [a Ha].
    rewrite Ha, Hb. by eexists.
  - by exists b.
Qed.

Lemma ffill_num_without_null (last : num) (col : list num) :
  Forall (fun x => isna x = false) col → ffill_num_from last col = col.
Proof.
  intros Hall. revert last. induction Hall as [|x l Hx _ IH]; intros last; cbn; [done|].
  by rewrite Hx, IH.
Qed.

Lemma dropna_all_null (col : list num) :
  (∀ x, x ∈ col → isna x = true) →
  List.filter (fun y => negb (isna y)) col = [].
Proof.
  induction col as [|y l IH]; intros Hnull; [done|]. cbn.
  rewrite (Hnull y) by (apply elem_of_cons; by left). cbn.
  apply IH. intros z Hz. apply Hnull. apply elem_of_cons. by right.
Qed.

Lemma length_ffill_num (last : num) (col : list num) :
  length (ffill_num_from last col) = length col.
Proof.
  revert last. induction col as [|x l IH]; intros last; cbn; [done|]. by rewrite IH.
Qed.

Lemma ffill_num_all_null (col : list num) :
  Forall (fun x => isna x = true) col →
  Forall (fun x => isna x = true) (ffill_num_from NaN col).
Proof.
  induction 1 as [|x l Hx _ IH]; cbn; [constructor|].
  rewrite Hx. by constructor.
Qed.

(** X14. In the [TotalCharges] column the cells that are numbers are kept as
    they are.  When the column has a number and its numbers are finite, every
    cell that is null after the coercion, a blank among them, is given the
    median, itself a finite number: no cell of the column is null afterwards.
    When no cell is a number the median is NaN and every cell stays null. *)
Theorem total_charges_filled (to_numeric : string → num) (col : list (option string)) :
  length (total_charges to_numeric col) = length col
  ∧ ((∃ x, x ∈ coerced to_numeric col ∧ isna x = false) →
     (∀ x, x ∈ coerced to_numeric col → isna x = false → is_finite x = true) →
     (∃ q, median (coerced to_numeric col) = Fin q)
     ∧ total_charges to_numeric col
       = (fun x => if isna x then median (coerced to_numeric col) else x)
           <$> coerced to_numeric col
     ∧ Forall (fun x => is_finite x = true) (total_charges to_numeric col))
  ∧ ((∀ x, x ∈ coerced to_numeric col → isna x = true) →
     Forall (fun x => isna x = true) (total_charges to_numeric col)).
Proof.
  split; [|split].
  - unfold total_charges. by rewrite length_ffill_num, !length_fmap.
  - intros Hsome Hfin.
    destruct (median_finite _ Hsome Hfin) as [q Hq].
    split; [by exists q|].
    assert (Hclean : Forall (fun x => is_finite x = true)
              ((fun x => if isna x then median (coerced to_numeric col) else x)
                 <$> coerced to_numeric col)).
    { apply Forall_fmap, Forall_forall. intros x Hx. cbn [compose].
      destruct (isna x) eqn:Hn; [by rewrite Hq|by apply Hfin]. }
    assert (Heq : total_charges to_numeric col
              = (fun x => if isna x then median (coerced to_numeric col) else x)
                  <$> coerced to_numeric col).
    { unfold total_charges. fold (coerced to_numeric col).
      apply ffill_num_without_null. eapply Forall_impl; [exact Hclean|].
      intros x Hx. by destruct x. }
    split; [exact Heq|]. by rewrite Heq.
  - intros Hnull. unfold total_charges. fold (coerced to_numeric col).
    apply ffill_num_all_null, Forall_fmap, Forall_forall. intros x Hx. cbn [compose].
    rewrite (Hnull x Hx).
    assert (Hmed : median (coerced to_numeric col) = NaN); [|by rewrite Hmed].
    unfold median, Urban.dropna.
    by rewrite (dropna_all_null _ Hnull).
Qed.

(** The theorem on the sample column: a blank, 10, a null, 40, 20. *)
Lemma total_charges_filled_witness :
  total_charges sample_to_numeric sample_charges
  = [of_Z 20; of_Z 10; of_Z 20; of_Z 40; of_Z 20].
Proof.
  destruct (proj1 (proj2 (total_charges_filled sample_to_numeric sample_charges)))
    as (_ & Heq & _).
  - exists (of_Z 10). split; [|reflexivity].
    apply elem_of_cons; right. apply elem_of_cons; left. reflexivity.
  - intros x Hx Hn. vm_compute in Hx.
    repeat (apply elem_of_cons in Hx as [->|Hx]); try reflexivity; try discriminate Hn.
    by apply elem_of_nil in Hx.
  - rewrite Heq. vm_compute. reflexivity.
Defined.

End ChurnTransformFacts.

(** ** Reading the table back page by page *)

Module ValidateFacts.

Import Batcher Validate BatcherFacts.

Lemma ceil_div_step (n bs : nat) :
  0 < bs → 0 < n → ceil_div n bs = S (ceil_div (n - bs) bs).
Proof.
  intros Hbs Hn. unfold ceil_div. destruct (Nat.le_gt_cases bs n) as [Hle|Hlt].
  - replace (n + bs - 1) with ((n - bs + bs - 1) + 1 * bs) by lia.
    rewrite Nat.div_add by lia. lia.
  - replace (n - bs) with 0 by lia. cbn [Nat.add].
    rewrite (Nat.div_small (bs - 1)) by lia.
    replace (n + bs - 1) with ((n - 1) + 1 * bs) by lia.
    rewrite Nat.div_add by lia. rewrite Nat.div_small by lia. done.
Qed.

Lemma range_of_page {A} (tbl : list A) (bs k : nat) :
  range_of tbl (Z.of_nat (k * bs)) (Z.of_nat (k * bs) + Z.of_nat bs - 1)
  = take bs (drop (k * bs) tbl).
Proof. unfold range_of. f_equal; [lia|]. f_equal. lia. Qed.

Lemma fetch_loop_pages {A} (tbl : list A) (bs : nat) :
  0 < bs →
  ∀ fuel k requests,
    1 ≤ fuel →
    length tbl - k * bs ≤ (fuel - 1) * bs →
    fetch_loop fuel (range_of tbl) (Z.of_nat bs) (Z.of_nat (k * bs))
      (take (k * bs) tbl) requests
    = Some (tbl, requests + S (ceil_div (length tbl - k * bs) bs)).
Proof.
  intros Hbs. induction fuel as [|fuel IH]; intros k requests Hfuel Hrem; [lia|].
  cbn [fetch_loop]. rewrite range_of_page.
  destruct (decide (length tbl - k * bs = 0)) as [H0|Hpos].
  - rewrite H0, ceil_div_zero by done.
    rewrite (drop_ge tbl (k * bs)) by lia. rewrite take_nil.
    rewrite take_ge by lia. f_equal. f_equal. lia.
  - destruct (take bs (drop (k * bs) tbl)) as [|x page] eqn:Hpage.
    { apply (f_equal length) in Hpage. rewrite length_take, length_drop in Hpage.
      cbn in Hpage. lia. }
    rewrite <- Hpage, take_take_drop.
    replace (Z.of_nat (k * bs) + Z.of_nat bs)%Z with (Z.of_nat (S k * bs)) by lia.
    replace (k * bs + bs) with (S k * bs) by lia.
    rewrite IH by (cbn; nia).
    rewrite (ceil_div_step (length tbl - k * bs) bs) by lia.
    f_equal. f_equal. replace (length tbl - k * bs - bs) with (length tbl - S k * bs) by lia.
    lia.
Qed.

(** X15. Against a store that answers each range with the rows at those
    positions, [fetch_all_rows] returns the whole table, in order, for every
    positive page size: it asks for the pages one after the other and stops at
    the first empty one, after one request more than the table has pages.  A
    table that is empty costs one request. *)
Theorem fetch_all_rows_reads_the_table {A} (tbl : list A) (bs fuel : nat) :
  0 < bs →
  ceil_div (length tbl) bs < fuel →
  fetch_all_rows fuel (range_of tbl) (Z.of_nat bs)
  = Some (tbl, S (ceil_div (length tbl) bs)).
Proof.
  intros Hbs Hfuel. unfold fetch_all_rows.
  pose proof (fetch_loop_pages tbl bs Hbs fuel 0 0 ltac:(lia)) as H.
  cbn [Nat.mul Z.of_nat take] in H. rewrite Nat.sub_0_r, Nat.add_0_l in H.
  apply H. pose proof (ceil_div_covers (length tbl) bs Hbs). nia.
Qed.

(** The theorem on five rows read by pages of two. *)
Lemma fetch_all_rows_reads_the_table_witness :
  0 < 2 ∧ ceil_div 5 2 < 10
  ∧ fetch_all_rows 10 (range_of [1; 2; 3; 4; 5]) 2 = Some ([1; 2; 3; 4; 5], 4).
Proof.
  assert (Hbs : 0 < 2) by lia.
  assert (Hfuel : ceil_div (length [1; 2; 3; 4; 5]) 2 < 10) by (vm_compute; lia).
  split; [exact Hbs|]. split; [exact Hfuel|].
  exact (fetch_all_rows_reads_the_table [1; 2; 3; 4; 5] 2 10 Hbs Hfuel).
Defined.

(** The start moves by the page size whatever came back: a store that cuts
    its answers below the page size makes the reader skip rows. *)
Example capped_store_loses_rows :
  fetch_all_rows 10 (capped 2 [1; 2; 3; 4; 5]) 3 = Some ([1; 2; 4; 5], 3).
Proof. reflexivity. Qed.

End ValidateFacts.

(** ** The churn loader: what the report counts, how many calls *)

Module LoaderCountFacts.

Import Batcher Loader LoaderCount BatcherFacts LoaderFacts.

Lemma insert_calls_app (l1 l2 : list Event) :
  insert_calls (l1 ++ l2) = insert_calls l1 + insert_calls l2.
Proof. unfold insert_calls. by rewrite List.filter_app, length_app. Qed.

Lemma insert_attempts_count rm i batch attempts st :
  insert_calls (p_log (insert_attempts rm i batch attempts st))
  = insert_calls (p_log st) + length (attempts_made p_failed rm i attempts).
Proof.
  revert st. induction attempts as [|a rest IH]; intros st;
    cbn [insert_attempts attempts_made length]; [lia|].
  destruct (insert_outcome rm i a) eqn:Ho; cbn [p_failed].
  - cbn [p_emit p_log]. rewrite !insert_calls_app. cbn. lia.
  - rewrite IH. cbn [p_emit p_log]. rewrite !insert_calls_app. cbn. lia.
  - rewrite IH. cbn [p_emit p_log]. rewrite !insert_calls_app. cbn. lia.
Qed.

Lemma load_batches_count rm batches :
  ∀ i st,
    insert_calls (p_log st) + length batches
    ≤ insert_calls (p_log (load_batches rm i batches st))
    ∧ insert_calls (p_log (load_batches rm i batches st))
      ≤ insert_calls (p_log st) + 3 * length batches.
Proof.
  induction batches as [|b rest IH]; intros i st; cbn [load_batches length]; [lia|].
  destruct (IH (S i) (insert_attempts rm i b (py_range 0 3 1) st)) as [Hlo Hhi].
  rewrite insert_attempts_count, three_attempts in Hlo, Hhi.
  pose proof (attempts_made_bound p_failed rm i [0; 1; 2]) as Hb. cbn [length] in Hb.
  assert (Hone : 1 ≤ length (attempts_made p_failed rm i [0; 1; 2])) by (cbn; lia).
  rewrite three_attempts. lia.
Qed.

Lemma load_data_count rm records table0 bs :
  delete_raises rm = false →
  chunk_data records 200 = Some bs →
  ∃ st, load_data rm records table0 = Completed st
    ∧ length bs ≤ insert_calls (p_log st)
    ∧ insert_calls (p_log st) ≤ 3 * length bs.
Proof.
  intros Hd Hbs. unfold load_data. rewrite Hd, Hbs. cbn [default]. unfold id.
  eexists. split; [reflexivity|]. cbn [p_emit p_log]. rewrite insert_calls_app.
  match goal with |- context [load_batches rm 1 bs ?s] =>
    set (s0 := s); destruct (load_batches_count rm bs 1 s0) as [Hlo Hhi] end.
  change (insert_calls (p_log s0)) with 0 in Hlo, Hhi.
  match goal with |- context [insert_calls [?e]] =>
    change (insert_calls [e]) with 0 end.
  lia.
Qed.

(** X16. A run of the churn loader whose delete raises sends no insert and
    leaves the table as it was.  A run that completes sends, for [n] batches,
    at least [n] and at most [3 n] inserts; the number it reports is the number
    of rows it added to the table, never more than the staged file has; and
    the table then holds nothing but rows that were in it before and rows of
    the staged file. *)
Theorem churn_load_report_counts_added_rows rm records table0 :
  (delete_raises rm = true →
     ∃ st, load_data rm records table0 = Aborted st
       ∧ p_table st = table0
       ∧ insert_calls (p_log st) = 0)
  ∧ (delete_raises rm = false →
     ∃ st, load_data rm records table0 = Completed st
       ∧ load_report (load_data rm records table0) = Some (p_success_count st)
       ∧ length (p_table st) = length (delete_neq table0) + p_success_count st
       ∧ p_success_count st ≤ length records
       ∧ ceil_div (length records) 200 ≤ insert_calls (p_log st)
       ∧ insert_calls (p_log st) ≤ 3 * ceil_div (length records) 200
       ∧ ∀ r, r ∈ p_table st → r ∈ table0 ∨ r ∈ records).
Proof.
  split.
  - intros Hd. unfold load_data. rewrite Hd. eexists. split; [reflexivity|]. done.
  - intros Hd.
    pose proof (chunk_data_slices records 200 ltac:(lia)) as Hbs.
    pose proof (slices_partition 200 records ltac:(lia)) as Hp.
    destruct (load_data_table rm records table0 _ Hd Hbs) as (st & Hst & Ht & Hc).
    exists st. split; [exact Hst|]. split; [by rewrite Hst|].
    split; [by rewrite Ht, Hc, length_app|].
    pose proof (credit_split p_failed rm 1
                  (slices 200 records (ceil_div (length records) 200))) as Hsplit.
    rewrite (part_concat _ _ _ Hp) in Hsplit.
    split; [lia|].
    destruct (load_data_count rm records table0 _ Hd Hbs) as (st' & Hst' & Hlo & Hhi).
    rewrite Hst in Hst'. injection Hst' as <-. rewrite length_slices in Hlo, Hhi.
    split; [exact Hlo|]. split; [exact Hhi|].
    intros r Hr. rewrite Ht in Hr. apply elem_of_app in Hr as [Hr|Hr].
    + left. unfold delete_neq in Hr.
      apply list_elem_of_In, List.filter_In in Hr as [Hr _]. by apply list_elem_of_In.
    + right. apply credited_rows_from in Hr. by rewrite (part_concat _ _ _ Hp) in Hr.
Qed.

(** The theorem on four hundred staged rows with the first batch lost, and on
    a store whose delete raises. *)
Lemma churn_load_report_counts_added_rows_witness :
  (∃ st, load_data (fails_only 1) two_batches [stale_record] = Completed st
     ∧ length (p_table st) = length (delete_neq [stale_record]) + p_success_count st
     ∧ insert_calls (p_log st) ≤ 3 * ceil_div (length two_batches) 200)
  ∧ ∃ st, load_data delete_fails two_batches [stale_record] = Aborted st
      ∧ insert_calls (p_log st) = 0.
Proof.
  split.
  - destruct (proj2 (churn_load_report_counts_added_rows (fails_only 1) two_batches
                       [stale_record]) eq_refl)
      as (st & Hst & _ & Hlen & _ & _ & Hhi & _).
    exists st. split; [exact Hst|]. split; [exact Hlen|exact Hhi].
  - destruct (proj1 (churn_load_report_counts_added_rows delete_fails two_batches
                       [stale_record]) eq_refl)
      as (st & Hst & _ & Hcalls).
    exists st. split; [exact Hst|exact Hcalls].
Defined.

End LoaderCountFacts.

(** ** The two copies of the urban loader *)

Module RunPipelineFacts.

Import Batcher Loader RunPipeline LoaderFacts.

Lemma r_calls_for_app (i : nat) (l1 l2 : list REvent) :
  r_calls_for i (l1 ++ l2) = r_calls_for i l1 ++ r_calls_for i l2.
Proof. unfold r_calls_for. apply omap_app. Qed.

#[local] Arguments calls_for : simpl never.
#[local] Arguments r_calls_for : simpl never.

Ltac same_calls i Hcalls :=
  let k := fresh "k" in
  intros k; rewrite ?calls_for_app, ?r_calls_for_app, Hcalls;
  unfold calls_for, r_calls_for; cbn;
  destruct (decide (i = k)); cbn; rewrite ?app_nil_r, <- ?app_assoc; done.

Lemma step_agrees {A} rm n i (batch : list A) (su : UState A) (sr : RState A) :
  same_outcome su sr →
  ∃ su' sr', urban_step rm n i batch su = Some su'
    ∧ run_step rm i batch sr = Some sr'
    ∧ same_outcome su' sr'.
Proof.
  intros (Ht & Hs & Hf & Hcalls).
  unfold urban_step, insert_batch, run_step, same_outcome. cbn.
  destruct (insert_outcome rm i 0); cbn;
    [do 2 eexists; (split; [reflexivity|]); (split; [reflexivity|]); cbn;
     rewrite ?Ht, ?Hs, ?Hf; repeat split; try done; same_calls i Hcalls ..|].
  destruct (insert_outcome rm i 1); cbn;
    [do 2 eexists; (split; [reflexivity|]); (split; [reflexivity|]); cbn;
     rewrite ?Ht, ?Hs, ?Hf; repeat split; try done; same_calls i Hcalls ..|].
  destruct (insert_outcome rm i 2); cbn;
    do 2 eexists; (split; [reflexivity|]); (split; [reflexivity|]); cbn;
    rewrite ?Ht, ?Hs, ?Hf; repeat split; try done; same_calls i Hcalls.
Qed.

Lemma loop_agrees {A} rm n (bs : list (list A)) :
  ∀ i (su : UState A) (sr : RState A),
    same_outcome su sr →
    ∃ su' sr', urban_loop rm n i bs su = Some su'
      ∧ run_loop rm i bs sr = Some sr'
      ∧ same_outcome su' sr'.
Proof.
  induction bs as [|b rest IH]; intros i su sr Hsame; cbn [urban_loop run_loop].
  - by exists su, sr.
  - destruct (step_agrees rm n i b su sr Hsame) as (su1 & sr1 & -> & -> & Hsame1).
    cbn [mbind option_bind]. by apply IH.
Qed.

(** X17. The load step of the runner and the load script do the same thing:
    on the same staged rows, against the same store, both return, having sent
    the same insert calls for every batch, and they leave the same table, the
    same number of rows counted as inserted and the same number counted as
    failed. *)
Theorem run_load_agrees_with_load_script {A} rm (records table0 : list A) :
  ∃ su sr,
    urban_load rm records table0 = Some su
    ∧ run_load rm records table0 = Some sr
    ∧ same_outcome su sr
    ∧ r_success_count sr + r_fail_count sr = length records.
Proof.
  unfold urban_load, run_load.
  match goal with |- context [urban_loop rm ?n 0 ?bs ?s0] =>
    match goal with |- context [run_loop rm 0 bs ?r0] =>
      destruct (loop_agrees rm n bs 0 s0 r0) as (su & sr & Hu & Hr & Hsame)
    end end.
  { repeat split; try done. }
  destruct (urban_load_returns rm records table0) as (su' & Hu' & _ & _ & Hsum & _).
  unfold urban_load in Hu'. rewrite Hu in Hu'. cbn [mbind option_bind] in Hu'.
  injection Hu' as <-. cbn [u_emit u_success_count u_fail_count] in Hsum.
  rewrite Hu, Hr. cbn [mbind option_bind].
  do 2 eexists. split; [reflexivity|]. split; [reflexivity|].
  destruct Hsame as (Ht & Hs & Hf & Hcalls). split.
  - unfold same_outcome. cbn. repeat split; try done.
    intros k. rewrite calls_for_app, r_calls_for_app, Hcalls.
    unfold calls_for, r_calls_for. by cbn.
  - cbn. lia.
Qed.

(** The two loaders on four hundred and fifty rows and a store that raises
    once for every batch. *)
Example both_loaders_on_450 :
  (u_success_count <$> urban_load raises_once (replicate 450 tt) [])
  = Some 450
  ∧ (r_success_count <$> run_load raises_once (replicate 450 tt) []) = Some 450
  ∧ (length ∘ r_table <$> run_load raises_once (replicate 450 tt) []) = Some 450.
Proof. repeat split; vm_compute; reflexivity. Qed.

End RunPipelineFacts.

(** ** The cut points of the dynamic risk classes *)

Module UrbanAnalysisFacts.

Import PyNum Urban.

Lemma le_refl_finite (x : num) : is_finite x = true → le x x = true.
Proof. destruct x; try done. intros _. apply Qle_bool_iff. lra. Qed.

Lemma le_total_finite (x y : num) :
  is_finite x = true → is_finite y = true → le x y = false → le y x = true.
Proof.
  destruct x as [a| | |], y as [b| | |]; try done. intros _ _ H.
  apply Qle_bool_iff. destruct (Qlt_le_dec b a) as [Hlt|Hle]; [lra|].
  apply Qle_bool_iff in Hle. cbn [le] in H. congruence.
Qed.

Lemma le_trans_finite (x y z : num) :
  is_finite y = true → le x y = true → le y z = true → le x z = true.
Proof.
  destruct x as [a| | |], y as [b| | |], z as [c| | |]; try done. intros _ H1 H2.
  apply Qle_bool_iff in H1, H2. apply Qle_bool_iff. lra.
Qed.

Lemma insert_sorted_increasing (x : num) (l : list num) :
  is_finite x = true → Forall (fun y => is_finite y = true) l →
  StronglySorted (fun a b => le a b = true) l →
  StronglySorted (fun a b => le a b = true) (insert_sorted x l).
Proof.
  intros Hx Hfin Hs. induction Hs as [|y l Hs IH Hy]; cbn [insert_sorted].
  - by repeat constructor.
  - apply Forall_cons in Hfin as [Hyf Hfin].
    destruct (le x y) eqn:Hxy.
    + constructor; [by constructor|]. constructor; [done|].
      eapply Forall_impl; [exact Hy|]. intros z Hz. cbn beta in *.
      by apply (le_trans_finite x y z).
    + constructor; [by apply IH|].
      apply ChurnTransformFacts.insert_sorted_forall; [|done].
      by apply le_total_finite.
Qed.

Lemma sort_values_increasing (l : list num) :
  Forall (fun y => is_finite y = true) l →
  StronglySorted (fun a b => le a b = true) (sort_values l).
Proof.
  unfold sort_values. induction 1 as [|x l Hx Hl IH]; cbn [foldr]; [constructor|].
  apply insert_sorted_increasing; [done| |done].
  by apply (ChurnTransformFacts.sort_values_forall _ l).
Qed.

Lemma increasing_nth (l : list num) :
  StronglySorted (fun a b => le a b = true) l →
  Forall (fun y => is_finite y = true) l →
  ∀ i j, i ≤ j → j < length l → le (nth i l NaN) (nth j l NaN) = true.
Proof.
  induction 1 as [|x l Hs IH Hx]; intros Hfin i j Hij Hj; cbn [length] in Hj; [lia|].
  apply Forall_cons in Hfin as [Hxf Hfin].
  destruct i as [|i], j as [|j]; cbn [nth]; try lia.
  - by apply le_refl_finite.
  - rewrite List.Forall_forall in Hx. apply Hx, nth_In. lia.
  - apply IH; [done|lia|lia].
Qed.

Lemma quantile_unfold (col : list num) (q : Q) :
  col ≠ [] →
  quantile col q
  = let sorted := sort_values col in
    let n := length sorted in
    let h := (inject_Z (Z.of_nat (n - 1)) * q)%Q in
    let lo := Z.to_nat (Qfloor h) in
    let t := (h - inject_Z (Qfloor h))%Q in
    let a := nth lo sorted NaN in
    let b := nth (Nat.min (lo + 1) (n - 1)) sorted NaN in
    add a (mul (sub b a) (Fin t)).
Proof.
  intros Hne. unfold quantile.
  pose proof (ChurnTransformFacts.length_sort_values col) as Hlen.
  destruct (sort_values col) eqn:Hs; [|reflexivity].
  by destruct col.
Qed.

(** The quantile of a column of finite numbers lies between two neighbours of
    the sorted column. *)
Lemma quantile_interp (col : list num) (q : Q) :
  Forall (fun x => is_finite x = true) col → col ≠ [] →
  (0 <= q)%Q → (q <= 1)%Q →
  ∃ (lo : nat) (a b t : Q),
    lo ≤ length col - 1
    ∧ nth lo (sort_values col) NaN = Fin a
    ∧ nth (Nat.min (lo + 1) (length col - 1)) (sort_values col) NaN = Fin b
    ∧ (a <= b)%Q ∧ (0 <= t)%Q ∧ (t < 1)%Q
    ∧ (inject_Z (Z.of_nat lo) + t == inject_Z (Z.of_nat (length col - 1)) * q)%Q
    ∧ quantile col q = Fin (a + (b + - a) * t).
Proof.
  intros Hfin Hne Hq0 Hq1.
  rewrite (quantile_unfold col q Hne). cbv zeta.
  rewrite !ChurnTransformFacts.length_sort_values.
  assert (Hpos : 0 < length col) by (destruct col; [done|cbn; lia]).
  set (n1 := length col - 1).
  set (h := (inject_Z (Z.of_nat n1) * q)%Q).
  assert (Hn1 : (0 <= inject_Z (Z.of_nat n1))%Q).
  { change 0%Q with (inject_Z 0). rewrite <- Zle_Qle. lia. }
  assert (Hh0 : (0 <= h)%Q) by (by apply Qmult_le_0_compat).
  assert (Hh1 : (h <= inject_Z (Z.of_nat n1))%Q).
  { assert (H1q : (0 <= 1 - q)%Q) by lra.
    pose proof (Qmult_le_0_compat _ _ Hn1 H1q). unfold h. lra. }
  assert (Hf0 : (0 <= Qfloor h)%Z).
  { rewrite <- (Qfloor_Z 0). by apply Qfloor_resp_le. }
  assert (Hf1 : (Qfloor h <= Z.of_nat n1)%Z).
  { rewrite <- (Qfloor_Z (Z.of_nat n1)). by apply Qfloor_resp_le. }
  set (lo := Z.to_nat (Qfloor h)).
  assert (Hlo : Z.of_nat lo = Qfloor h) by (unfold lo; lia).
  assert (Hlon : lo ≤ n1) by lia.
  set (t := (h - inject_Z (Qfloor h))%Q).
  assert (Ht0 : (0 <= t)%Q).
  { pose proof (Qfloor_le h). unfold t. lra. }
  assert (Ht1 : (t < 1)%Q).
  { pose proof (Qlt_floor h) as Hlt. rewrite inject_Z_plus in Hlt.
    change (inject_Z 1) with 1%Q in Hlt. unfold t. lra. }
  assert (Hsf : Forall (fun x => is_finite x = true) (sort_values col))
    by (by apply ChurnTransformFacts.sort_values_forall).
  pose proof (ChurnTransformFacts.length_sort_values col) as Hlen.
  destruct (ChurnTransformFacts.nth_finite (sort_values col) lo Hsf) as [a Ha];
    [unfold n1 in *; lia|].
  destruct (ChurnTransformFacts.nth_finite (sort_values col)
              (Nat.min (lo + 1) n1) Hsf) as [b Hb]; [unfold n1 in *; lia|].
  pose proof (increasing_nth _ (sort_values_increasing col Hfin) Hsf
                lo (Nat.min (lo + 1) n1)) as Hab.
  rewrite Ha, Hb in Hab. cbn [le] in Hab.
  exists lo, a, b, t. repeat split; try done.
  - apply Qle_bool_iff, Hab; unfold n1 in *; lia.
  - rewrite Hlo. unfold t, h. ring.
  - by rewrite Ha, Hb.
Qed.

(** Every lower bound of the column is a lower bound of its quantiles, every
    upper bound an upper bound. *)
Lemma quantile_between (col : list num) (q v : Q) :
  Forall (fun x => is_finite x = true) col → col ≠ [] →
  (0 <= q)%Q → (q <= 1)%Q → quantile col q = Fin v →
  (∀ m, (∀ x, Fin x ∈ col → (m <= x)%Q) → (m <= v)%Q)
  ∧ (∀ M, (∀ x, Fin x ∈ col → (x <= M)%Q) → (v <= M)%Q).
Proof.
  intros Hfin Hne Hq0 Hq1 Hv.
  destruct (quantile_interp col q Hfin Hne Hq0 Hq1)
    as (lo & a & b & t & Hlo & Ha & Hb & Hab & Ht0 & Ht1 & _ & Hquant).
  rewrite Hquant in Hv. injection Hv as <-.
  assert (Hpos : 0 < length col) by (destruct col; [done|cbn; lia]).
  pose proof (ChurnTransformFacts.length_sort_values col) as Hlen.
  assert (Hba : (0 <= b + - a)%Q) by lra.
  assert (H1t : (0 <= 1 - t)%Q) by lra.
  pose proof (Qmult_le_0_compat _ _ Hba Ht0) as Hlow.
  pose proof (Qmult_le_0_compat _ _ Hba H1t) as Hhigh.
  split.
  - intros m Hm.
    assert (Hall : Forall (fun x => ∀ y, x = Fin y → (m <= y)%Q) (sort_values col)).
    { apply ChurnTransformFacts.sort_values_forall, Forall_forall.
      intros x Hx y ->. by apply Hm. }
    rewrite List.Forall_forall in Hall.
    assert (m <= a)%Q; [|lra].
    apply (Hall (nth lo (sort_values col) NaN)); [apply nth_In; lia|done].
  - intros M HM.
    assert (Hall : Forall (fun x => ∀ y, x = Fin y → (y <= M)%Q) (sort_values col)).
    { apply ChurnTransformFacts.sort_values_forall, Forall_forall.
      intros x Hx y ->. by apply HM. }
    rewrite List.Forall_forall in Hall.
    assert (b <= M)%Q; [|lra].
    apply (Hall (nth (Nat.min (lo + 1) (length col - 1)) (sort_values col) NaN));
      [apply nth_In; lia|done].
Qed.

(** A larger fraction gives a larger quantile. *)
Lemma quantile_increasing (col : list num) (q1 q2 v1 v2 : Q) :
  Forall (fun x => is_finite x = true) col → col ≠ [] →
  (0 <= q1)%Q → (q1 <= q2)%Q → (q2 <= 1)%Q →
  quantile col q1 = Fin v1 → quantile col q2 = Fin v2 → (v1 <= v2)%Q.
Proof.
  intros Hfin Hne H0 H12 H1 Hv1 Hv2.
  destruct (quantile_interp col q1 Hfin Hne) as
    (lo1 & a1 & b1 & t1 & Hlo1 & Ha1 & Hb1 & Hab1 & Ht10 & Ht11 & Hh1 & Hquant1);
    [lra|lra|].
  destruct (quantile_interp col q2 Hfin Hne) as
    (lo2 & a2 & b2 & t2 & Hlo2 & Ha2 & Hb2 & Hab2 & Ht20 & Ht21 & Hh2 & Hquant2);
    [lra|lra|].
  rewrite Hquant1 in Hv1. rewrite Hquant2 in Hv2.
  injection Hv1 as <-. injection Hv2 as <-.
  assert (Hn1 : (0 <= inject_Z (Z.of_nat (length col - 1)))%Q).
  { change 0%Q with (inject_Z 0). rewrite <- Zle_Qle. lia. }
  assert (Hq : (0 <= q2 - q1)%Q) by lra.
  pose proof (Qmult_le_0_compat _ _ Hn1 Hq) as Hh.
  assert (Hlt : (inject_Z (Z.of_nat lo1) < inject_Z (Z.of_nat lo2 + 1))%Q).
  { rewrite inject_Z_plus. change (inject_Z 1) with 1%Q. lra. }
  rewrite <- Zlt_Qlt in Hlt.
  assert (Hba1 : (0 <= b1 + - a1)%Q) by lra.
  assert (Hba2 : (0 <= b2 + - a2)%Q) by lra.
  destruct (decide (lo1 = lo2)) as [->|Hneq].
  - rewrite Ha1 in Ha2. rewrite Hb1 in Hb2.
    injection Ha2 as <-. injection Hb2 as <-.
    assert (Ht : (0 <= t2 - t1)%Q) by lra.
    pose proof (Qmult_le_0_compat _ _ Hba1 Ht). lra.
  - assert (Hlo : lo1 + 1 ≤ lo2) by lia.
    assert (H1t : (0 <= 1 - t1)%Q) by lra.
    pose proof (Qmult_le_0_compat _ _ Hba1 H1t).
    pose proof (Qmult_le_0_compat _ _ Hba2 Ht20).
    assert (Hsf : Forall (fun x => is_finite x = true) (sort_values col))
      by (by apply ChurnTransformFacts.sort_values_forall).
    pose proof (ChurnTransformFacts.length_sort_values col) as Hlen.
    pose proof (increasing_nth _ (sort_values_increasing col Hfin) Hsf
                  (Nat.min (lo1 + 1) (length col - 1)) lo2) as Hb1a2.
    rewrite Hb1, Ha2 in Hb1a2. cbn [le] in Hb1a2.
    assert (b1 <= a2)%Q; [|lra].
    apply Qle_bool_iff, Hb1a2; lia.
Qed.

Lemma dropna_finite (col : list num) :
  (∀ x, x ∈ col → isna x = false → is_finite x = true) →
  Forall (fun x => is_finite x = true) (dropna col).
Proof.
  intros Hfin. apply Forall_forall. intros y Hy. unfold dropna in Hy.
  apply list_elem_of_In, List.filter_In in Hy as [Hy Hn].
  apply Hfin; [by apply list_elem_of_In|by apply negb_true_iff].
Qed.

Lemma dropna_elem_finite (col : list num) (x : Q) : Fin x ∈ dropna col ↔ Fin x ∈ col.
Proof.
  unfold dropna. rewrite !list_elem_of_In, List.filter_In. cbn. tauto.
Qed.

(** X18. When the severity column has a score and its scores are finite, the
    two cut points of the dynamic classes are finite numbers, the lower one
    at most the upper one, and both lie between the smallest and the largest
    score of the column.  So a row with the smallest score is always in the
    class Low Risk. *)
Theorem dynamic_cut_points_ordered (severity_score : list num) :
  (∀ x, x ∈ severity_score → isna x = false → is_finite x = true) →
  (∃ x, x ∈ severity_score ∧ isna x = false) →
  ∃ low med,
    low_thresh_of severity_score = Fin low
    ∧ med_thresh_of severity_score = Fin med
    ∧ (low <= med)%Q
    ∧ (∀ m, (∀ x, Fin x ∈ severity_score → (m <= x)%Q) → (m <= low)%Q)
    ∧ (∀ M, (∀ x, Fin x ∈ severity_score → (x <= M)%Q) → (med <= M)%Q)
    ∧ (∀ i x, severity_score !! i = Some (Fin x) →
         (∀ y, Fin y ∈ severity_score → (x <= y)%Q) →
         risk_flag_column severity_score !! i = Some (Some "Low Risk")).
Proof.
  intros Hfin (x0 & Hx0 & Hn0).
  pose proof (dropna_finite _ Hfin) as Hd.
  assert (Hne : dropna severity_score ≠ []).
  { assert (Hin : x0 ∈ dropna severity_score).
    { apply list_elem_of_In, List.filter_In. split; [by apply list_elem_of_In|].
      by rewrite Hn0. }
    intros Hnil. rewrite Hnil in Hin. by apply elem_of_nil in Hin. }
  destruct (quantile_interp (dropna severity_score) (33 # 100) Hd Hne)
    as (lo1 & a1 & b1 & t1 & _ & _ & _ & _ & _ & _ & _ & Hlow); [lra|lra|].
  destruct (quantile_interp (dropna severity_score) (66 # 100) Hd Hne)
    as (lo2 & a2 & b2 & t2 & _ & _ & _ & _ & _ & _ & _ & Hmed); [lra|lra|].
  assert (H33 : (0 <= 33 # 100)%Q ∧ (33 # 100 <= 1)%Q) by (split; lra).
  assert (H66 : (0 <= 66 # 100)%Q ∧ (66 # 100 <= 1)%Q) by (split; lra).
  destruct (quantile_between _ _ _ Hd Hne (proj1 H33) (proj2 H33) Hlow) as [Hlo _].
  destruct (quantile_between _ _ _ Hd Hne (proj1 H66) (proj2 H66) Hmed) as [_ Hhi].
  assert (Hord : (a1 + (b1 + - a1) * t1 <= a2 + (b2 + - a2) * t2)%Q).
  { apply (quantile_increasing _ (33 # 100) (66 # 100) _ _ Hd Hne); [lra|lra|lra|done|done]. }
  fold (low_thresh_of severity_score) in Hlow.
  fold (med_thresh_of severity_score) in Hmed.
  eexists _, _. split; [exact Hlow|]. split; [exact Hmed|].
  split; [exact Hord|].
  assert (Hmin : ∀ m, (∀ x, Fin x ∈ severity_score → (m <= x)%Q) →
                      (m <= a1 + (b1 + - a1) * t1)%Q).
  { intros m Hm. apply Hlo. intros x Hx. by apply Hm, dropna_elem_finite. }
  split; [exact Hmin|]. split.
  - intros M HM. apply Hhi. intros x Hx. by apply HM, dropna_elem_finite.
  - intros i x Hi Hx. unfold risk_flag_column.
    rewrite list_lookup_fmap, Hi. cbn [fmap option_fmap option_map].
    rewrite Hlow. unfold dynamic_risk. cbn [isna le].
    specialize (Hmin x Hx). apply Qle_bool_iff in Hmin. by rewrite Hmin.
Qed.

(** The theorem on the column with three scores of 10, a null and a 50. *)
Lemma dynamic_cut_points_ordered_witness :
  risk_flag_column tied_scores !! 0 = Some (Some "Low Risk")
  ∧ risk_flag_column tied_scores !! 2 = Some None.
Proof.
  split; [|reflexivity].
  destruct (dynamic_cut_points_ordered tied_scores)
    as (low & med & _ & _ & _ & _ & _ & Hmin).
  - intros x Hx Hn.
    repeat (apply elem_of_cons in Hx as [->|Hx]); try reflexivity; try discriminate Hn.
    by apply elem_of_nil in Hx.
  - exists (of_Z 10). split; [|reflexivity]. apply elem_of_cons; left. reflexivity.
  - apply (Hmin 0 (inject_Z 10)); [reflexivity|].
    intros y Hy.
    repeat (apply elem_of_cons in Hy as [Hy|Hy]); try discriminate Hy;
      try (injection Hy as ->; vm_compute; discriminate).
    by apply elem_of_nil in Hy.
Defined.

End UrbanAnalysisFacts.

(** ** The cut points of the dynamic risk classes, by rank *)

Module DynamicRiskFacts.

Import PyNum Urban UrbanAnalysis.

Lemma le_refl_score (x : num) : isna x = false → le x x = true.
Proof. destruct x; try done. intros _. apply Qle_bool_iff. lra. Qed.

Lemma lt_irrefl_score (x : num) : lt x x = false.
Proof.
  destruct x; try done. cbn. unfold Qlt_bool.
  assert (H : Qle_bool q q = true) by (apply Qle_bool_iff; lra). by rewrite H.
Qed.

Lemma le_total_score (x y : num) :
  isna x = false → isna y = false → le x y = false → le y x = true.
Proof.
  destruct x as [a| | |], y as [b| | |]; try done. intros _ _ H.
  apply Qle_bool_iff. destruct (Qlt_le_dec b a) as [Hlt|Hle]; [lra|].
  apply Qle_bool_iff in Hle. cbn [le] in H. congruence.
Qed.

Lemma le_trans_score (x y z : num) :
  le x y = true → le y z = true → le x z = true.
Proof.
  destruct x as [a| | |], y as [b| | |], z as [c| | |]; try done. intros H1 H2.
  apply Qle_bool_iff in H1, H2. apply Qle_bool_iff. lra.
Qed.

(** A score at or below another is not above it. *)
Lemma le_not_lt (x y : num) : le x y = true → lt y x = false.
Proof.
  destruct x as [a| | |], y as [b| | |]; try done. cbn. unfold Qlt_bool.
  by intros ->.
Qed.

(** What is at or below [y] is below everything that is not at or below [y]. *)
Lemma le_lt_score (x y z : num) :
  isna x = false → le z y = true → le x y = false → lt z x = true.
Proof.
  destruct x as [a| | |], y as [b| | |], z as [c| | |]; try done.
  intros _ H1 H2. cbn in *. unfold Qlt_bool. apply negb_true_iff.
  destruct (Qle_bool a c) eqn:Hac; [|done].
  apply Qle_bool_iff in H1, Hac.
  assert (H : Qle_bool a b = true) by (apply Qle_bool_iff; lra). congruence.
Qed.

Lemma insert_sorted_perm (x : num) (l : list num) : insert_sorted x l ≡ₚ x :: l.
Proof.
  induction l as [|y l IH]; cbn [insert_sorted]; [done|].
  destruct (le x y); [done|]. rewrite IH. apply Permutation_swap.
Qed.

Lemma sort_values_perm (l : list num) : sort_values l ≡ₚ l.
Proof.
  unfold sort_values. induction l as [|x l IH]; cbn [foldr]; [done|].
  by rewrite insert_sorted_perm, IH.
Qed.

Lemma insert_sorted_sorted (x : num) (l : list num) :
  isna x = false → Forall (fun y => isna y = false) l →
  StronglySorted (fun a b => le a b = true) l →
  StronglySorted (fun a b => le a b = true) (insert_sorted x l).
Proof.
  intros Hx Hnn Hs. induction Hs as [|y l Hs IH Hy]; cbn [insert_sorted].
  - by repeat constructor.
  - apply Forall_cons in Hnn as [Hyn Hnn].
    destruct (le x y) eqn:Hxy.
    + constructor; [by constructor|]. constructor; [done|].
      eapply Forall_impl; [exact Hy|]. intros z Hz. cbn beta in *.
      by apply (le_trans_score x y z).
    + constructor; [by apply IH|].
      rewrite insert_sorted_perm. constructor; [|done].
      by apply le_total_score.
Qed.

Lemma sort_values_sorted (l : list num) :
  Forall (fun y => isna y = false) l →
  StronglySorted (fun a b => le a b = true) (sort_values l).
Proof.
  unfold sort_values. induction 1 as [|x l Hx Hl IH]; cbn [foldr]; [constructor|].
  apply insert_sorted_sorted; [done| |done].
  fold (sort_values l). by rewrite sort_values_perm.
Qed.

Lemma count_perm (f : num → bool) (l l' : list num) :
  l ≡ₚ l' → count f l = count f l'.
Proof.
  unfold count. induction 1 as [|x l l' _ IH|x y l|l l' l'' _ IH1 _ IH2];
    cbn [List.filter].
  - done.
  - destruct (f x); cbn [length]; by rewrite IH.
  - by destruct (f x), (f y).
  - by rewrite IH1.
Qed.

Lemma count_none (f : num → bool) (l : list num) :
  Forall (fun z => f z = false) l → count f l = 0.
Proof.
  unfold count. induction 1 as [|z l Hz _ IH]; cbn [List.filter]; [done|].
  by rewrite Hz.
Qed.

Lemma count_mono (f g : num → bool) (l : list num) :
  (∀ z, f z = true → g z = true) → count f l ≤ count g l.
Proof.
  intros Hfg. unfold count. induction l as [|z l IH]; cbn [List.filter]; [done|].
  destruct (f z) eqn:Hf.
  - rewrite (Hfg z Hf). cbn [length]. lia.
  - destruct (g z); cbn [length]; lia.
Qed.

(** A test that no null cell passes counts the same cells before and after
    the null cells are dropped. *)
Lemma count_dropna (f : num → bool) (col : list num) :
  (∀ y, isna y = true → f y = false) → count f (dropna col) = count f col.
Proof.
  intros Hf. unfold count, dropna. induction col as [|y col IH]; [done|].
  cbn [List.filter]. destruct (isna y) eqn:Hy; cbn [negb List.filter].
  - by rewrite (Hf y Hy).
  - destruct (f y); cbn [length]; by rewrite IH.
Qed.

Lemma dropna_scores (col : list num) : Forall (fun y => isna y = false) (dropna col).
Proof.
  apply Forall_forall. intros y Hy. unfold dropna in Hy.
  apply list_elem_of_In, List.filter_In in Hy as [_ Hy]. by apply negb_true_iff.
Qed.

(** In a sorted list the item at position [k] has rank [k]. *)
Lemma sorted_rank (s : list num) :
  StronglySorted (fun a b => le a b = true) s →
  Forall (fun x => isna x = false) s →
  ∀ k, k < length s →
    count (fun y => lt y (nth k s NaN)) s ≤ k
    ∧ k < count (fun y => le y (nth k s NaN)) s.
Proof.
  induction 1 as [|y s Hs IH Hy]; intros Hnn k Hk; cbn [length] in Hk; [lia|].
  apply Forall_cons in Hnn as [Hyn Hnn].
  destruct k as [|k]; cbn [nth]; unfold count in *; cbn [List.filter].
  - rewrite lt_irrefl_score, (le_refl_score y Hyn). cbn [length]. split; [|lia].
    pose proof (count_none (fun z => lt z y) s) as H0. unfold count in H0.
    rewrite H0; [done|]. eapply Forall_impl; [exact Hy|].
    intros z Hz. by apply le_not_lt.
  - destruct (IH Hnn k) as [H1 H2]; [lia|].
    assert (Hyx : le y (nth k s NaN) = true).
    { rewrite List.Forall_forall in Hy. apply Hy, nth_In. lia. }
    rewrite Hyx. cbn [length]. split; [|lia].
    destruct (lt y (nth k s NaN)); cbn [length]; lia.
Qed.

(** The sorted scores of a column hold, at position [k], its score of rank
    [k]. *)
Lemma rank_in_column (col : list num) (k : nat) :
  k < scores col → of_rank k (nth k (sort_values (dropna col)) NaN) col.
Proof.
  intros Hk.
  pose proof (dropna_scores col) as Hnn.
  assert (Hsn : Forall (fun x => isna x = false) (sort_values (dropna col)))
    by (by rewrite sort_values_perm).
  assert (Hlen : length (sort_values (dropna col)) = scores col).
  { rewrite (Permutation_length (sort_values_perm _)). reflexivity. }
  destruct (sorted_rank _ (sort_values_sorted _ Hnn) Hsn k) as [H1 H2]; [lia|].
  set (x := nth k (sort_values (dropna col)) NaN) in *.
  assert (Hx : isna x = false).
  { rewrite List.Forall_forall in Hsn. apply Hsn, nth_In. lia. }
  split; [exact Hx|].
  rewrite <- (count_dropna (fun y => lt y x) col),
          <- (count_dropna (fun y => le y x) col).
  - by rewrite <- !(count_perm _ _ _ (sort_values_perm (dropna col))).
  - by intros [].
  - intros [] Hy; try discriminate Hy. by destruct x.
Qed.

(** Two scores of the same rank are at or below one another. *)
Lemma rank_unique (k : nat) (x y : num) (col : list num) :
  of_rank k x col → of_rank k y col → le x y = true.
Proof.
  intros (Hx & Hx1 & Hx2) (Hy & Hy1 & Hy2).
  destruct (le x y) eqn:Hle; [done|exfalso].
  pose proof (count_mono (fun z => le z y) (fun z => lt z x) col) as Hm.
  cbn beta in Hm. specialize (Hm (fun z Hz => le_lt_score x y z Hx Hz Hle)). lia.
Qed.

Lemma rank_below_le (col : list num) (q : Q) :
  (0 <= q)%Q → (q <= 1)%Q → rank_below col q ≤ scores col - 1.
Proof.
  intros Hq0 Hq1. unfold rank_below, position.
  set (n1 := scores col - 1).
  assert (Hn1 : (0 <= inject_Z (Z.of_nat n1))%Q).
  { change 0%Q with (inject_Z 0). rewrite <- Zle_Qle. lia. }
  assert (Hh1 : (inject_Z (Z.of_nat n1) * q <= inject_Z (Z.of_nat n1))%Q).
  { assert (H1q : (0 <= 1 - q)%Q) by lra.
    pose proof (Qmult_le_0_compat _ _ Hn1 H1q). lra. }
  apply Qfloor_resp_le in Hh1. rewrite Qfloor_Z in Hh1. lia.
Qed.

(** The quantile of the scores of a column is read between its scores of two
    neighbouring ranks. *)
Lemma quantile_by_rank (col : list num) (q : Q) :
  (0 <= q)%Q → (q <= 1)%Q → scores col ≠ 0 →
  ∃ a b,
    of_rank (rank_below col q) a col
    ∧ of_rank (rank_above col q) b col
    ∧ quantile (dropna col) q = add a (mul (sub b a) (Fin (fraction col q))).
Proof.
  intros Hq0 Hq1 Hn.
  assert (Hne : dropna col ≠ []).
  { intros E. apply Hn. unfold scores, count. fold (dropna col). by rewrite E. }
  pose proof (rank_below_le col q Hq0 Hq1) as Hlo.
  exists (nth (rank_below col q) (sort_values (dropna col)) NaN),
         (nth (rank_above col q) (sort_values (dropna col)) NaN).
  split; [apply rank_in_column; lia|].
  split; [apply rank_in_column; unfold rank_above; lia|].
  rewrite (UrbanAnalysisFacts.quantile_unfold _ q Hne). cbv zeta.
  rewrite (Permutation_length (sort_values_perm _)). reflexivity.
Qed.

Lemma no_scores_all_null (col : list num) :
  scores col = 0 → dropna col = [] ∧ Forall (fun y => isna y = true) col.
Proof.
  unfold scores, count. fold (dropna col). intros H.
  assert (Hd : dropna col = []) by (by destruct (dropna col)).
  split; [done|]. apply Forall_forall. intros y Hy.
  destruct (isna y) eqn:Hn; [done|].
  assert (Hin : y ∈ dropna col).
  { apply list_elem_of_In, List.filter_In. split; [by apply list_elem_of_In|].
    by rewrite Hn. }
  rewrite Hd in Hin. by apply elem_of_nil in Hin.
Qed.

(** C8. The two cut points are computed from the scores of the column being
    classified, its null cells left out and in whatever order they come: with
    [n] scores, the cut point for [q] (0.33 and 0.66) is read at the position
    [(n - 1) q], between the score of the rank at its whole part and the
    score of the next rank, in proportion to its fractional part; a rank
    determines its score.  Without any score both cut points are NaN and no
    row has a class.  Every row of the column is classified with these two
    cut points; a score at or below a cut point falls in the lower class and a
    null score has no class.  On [10, 20, 30, 40, 50] the cut points are 23.2
    and 36.4 and the classes are Low, Low, Moderate, High, High, and so they
    are on the same scores out of order with null cells between them; on a
    column with three scores of 10, a null and a 50, the lower cut point is
    10 itself and the scores equal to it are Low. *)
Theorem dynamic_risk_tertiles :
  (∀ severity_score,
     scores severity_score ≠ 0 →
     (∃ a b,
        of_rank (rank_below severity_score (33 # 100)) a severity_score
        ∧ of_rank (rank_above severity_score (33 # 100)) b severity_score
        ∧ low_thresh_of severity_score
          = add a (mul (sub b a) (Fin (fraction severity_score (33 # 100)))))
     ∧ (∃ a b,
        of_rank (rank_below severity_score (66 # 100)) a severity_score
        ∧ of_rank (rank_above severity_score (66 # 100)) b severity_score
        ∧ med_thresh_of severity_score
          = add a (mul (sub b a) (Fin (fraction severity_score (66 # 100))))))
  ∧ (∀ k x y severity_score,
       of_rank k x severity_score → of_rank k y severity_score →
       le x y = true ∧ le y x = true)
  ∧ (∀ severity_score,
       scores severity_score = 0 →
       low_thresh_of severity_score = NaN
       ∧ med_thresh_of severity_score = NaN
       ∧ Forall (fun c => c = None) (risk_flag_column severity_score))
  ∧ (∀ severity_score,
     risk_flag_column severity_score
     = dynamic_risk (quantile (dropna severity_score) (33 # 100))
                    (quantile (dropna severity_score) (66 # 100))
         <$> severity_score)
  ∧ (∀ low med v,
       (isna v = true → dynamic_risk low med v = None)
       ∧ (le v low = true → dynamic_risk low med v = Some "Low Risk")
       ∧ (isna v = false → le v low = false → le v med = true →
            dynamic_risk low med v = Some "Moderate Risk")
       ∧ (isna v = false → le v low = false → le v med = false →
            dynamic_risk low med v = Some "High Risk"))
  ∧ (∃ q_low q_med,
       low_thresh_of five_scores = Fin q_low ∧ (q_low == 232 # 10)%Q
       ∧ med_thresh_of five_scores = Fin q_med ∧ (q_med == 364 # 10)%Q)
  ∧ risk_flag_column five_scores
    = [Some "Low Risk"; Some "Low Risk"; Some "Moderate Risk";
       Some "High Risk"; Some "High Risk"]
  ∧ (∃ q_low q_med,
       low_thresh_of shuffled_scores = Fin q_low ∧ (q_low == 232 # 10)%Q
       ∧ med_thresh_of shuffled_scores = Fin q_med ∧ (q_med == 364 # 10)%Q)
  ∧ risk_flag_column shuffled_scores
    = [Some "High Risk"; None; Some "Low Risk"; Some "High Risk"; None;
       Some "Low Risk"; Some "Moderate Risk"]
  ∧ (∃ q_low, low_thresh_of tied_scores = Fin q_low ∧ (q_low == 10)%Q)
  ∧ risk_flag_column tied_scores
    = [Some "Low Risk"; Some "Low Risk"; None; Some "Low Risk"; Some "High Risk"].
Proof.
  split.
  { intros col Hn. unfold low_thresh_of, med_thresh_of. split.
    - apply quantile_by_rank; [lra|lra|done].
    - apply quantile_by_rank; [lra|lra|done]. }
  split.
  { intros k x y col Hx Hy. split; by eapply rank_unique. }
  split.
  { intros col Hn. destruct (no_scores_all_null col Hn) as [Hd Hall].
    unfold low_thresh_of, med_thresh_of, risk_flag_column. rewrite Hd.
    split; [done|]. split; [done|].
    apply Forall_fmap. eapply Forall_impl; [exact Hall|].
    intros v Hv. cbn [compose]. unfold dynamic_risk. by rewrite Hv. }
  split; [done|]. split; [exact UrbanFacts.dynamic_risk_cases|].
  split; [do 2 eexists; repeat split; vm_compute; reflexivity|].
  split; [vm_compute; reflexivity|].
  split; [do 2 eexists; repeat split; vm_compute; reflexivity|].
  split; [vm_compute; reflexivity|].
  split; [eexists; split; vm_compute; reflexivity|].
  vm_compute; reflexivity.
Qed.

(** The theorem on the scores out of order: among the five scores the lower
    cut point is read at the position 1.32, between the scores of rank 1 and
    2, which are 20 and 30 whatever their place in the column. *)
Lemma dynamic_risk_tertiles_witness :
  scores shuffled_scores = 5
  ∧ rank_below shuffled_scores (33 # 100) = 1
  ∧ rank_above shuffled_scores (33 # 100) = 2
  ∧ (fraction shuffled_scores (33 # 100) == 32 # 100)%Q
  ∧ ∃ a b,
      of_rank 1 a shuffled_scores ∧ of_rank 2 b shuffled_scores
      ∧ le a (of_Z 20) = true ∧ le (of_Z 20) a = true
      ∧ le b (of_Z 30) = true ∧ le (of_Z 30) b = true
      ∧ low_thresh_of shuffled_scores
        = add a (mul (sub b a) (Fin (fraction shuffled_scores (33 # 100)))).
Proof.
  split; [reflexivity|]. split; [reflexivity|]. split; [reflexivity|].
  split; [vm_compute; reflexivity|].
  destruct dynamic_risk_tertiles as (Hcut & Huniq & _).
  destruct (Hcut shuffled_scores) as [(a & b & Ha & Hb & Hlow) _]; [by vm_compute|].
  change (rank_below shuffled_scores (33 # 100)) with 1 in Ha.
  change (rank_above shuffled_scores (33 # 100)) with 2 in Hb.
  assert (H20 : of_rank 1 (of_Z 20) shuffled_scores)
    by (split; [reflexivity|split; vm_compute; lia]).
  assert (H30 : of_rank 2 (of_Z 30) shuffled_scores)
    by (split; [reflexivity|split; vm_compute; lia]).
  exists a, b. split; [exact Ha|]. split; [exact Hb|].
  destruct (Huniq 1 a (of_Z 20) shuffled_scores Ha H20) as [H1 H2].
  destruct (Huniq 2 b (of_Z 30) shuffled_scores Hb H30) as [H3 H4].
  repeat split; assumption.
Defined.

End DynamicRiskFacts.
